(** * E-voting tallying core: a shallow embedding of the Python backend

    The development follows the layout of [backend/app]:

    - [Py]            the fragments of the Python runtime the services rely on
                      (exceptions, [str] of an [int], [hashlib.sha256],
                      [base64.b64encode], [json.dumps], [datetime.isoformat]);
    - [Paillier]      the [phe.paillier] classes used by [services/encryption.py];
    - [Encryption]    [HomomorphicEncryptionService];
    - [ThresholdCrypto] [ThresholdCryptoService];
    - [Database]      the SQLAlchemy tables of [models/database.py];
    - [Tallying]      [TallyingService];
    - [Routers]       the endpoints of [routers/*.py] that change or read the
                      tables the properties are about;
    - [Keys]          the key serializers of [services/encryption.py];
    - [Endpoints]     the writing endpoints of [routers/trustees.py] and
                      [routers/results.py].

    Integers are Python integers, hence [Z]; a [string] is a Python [str]
    whose code points are below 256. *)

From Stdlib Require Import ZArith Znumtheory Zpow_facts List String Ascii Bool Lia.
From Stdlib Require Import Permutation FinFun DecimalString.
Import ListNotations.

Local Open Scope string_scope.
Local Open Scope list_scope.
Local Open Scope Z_scope.

(** String concatenation, as in an f-string. *)
Infix "+++" := String.append (right associativity, at level 60).

(* ===================================================================== *)
(** * Python runtime *)
(* ===================================================================== *)

Module Py.

(** Exceptions that the modelled code raises or lets through, each with the
    text that [str(e)] yields. *)
Inductive exc : Type :=
| ValueError (msg : string)
| OverflowError (msg : string)
| ZeroDivisionError (msg : string)
| IndexError (msg : string)
| AttributeError (msg : string)
| IntegrityError (msg : string).

Definition str_of_exc (e : exc) : string :=
  match e with
  | ValueError m | OverflowError m | ZeroDivisionError m
  | IndexError m | AttributeError m | IntegrityError m => m
  end.

(** A call either returns, raises, or leaves the modelled fragment of the
    language ([Beyond]: floating-point results and [phe]'s exponent
    re-alignment).  Nothing is claimed about a [Beyond] run. *)
Inductive outcome (A : Type) : Type :=
| Return (a : A)
| Raise (e : exc)
| Beyond (why : string).

Arguments Return {A} a.
Arguments Raise {A} e.
Arguments Beyond {A} why.

Definition bind {A B} (c : outcome A) (k : A -> outcome B) : outcome B :=
  match c with
  | Return a => k a
  | Raise e => Raise e
  | Beyond w => Beyond w
  end.

(** [try: c  except Exception as e: raise h(e)] *)
Definition reraise {A} (c : outcome A) (h : exc -> exc) : outcome A :=
  match c with
  | Return a => Return a
  | Raise e => Raise (h e)
  | Beyond w => Beyond w
  end.

Fixpoint mapM {A B} (f : A -> outcome B) (l : list A) : outcome (list B) :=
  match l with
  | [] => Return []
  | x :: xs =>
      bind (f x) (fun y => bind (mapM f xs) (fun ys => Return (y :: ys)))
  end.

(** [str(i)] for an [int]. *)
Definition str (i : Z) : string := NilZero.string_of_int (Z.to_int i).

(** [pow(b, e, m)] with [e >= 0]. *)
Definition powmod (b e m : Z) : Z := Zpow_mod b e m.

(** ** Bytes *)

Definition bytes := list Z.

Definition ord (c : ascii) : Z := Z.of_N (N_of_ascii c).

(** [s.encode()]: UTF-8, one byte below U+0080 and two bytes from there on. *)
Definition encode (s : string) : bytes :=
  flat_map (fun c => let o := ord c in
                     if o <? 128 then [o] else [192 + o / 64; 128 + o mod 64])
           (list_ascii_of_string s).

Definition chr (b : Z) : ascii := ascii_of_N (Z.to_N b).

(** [int.from_bytes(b, byteorder='big')] *)
Definition int_from_bytes (b : bytes) : Z :=
  fold_left (fun acc x => acc * 256 + x) b 0.

Fixpoint be_bytes (len : nat) (i : Z) : bytes :=
  match len with
  | O => []
  | S k => be_bytes k (i / 256) ++ [i mod 256]
  end.

(** [i.to_bytes(len, byteorder='big')] *)
Definition int_to_bytes (i : Z) (len : nat) : outcome bytes :=
  if i <? 0 then Raise (OverflowError "can't convert negative int to unsigned")
  else if 256 ^ Z.of_nat len <=? i then Raise (OverflowError "int too big to convert")
  else Return (be_bytes len i).

(** ** [base64.b64encode] *)

Definition b64_alphabet : string :=
  "ABCDEFGHIJKLMNOPQRSTUVWXYZabcdefghijklmnopqrstuvwxyz0123456789+/".

Definition b64_char (i : Z) : ascii :=
  match String.get (Z.to_nat i) b64_alphabet with
  | Some c => c
  | None => "="%char
  end.

Fixpoint b64_groups (fuel : nat) (b : bytes) : string :=
  match fuel with
  | O => EmptyString
  | S k =>
      match b with
      | [] => EmptyString
      | [x] =>
          String (b64_char (x / 4))
         (String (b64_char ((x mod 4) * 16)) "==")
      | [x; y] =>
          String (b64_char (x / 4))
         (String (b64_char ((x mod 4) * 16 + y / 16))
         (String (b64_char ((y mod 16) * 4)) "="))
      | x :: y :: z :: rest =>
          String (b64_char (x / 4))
         (String (b64_char ((x mod 4) * 16 + y / 16))
         (String (b64_char ((y mod 16) * 4 + z / 64))
         (String (b64_char (z mod 64)) (b64_groups k rest))))
      end
  end.

(** [base64.b64encode(b).decode()] *)
Definition b64encode (b : bytes) : string := b64_groups (S (List.length b)) b.

(** ** [hashlib.sha256] (FIPS 180-4) over 32-bit words held in [Z] *)

Definition w32 (x : Z) : Z := Z.land x 4294967295.
Definition add32 (x y : Z) : Z := w32 (x + y).
Definition rotr (n x : Z) : Z := Z.lor (Z.shiftr x n) (w32 (Z.shiftl x (32 - n))).
Definition not32 (x : Z) : Z := Z.lxor x 4294967295.

Definition Ch (x y z : Z) : Z := Z.lxor (Z.land x y) (Z.land (not32 x) z).
Definition Maj (x y z : Z) : Z :=
  Z.lxor (Z.lxor (Z.land x y) (Z.land x z)) (Z.land y z).
Definition Sigma0 (x : Z) : Z := Z.lxor (Z.lxor (rotr 2 x) (rotr 13 x)) (rotr 22 x).
Definition Sigma1 (x : Z) : Z := Z.lxor (Z.lxor (rotr 6 x) (rotr 11 x)) (rotr 25 x).
Definition sigma0 (x : Z) : Z := Z.lxor (Z.lxor (rotr 7 x) (rotr 18 x)) (Z.shiftr x 3).
Definition sigma1 (x : Z) : Z := Z.lxor (Z.lxor (rotr 17 x) (rotr 19 x)) (Z.shiftr x 10).

(** The round constants and the initial hash value, in decimal. *)
Definition K256 : list Z :=
  [ 1116352408; 1899447441; 3049323471; 3921009573; 961987163; 1508970993;
    2453635748; 2870763221; 3624381080; 310598401; 607225278; 1426881987;
    1925078388; 2162078206; 2614888103; 3248222580; 3835390401; 4022224774;
    264347078; 604807628; 770255983; 1249150122; 1555081692; 1996064986;
    2554220882; 2821834349; 2952996808; 3210313671; 3336571891; 3584528711;
    113926993; 338241895; 666307205; 773529912; 1294757372; 1396182291;
    1695183700; 1986661051; 2177026350; 2456956037; 2730485921; 2820302411;
    3259730800; 3345764771; 3516065817; 3600352804; 4094571909; 275423344;
    430227734; 506948616; 659060556; 883997877; 958139571; 1322822218;
    1537002063; 1747873779; 1955562222; 2024104815; 2227730452; 2361852424;
    2428436474; 2756734187; 3204031479; 3329325298 ].

Definition H256_init : list Z :=
  [ 1779033703; 3144134277; 1013904242; 2773480762;
    1359893119; 2600822924; 528734635; 1541459225 ].

(** Padding: one [0x80] byte, zeros up to 56 mod 64, the bit length on 8 bytes. *)
Definition sha_pad (msg : bytes) : bytes :=
  let len := Z.of_nat (List.length msg) in
  msg ++ [128] ++ repeat 0 (Z.to_nat ((55 - len) mod 64)) ++ be_bytes 8 (8 * len).

Fixpoint words_of_bytes (fuel : nat) (b : bytes) : list Z :=
  match fuel with
  | O => []
  | S k =>
      match b with
      | b0 :: b1 :: b2 :: b3 :: rest =>
          (((b0 * 256 + b1) * 256 + b2) * 256 + b3) :: words_of_bytes k rest
      | _ => []
      end
  end.

Record sha_regs : Type := mk_regs {
  ra : Z; rb : Z; rc : Z; rd : Z; re : Z; rf : Z; rg : Z; rh : Z }.

(** One round: [win] holds the sixteen schedule words W[i..i+15]. *)
Definition sha_round (st : sha_regs * list Z) (k : Z) : sha_regs * list Z :=
  let '(r, win) := st in
  let w := nth 0 win 0 in
  let t1 := add32 (add32 (add32 (add32 (rh r) (Sigma1 (re r))) (Ch (re r) (rf r) (rg r))) k) w in
  let t2 := add32 (Sigma0 (ra r)) (Maj (ra r) (rb r) (rc r)) in
  let wnext :=
    add32 (add32 (add32 (sigma1 (nth 14 win 0)) (nth 9 win 0)) (sigma0 (nth 1 win 0))) w in
  (mk_regs (add32 t1 t2) (ra r) (rb r) (rc r) (add32 (rd r) t1) (re r) (rf r) (rg r),
   tl win ++ [wnext]).

Definition regs_of_list (h : list Z) : sha_regs :=
  mk_regs (nth 0 h 0) (nth 1 h 0) (nth 2 h 0) (nth 3 h 0)
          (nth 4 h 0) (nth 5 h 0) (nth 6 h 0) (nth 7 h 0).

Definition sha_compress (h : list Z) (block : list Z) : list Z :=
  let r := fst (fold_left sha_round K256 (regs_of_list h, block)) in
  map (fun p => add32 (fst p) (snd p))
      (combine h [ra r; rb r; rc r; rd r; re r; rf r; rg r; rh r]).

Fixpoint sha_blocks (fuel : nat) (h : list Z) (ws : list Z) : list Z :=
  match fuel with
  | O => h
  | S k =>
      match ws with
      | [] => h
      | _ => sha_blocks k (sha_compress h (firstn 16 ws)) (skipn 16 ws)
      end
  end.

Definition sha256_words (msg : bytes) : list Z :=
  let p := sha_pad msg in
  let ws := words_of_bytes (List.length p) p in
  sha_blocks (List.length ws) H256_init ws.

(** [hashlib.sha256(msg).digest()] *)
Definition sha256_digest (msg : bytes) : bytes :=
  flat_map (be_bytes 4) (sha256_words msg).

Definition hex_char (d : Z) : ascii :=
  match String.get (Z.to_nat d) "0123456789abcdef" with
  | Some c => c
  | None => "?"%char
  end.

Fixpoint hex_of_bytes (b : bytes) : string :=
  match b with
  | [] => EmptyString
  | x :: rest => String (hex_char (x / 16)) (String (hex_char (x mod 16)) (hex_of_bytes rest))
  end.

(** [hashlib.sha256(msg).hexdigest()] *)
Definition sha256_hexdigest (msg : bytes) : string := hex_of_bytes (sha256_digest msg).

(** ** [json.dumps(obj, sort_keys=True)]

    Default separators and [ensure_ascii]: every character outside
    [' '..'~'], the quote and the backslash are escaped. *)

Definition json_escape_char (c : ascii) : string :=
  let o := ord c in
  if o =? 34 then "\" +++ String c EmptyString
  else if o =? 92 then "\\"
  else if o =? 10 then "\n"
  else if o =? 13 then "\r"
  else if o =? 9 then "\t"
  else if o =? 8 then "\b"
  else if o =? 12 then "\f"
  else if (32 <=? o) && (o <=? 126) then String c EmptyString
  else "\u00" +++ String (hex_char (o / 16)) (String (hex_char (o mod 16)) EmptyString).

Fixpoint json_escape (s : string) : string :=
  match s with
  | EmptyString => EmptyString
  | String c rest => json_escape_char c +++ json_escape rest
  end.

Definition json_str (s : string) : string :=
  String (chr 34) (json_escape s) +++ String (chr 34) EmptyString.

Definition json_int (i : Z) : string := str i.

(** A [dict] with [str] keys, in insertion order; [dict_set] is [d[k] = v]. *)
Definition dict (V : Type) := list (string * V).

Fixpoint dict_set {V} (d : dict V) (k : string) (v : V) : dict V :=
  match d with
  | [] => [(k, v)]
  | (k', v') :: rest =>
      if String.eqb k' k then (k', v) :: rest else (k', v') :: dict_set rest k v
  end.

Fixpoint dict_get {V} (d : dict V) (k : string) : option V :=
  match d with
  | [] => None
  | (k', v') :: rest => if String.eqb k' k then Some v' else dict_get rest k
  end.

Fixpoint insert_by_key {V} (kv : string * V) (l : list (string * V)) : list (string * V) :=
  match l with
  | [] => [kv]
  | kv' :: rest =>
      if String.leb (fst kv) (fst kv') then kv :: kv' :: rest
      else kv' :: insert_by_key kv rest
  end.

(** [sorted(d.items(), key=...)] as done by [sort_keys=True]. *)
Definition sort_items {V} (d : dict V) : list (string * V) :=
  fold_right insert_by_key [] d.

Fixpoint json_members (items : list (string * string)) : string :=
  match items with
  | [] => EmptyString
  | [(k, v)] => json_str k +++ ": " +++ v
  | (k, v) :: rest => json_str k +++ ": " +++ v +++ ", " +++ json_members rest
  end.

(** An object whose values are already rendered. *)
Definition json_obj (d : dict string) : string :=
  "{" +++ json_members (sort_items d) +++ "}".

(** ** [datetime] *)

Record datetime : Type := mk_datetime {
  year : Z; month : Z; day : Z; hour : Z; minute : Z; second : Z; microsecond : Z }.

Fixpoint zpad (width : nat) (i : Z) : string :=
  match width with
  | O => EmptyString
  | S k => zpad k (i / 10) +++ String (hex_char (i mod 10)) EmptyString
  end.

(** [dt.isoformat()] *)
Definition isoformat (dt : datetime) : string :=
  zpad 4 (year dt) +++ "-" +++ zpad 2 (month dt) +++ "-" +++ zpad 2 (day dt) +++ "T" +++
  zpad 2 (hour dt) +++ ":" +++ zpad 2 (minute dt) +++ ":" +++ zpad 2 (second dt) +++
  (if microsecond dt =? 0 then EmptyString else "." +++ zpad 6 (microsecond dt)).

Definition datetime_eqb (a b : datetime) : bool :=
  (year a =? year b) && (month a =? month b) && (day a =? day b) &&
  (hour a =? hour b) && (minute a =? minute b) && (second a =? second b) &&
  (microsecond a =? microsecond b).

End Py.

(* ===================================================================== *)
(** * [phe.paillier] *)
(* ===================================================================== *)

(** The classes of the [phe] package that [services/encryption.py] calls,
    after python-paillier 1.4: [g = n + 1], decryption through the Chinese
    remainder theorem, integers encoded with exponent 0.  Random draws are an
    explicit argument: [rnd i] is the i-th value returned by
    [get_random_lt_n] during the call. *)

Module Paillier.
Import Py.

(** [phe.util.powmod] and [mulmod] *)
Definition powmod (a b c : Z) : Z := if a =? 1 then 1 else Py.powmod a b c.
Definition mulmod (a b c : Z) : Z := (a * b) mod c.

(** [phe.util.extended_euclidean_algorithm]: the loop runs while [r1 != 0]. *)
Fixpoint eea_loop (fuel : nat) (r0 r1 s0 s1 t0 t1 : Z) : option (Z * Z * Z) :=
  match fuel with
  | O => None
  | S k =>
      if r1 =? 0 then Some (r0, s0, t0)
      else
        let q := r0 / r1 in
        eea_loop k r1 (r0 - q * r1) s1 (s0 - q * s1) t1 (t0 - q * t1)
  end.

Definition eea_fuel (b : Z) : nat := Z.to_nat (2 * (Z.log2 b + 1) + 2).

Definition extended_euclidean_algorithm (a b : Z) : option (Z * Z * Z) :=
  eea_loop (eea_fuel b) a b 1 0 0 1.

(** [phe.util.invert] *)
Definition invert (a b : Z) : outcome Z :=
  match extended_euclidean_algorithm a b with
  | None => Beyond "extended_euclidean_algorithm: iteration bound"
  | Some (r, s, _) =>
      if r =? 1 then Return (s mod b)
      else Raise (ZeroDivisionError "invert() no inverse exists")
  end.

Record PaillierPublicKey : Type := mk_public_key { n : Z }.

Definition g (pk : PaillierPublicKey) : Z := n pk + 1.
Definition nsquare (pk : PaillierPublicKey) : Z := n pk * n pk.
Definition max_int (pk : PaillierPublicKey) : Z := n pk / 3 - 1.

(** [PaillierPublicKey.__eq__] *)
Definition pk_eqb (a b : PaillierPublicKey) : bool := n a =? n b.

(** [EncodedNumber.BASE] *)
Definition BASE : Z := 16.

Record EncryptedNumber : Type := mk_encrypted {
  public_key : PaillierPublicKey;
  raw_ciphertext : Z;
  exponent : Z;
  is_obfuscated : bool }.

(** [EncodedNumber.encode(public_key, scalar)] for an [int]: exponent 0. *)
Definition encode_int (pk : PaillierPublicKey) (scalar : Z) : outcome (Z * Z) :=
  if max_int pk <? Z.abs scalar
  then Raise (ValueError "Integer needs to be within +/- max_int")
  else Return (scalar mod n pk, 0).

(** [PaillierPublicKey.raw_encrypt(plaintext, r_value)] *)
Definition raw_encrypt (pk : PaillierPublicKey) (plaintext r : Z) : outcome Z :=
  bind (if (n pk - max_int pk <=? plaintext) && (plaintext <? n pk)
        then invert ((n pk * (n pk - plaintext) + 1) mod nsquare pk) (nsquare pk)
        else Return ((n pk * plaintext + 1) mod nsquare pk))
       (fun nude_ciphertext =>
          let obfuscator := powmod r (n pk) (nsquare pk) in
          Return (mulmod nude_ciphertext obfuscator (nsquare pk))).

(** [EncryptedNumber.obfuscate()] with the drawn value [r]. *)
Definition obfuscate (e : EncryptedNumber) (r : Z) : EncryptedNumber :=
  let pk := public_key e in
  let r_pow_n := powmod r (n pk) (nsquare pk) in
  mk_encrypted pk (mulmod (raw_ciphertext e) r_pow_n (nsquare pk)) (exponent e) true.

(** [EncryptedNumber.ciphertext(be_secure=True)]: obfuscates first when that
    has not been done; returns the value and the updated object. *)
Definition ciphertext_secure (e : EncryptedNumber) (r : Z) : Z * EncryptedNumber :=
  if is_obfuscated e then (raw_ciphertext e, e)
  else let e' := obfuscate e r in (raw_ciphertext e', e').

(** [PaillierPublicKey.encrypt(value)] for an [int], no [r_value] given:
    [raw_encrypt] with obfuscator 1, then [obfuscate()]. *)
Definition encrypt (pk : PaillierPublicKey) (value : Z) (r : Z) : outcome EncryptedNumber :=
  bind (encode_int pk value) (fun enc =>
  bind (raw_encrypt pk (fst enc) 1) (fun c =>
  Return (obfuscate (mk_encrypted pk c (snd enc) false) r))).

(** [EncryptedNumber.__add__] on two encrypted numbers.  Operands with
    different exponents go through [decrease_exponent_to], which is not
    modelled. *)
Definition add_encrypted (a b : EncryptedNumber) : outcome EncryptedNumber :=
  if negb (pk_eqb (public_key a) (public_key b))
  then Raise (ValueError "Attempted to add numbers encrypted against different public keys!")
  else if negb (exponent a =? exponent b)
  then Beyond "EncryptedNumber.decrease_exponent_to"
  else
    let pk := public_key a in
    Return (mk_encrypted pk (mulmod (raw_ciphertext a) (raw_ciphertext b) (nsquare pk))
                         (exponent a) false).

Record PaillierPrivateKey : Type := mk_private_key {
  sk_public_key : PaillierPublicKey;
  p : Z;
  q : Z;
  psquare : Z;
  qsquare : Z;
  p_inverse : Z;
  hp : Z;
  hq : Z }.

Definition l_function (x p : Z) : Z := (x - 1) / p.

Definition h_function (pk : PaillierPublicKey) (x xsquare : Z) : outcome Z :=
  invert (l_function (powmod (g pk) (x - 1) xsquare) x) x.

(** [PaillierPrivateKey.__init__].  Keys with a factor below 1 are outside
    the model. *)
Definition new_private_key (pk : PaillierPublicKey) (p0 q0 : Z) : outcome PaillierPrivateKey :=
  if negb (p0 * q0 =? n pk)
  then Raise (ValueError "given public key does not match the given p and q.")
  else if p0 =? q0
  then Raise (ValueError "p and q have to be different")
  else if (p0 <=? 0) || (q0 <=? 0)
  then Beyond "PaillierPrivateKey with a non-positive factor"
  else
    let p1 := if q0 <? p0 then q0 else p0 in
    let q1 := if q0 <? p0 then p0 else q0 in
    let psq := p1 * p1 in
    let qsq := q1 * q1 in
    bind (invert p1 q1) (fun pinv =>
    bind (h_function pk p1 psq) (fun hp1 =>
    bind (h_function pk q1 qsq) (fun hq1 =>
    Return (mk_private_key pk p1 q1 psq qsq pinv hp1 hq1)))).

Definition crt (sk : PaillierPrivateKey) (mp mq : Z) : Z :=
  let u := mulmod (mq - mp) (p_inverse sk) (q sk) in
  mp + u * p sk.

(** [PaillierPrivateKey.raw_decrypt] *)
Definition raw_decrypt (sk : PaillierPrivateKey) (c : Z) : Z :=
  let decrypt_to_p :=
    mulmod (l_function (powmod c (p sk - 1) (psquare sk)) (p sk)) (hp sk) (p sk) in
  let decrypt_to_q :=
    mulmod (l_function (powmod c (q sk - 1) (qsquare sk)) (q sk)) (hq sk) (q sk) in
  crt sk decrypt_to_p decrypt_to_q.

(** [EncodedNumber.decode]; a negative exponent yields a [float]. *)
Definition decode (pk : PaillierPublicKey) (encoding exponent : Z) : outcome Z :=
  if n pk <=? encoding then Raise (ValueError "Attempted to decode corrupted number")
  else
    bind (if encoding <=? max_int pk then Return encoding
          else if n pk - max_int pk <=? encoding then Return (encoding - n pk)
          else Raise (OverflowError "Overflow detected in decrypted number"))
         (fun mantissa =>
            if 0 <=? exponent then Return (mantissa * BASE ^ exponent)
            else Beyond "EncodedNumber.decode: float result").

(** [PaillierPrivateKey.decrypt] *)
Definition decrypt (sk : PaillierPrivateKey) (e : EncryptedNumber) : outcome Z :=
  if negb (pk_eqb (sk_public_key sk) (public_key e))
  then Raise (ValueError "encrypted_number was encrypted against a different key!")
  else decode (sk_public_key sk) (raw_decrypt sk (raw_ciphertext e)) (exponent e).

End Paillier.

(* ===================================================================== *)
(** * [services/encryption.py] *)
(* ===================================================================== *)

(** Serialized values are kept as the JSON payload that the service wraps in
    base64: the wire strings of this module are the well-formed ones. *)

Module Encryption.
Import Py.

(** One entry of a serialized vector:
    [{'ciphertext': str(c), 'exponent': e}]. *)
Record wire_number : Type := mk_wire { ciphertext : Z; exponent : Z }.

Definition wire_vector := list wire_number.

(** [{'n': n}] and [{'p': p, 'q': q}] *)
Record wire_public_key : Type := mk_wire_pk { wn : Z }.
Record wire_private_key : Type := mk_wire_sk { wp : Z; wq : Z }.

(** The payload of a partial decryption:
    [{"share_index": i, "partial_values": [str(c), ...]}]. *)
Record wire_partial : Type := mk_wire_partial {
  share_index : Z;
  partial_values : list Z }.

Record HomomorphicEncryptionService : Type := mk_service {
  key_size : Z;
  public_key : option Paillier.PaillierPublicKey;
  private_key : option Paillier.PaillierPrivateKey }.

(** [HomomorphicEncryptionService()] *)
Definition init (key_size : Z) : HomomorphicEncryptionService :=
  mk_service key_size None None.

Definition _deserialize_public_key (s : wire_public_key) : outcome Paillier.PaillierPublicKey :=
  if wn s <=? 0 then Beyond "PaillierPublicKey with a non-positive modulus"
  else Return (Paillier.mk_public_key (wn s)).

Definition _deserialize_private_key (s : wire_private_key) : outcome Paillier.PaillierPrivateKey :=
  Paillier.new_private_key (Paillier.mk_public_key (wp s * wq s)) (wp s) (wq s).

Definition load_public_key (self : HomomorphicEncryptionService) (s : wire_public_key)
  : outcome HomomorphicEncryptionService :=
  bind (_deserialize_public_key s) (fun pk =>
  Return (mk_service (key_size self) (Some pk) (private_key self))).

Definition load_private_key (self : HomomorphicEncryptionService) (s : wire_private_key)
  : outcome HomomorphicEncryptionService :=
  bind (_deserialize_private_key s) (fun sk =>
  Return (mk_service (key_size self) (public_key self) (Some sk))).

(** [_serialize_encrypted_vector]: [enc_value.ciphertext()] obfuscates a
    number that is not yet obfuscated, with the i-th draw. *)
Fixpoint serialize_from (rnd : nat -> Z) (i : nat) (v : list Paillier.EncryptedNumber)
  : wire_vector :=
  match v with
  | [] => []
  | e :: rest =>
      mk_wire (fst (Paillier.ciphertext_secure e (rnd i))) (Paillier.exponent e)
      :: serialize_from rnd (S i) rest
  end.

Definition _serialize_encrypted_vector (rnd : nat -> Z) (v : list Paillier.EncryptedNumber)
  : wire_vector :=
  serialize_from rnd 0 v.

Definition _deserialize_encrypted_vector (self : HomomorphicEncryptionService) (s : wire_vector)
  : outcome (list Paillier.EncryptedNumber) :=
  match public_key self with
  | None => Raise (ValueError "Public key not loaded")
  | Some pk =>
      Return (map (fun item => Paillier.mk_encrypted pk (ciphertext item) (exponent item) false) s)
  end.

(** [l[i] = v] with Python's index rules. *)
Definition list_assign {A} (l : list A) (i : Z) (v : A) : outcome (list A) :=
  let len := Z.of_nat (List.length l) in
  let j := if i <? 0 then i + len else i in
  if (j <? 0) || (len <=? j)
  then Raise (IndexError "list assignment index out of range")
  else Return (firstn (Z.to_nat j) l ++ v :: skipn (S (Z.to_nat j)) l).

(** [l[i]] for [i >= 0]. *)
Definition list_item {A} (l : list A) (i : nat) : outcome A :=
  match nth_error l i with
  | Some x => Return x
  | None => Raise (IndexError "list index out of range")
  end.

Fixpoint encrypt_from (pk : Paillier.PaillierPublicKey) (rnd : nat -> Z) (i : nat)
  (vs : list Z) : outcome (list Paillier.EncryptedNumber) :=
  match vs with
  | [] => Return []
  | v :: rest =>
      bind (Paillier.encrypt pk v (rnd i)) (fun e =>
      bind (encrypt_from pk rnd (S i) rest) (fun es => Return (e :: es)))
  end.

Definition encrypt_vote (self : HomomorphicEncryptionService) (rnd : nat -> Z)
  (candidate_id num_candidates : Z) : outcome wire_vector :=
  match public_key self with
  | None => Raise (ValueError "Public key not loaded")
  | Some pk =>
      let vote_vector := repeat 0 (Z.to_nat num_candidates) in
      bind (list_assign vote_vector (candidate_id - 1) 1) (fun vote_vector =>
      bind (encrypt_from pk rnd 0 vote_vector) (fun encrypted_vector =>
      Return (_serialize_encrypted_vector rnd encrypted_vector)))
  end.

(** [[aggregated_tally[i] + encrypted_vote[i] for i in range(len(aggregated_tally))]] *)
Fixpoint add_vectors (i : nat) (acc : list Paillier.EncryptedNumber)
  (vote : list Paillier.EncryptedNumber) : outcome (list Paillier.EncryptedNumber) :=
  match acc with
  | [] => Return []
  | a :: rest =>
      bind (list_item vote i) (fun b =>
      bind (Paillier.add_encrypted a b) (fun c =>
      bind (add_vectors (S i) rest vote) (fun cs => Return (c :: cs))))
  end.

Fixpoint aggregate_loop (self : HomomorphicEncryptionService)
  (aggregated_tally : list Paillier.EncryptedNumber) (votes : list wire_vector)
  : outcome (list Paillier.EncryptedNumber) :=
  match votes with
  | [] => Return aggregated_tally
  | s :: rest =>
      bind (_deserialize_encrypted_vector self s) (fun encrypted_vote =>
      bind (add_vectors 0 aggregated_tally encrypted_vote) (fun t =>
      aggregate_loop self t rest))
  end.

Definition aggregate_votes (self : HomomorphicEncryptionService) (rnd : nat -> Z)
  (encrypted_votes : list wire_vector) : outcome wire_vector :=
  match encrypted_votes with
  | [] => Raise (ValueError "No votes to aggregate")
  | first :: rest =>
      bind (_deserialize_encrypted_vector self first) (fun aggregated_tally =>
      bind (aggregate_loop self aggregated_tally rest) (fun aggregated_tally =>
      Return (_serialize_encrypted_vector rnd aggregated_tally)))
  end.

Definition decrypt_tally (self : HomomorphicEncryptionService) (aggregated_tally_str : wire_vector)
  : outcome (list Z) :=
  match private_key self with
  | None => Raise (ValueError "Private key not loaded")
  | Some sk =>
      bind (_deserialize_encrypted_vector self aggregated_tally_str) (fun encrypted_tally =>
      mapM (Paillier.decrypt sk) encrypted_tally)
  end.

Definition partial_decrypt (self : HomomorphicEncryptionService) (rnd : nat -> Z)
  (aggregated_tally_str : wire_vector) (share_index : Z) : outcome wire_partial :=
  match private_key self with
  | None => Raise (ValueError "Private key not loaded")
  | Some _ =>
      bind (_deserialize_encrypted_vector self aggregated_tally_str) (fun encrypted_tally =>
      Return (mk_wire_partial share_index
                (map ciphertext (_serialize_encrypted_vector rnd encrypted_tally))))
  end.

Definition combine_partial_decryptions (self : HomomorphicEncryptionService)
  (aggregated_tally_str : wire_vector) (partial_decryptions : list wire_partial)
  (threshold : Z) : outcome (list Z) :=
  if Z.of_nat (List.length partial_decryptions) <? threshold
  then Raise (ValueError ("Insufficient partial decryptions: " +++
                          str (Z.of_nat (List.length partial_decryptions)) +++ " < " +++
                          str threshold))
  else decrypt_tally self aggregated_tally_str.

End Encryption.

(* ===================================================================== *)
(** * [services/threshold_crypto.py] *)
(* ===================================================================== *)

Module ThresholdCrypto.
Import Py.

(** The decoded [share_data] payload. *)
Record share_data : Type := mk_share_data {
  sd_share_id : Z;
  x : Z;
  y : Z;
  sd_threshold : Z;
  sd_total_trustees : Z }.

(** One entry of the list returned by [split_secret]. *)
Record share : Type := mk_share {
  share_id : Z;
  share_payload : share_data;
  trustee_index : Z }.

Record ThresholdCryptoService : Type := mk_service {
  threshold : Z;
  total_trustees : Z;
  prime : Z }.

Definition _generate_large_prime : Z := 2 ^ 256 - 2 ^ 224 + 2 ^ 192 + 2 ^ 96 - 1.

(** [ThresholdCryptoService(threshold, total_trustees)] *)
Definition init (threshold total_trustees : Z) : outcome ThresholdCryptoService :=
  if total_trustees <? threshold then Raise (ValueError "Threshold cannot exceed total trustees")
  else if threshold <? 1 then Raise (ValueError "Threshold must be at least 1")
  else Return (mk_service threshold total_trustees _generate_large_prime).

(** The module-level instance: 3-of-5. *)
Definition threshold_crypto_service : ThresholdCryptoService :=
  mk_service 3 5 _generate_large_prime.

(** [for i, coef in enumerate(coefficients): result += coef * pow(x, i, prime); result %= prime] *)
Fixpoint eval_from (i : Z) (coefficients : list Z) (x prime result : Z) : Z :=
  match coefficients with
  | [] => result
  | coef :: rest =>
      eval_from (i + 1) rest x prime ((result + coef * Py.powmod x i prime) mod prime)
  end.

Definition _evaluate_polynomial (coefficients : list Z) (x prime : Z) : Z :=
  eval_from 0 coefficients x prime 0.

(** The inner loop of [_lagrange_interpolation]: numerator and denominator of
    the i-th basis polynomial. *)
Fixpoint basis_from (j : nat) (i : nat) (xi : Z) (points : list (Z * Z)) (x prime : Z)
  (numerator denominator : Z) : Z * Z :=
  match points with
  | [] => (numerator, denominator)
  | (xj, _) :: rest =>
      if Nat.eqb i j
      then basis_from (S j) i xi rest x prime numerator denominator
      else basis_from (S j) i xi rest x prime
             ((numerator * (x - xj)) mod prime)
             ((denominator * (xi - xj)) mod prime)
  end.

Fixpoint lagrange_from (i : nat) (todo : list (Z * Z)) (points : list (Z * Z))
  (x prime result : Z) : Z :=
  match todo with
  | [] => result
  | (xi, yi) :: rest =>
      let '(numerator, denominator) := basis_from 0 i xi points x prime 1 1 in
      let denominator_inv := Py.powmod denominator (prime - 2) prime in
      let lagrange_basis := (numerator * denominator_inv) mod prime in
      lagrange_from (S i) rest points x prime ((result + yi * lagrange_basis) mod prime)
  end.

Definition _lagrange_interpolation (points : list (Z * Z)) (x prime : Z) : Z :=
  lagrange_from 0 points points x prime 0.

(** [range(1, n + 1)] *)
Definition range1 (n : Z) : list Z :=
  map (fun k => Z.of_nat k) (seq 1 (Z.to_nat n)).

(** [split_secret]; [randbelow i] is the i-th value drawn from
    [secrets.randbelow(self.prime)]. *)
Definition split_secret (self : ThresholdCryptoService) (randbelow : nat -> Z)
  (secret : string) : list share :=
  let secret_bytes := encode secret in
  let secret_int := int_from_bytes (sha256_digest secret_bytes) in
  let coefficients :=
    secret_int :: map randbelow (seq 0 (Z.to_nat (threshold self - 1))) in
  map (fun i =>
         let y := _evaluate_polynomial coefficients i (prime self) in
         mk_share i (mk_share_data i i y (threshold self) (total_trustees self)) i)
      (range1 (total_trustees self)).

(** [l[:k]] *)
Definition slice_to {A} (l : list A) (k : Z) : list A :=
  if k <? 0 then firstn (Z.to_nat (Z.of_nat (List.length l) + k)) l
  else firstn (Z.to_nat k) l.

Definition reconstruct_secret (self : ThresholdCryptoService) (shares : list share)
  : outcome string :=
  if Z.of_nat (List.length shares) <? threshold self
  then Raise (ValueError ("Insufficient shares: " +++ str (Z.of_nat (List.length shares)) +++
                          " < " +++ str (threshold self)))
  else
    let points :=
      map (fun s => (x (share_payload s), y (share_payload s)))
          (slice_to shares (threshold self)) in
    let secret_int := _lagrange_interpolation points 0 (prime self) in
    bind (int_to_bytes secret_int 32) (fun secret_bytes =>
    Return (b64encode secret_bytes)).

(** [verify_share] on a payload that decodes and has all five fields. *)
Definition verify_share (self : ThresholdCryptoService) (s : share) : bool :=
  let d := share_payload s in
  if negb (sd_threshold d =? threshold self) || negb (sd_total_trustees d =? total_trustees self)
  then false
  else if negb ((1 <=? sd_share_id d) && (sd_share_id d <=? total_trustees self))
  then false
  else true.

(** What [reconstruct_secret] returns for the integer [i]. *)
Definition encode_secret_int (i : Z) : outcome string :=
  bind (int_to_bytes i 32) (fun b => Return (b64encode b)).

(** [H(secret)] as the service holds it: the SHA-256 digest read big-endian. *)
Definition secret_hash (secret : string) : Z :=
  int_from_bytes (sha256_digest (encode secret)).

End ThresholdCrypto.

(* ===================================================================== *)
(** * [models/database.py] *)
(* ===================================================================== *)

(** A table is the list of its rows.  A [Text] column that holds a
    serialized value is kept as that value's payload; [None] stands for
    [NULL] and for the empty string, which Python treats alike in the
    truth tests of the services. *)

Module Database.
Import Py.

Definition uuid := string.

(** One entry of [Election.candidates]. *)
Record Candidate : Type := mk_candidate {
  cand_id : Z;
  cand_name : string;
  cand_party : string }.

(** [Election.encryption_params]: a JSON object with optional keys. *)
Record EncryptionParams : Type := mk_params {
  ep_public_key : option Encryption.wire_public_key;
  ep_private_key : option Encryption.wire_private_key }.

Record Trustee : Type := mk_trustee {
  t_id : Z;
  t_trustee_id : uuid;
  t_name : string;
  t_email : string;
  t_public_key : option Encryption.wire_public_key;
  t_key_share_encrypted : option ThresholdCrypto.share_data;
  t_status : string }.

Record Election : Type := mk_election {
  e_election_id : uuid;
  e_title : string;
  e_status : string;
  e_total_voters : Z;
  e_candidates : list Candidate;
  e_encryption_params : option EncryptionParams }.

Record EncryptedVote : Type := mk_vote {
  v_vote_id : uuid;
  v_election_id : uuid;
  v_encrypted_vote : Encryption.wire_vector;
  v_vote_proof : option string;
  v_is_tallied : bool;
  v_nonce : string }.

(** [decryption_proof] is the SHA-256 hex digest of a JSON object; the
    fields that enter the digest are kept instead. *)
Record DecryptionProof : Type := mk_proof {
  pr_trustee_id : uuid;
  pr_timestamp : datetime;
  pr_ciphertext : Encryption.wire_vector }.

Record PartialDecryption : Type := mk_partial {
  pd_decryption_id : uuid;
  pd_election_id : uuid;
  pd_trustee_id : uuid;
  pd_partial_result : Encryption.wire_partial;
  pd_decryption_proof : DecryptionProof;
  pd_timestamp : datetime;
  pd_verified : bool }.

Record ElectionResult : Type := mk_result {
  r_result_id : uuid;
  r_election_id : uuid;
  r_final_tally : dict Z;
  r_total_votes_tallied : Z;
  r_verification_hash : string;
  r_blockchain_tx_hash : option string;
  r_published_at : option datetime;
  r_created_at : datetime;
  r_is_verified : bool }.

(** [AuditLog.details], one shape per operation. *)
Inductive AuditDetails : Type :=
| StartTallyDetails (total_votes : Z) (session_id : string)
| PartialDecryptDetails (session_id : string) (trustee_count : Z)
| FinalizeTallyDetails (final_tally : dict Z) (total_votes : Z) (verification_hash : string)
| PublishDetails (tx_hash : string) (verification_hash : string).

Record AuditLog : Type := mk_log {
  l_log_id : uuid;
  l_election_id : uuid;
  l_operation_type : string;
  l_performed_by : string;
  l_details : AuditDetails;
  l_status : string;
  l_timestamp : datetime }.

Record TallyingSession : Type := mk_session {
  s_session_id : uuid;
  s_election_id : uuid;
  s_status : string;
  s_aggregated_ciphertext : Encryption.wire_vector;
  s_required_trustees : Z;
  s_completed_trustees : Z;
  s_started_at : datetime;
  s_completed_at : option datetime;
  s_error_message : option string }.

Record DB : Type := mk_db {
  trustees : list Trustee;
  elections : list Election;
  encrypted_votes : list EncryptedVote;
  partial_decryptions : list PartialDecryption;
  election_results : list ElectionResult;
  audit_logs : list AuditLog;
  tallying_sessions : list TallyingSession }.

(** [db.query(T).filter(...).first()] *)
Definition first {A} (f : A -> bool) (rows : list A) : option A := find f rows.

(** An attribute change on the object returned by [first], written back on
    commit: the first row that satisfies [f] is replaced. *)
Fixpoint update_first {A} (f : A -> bool) (g : A -> A) (rows : list A) : list A :=
  match rows with
  | [] => []
  | r :: rest => if f r then g r :: rest else r :: update_first f g rest
  end.

Fixpoint nodupb (l : list string) : bool :=
  match l with
  | [] => true
  | a :: rest => negb (existsb (String.eqb a) rest) && nodupb rest
  end.

Definition memb (a : string) (l : list string) : bool := existsb (String.eqb a) l.

(** The [unique=True] columns and the foreign keys of the schema. *)
Definition constraints_ok (db : DB) : bool :=
  nodupb (map t_trustee_id (trustees db)) &&
  nodupb (map t_email (trustees db)) &&
  nodupb (map e_election_id (elections db)) &&
  nodupb (map v_vote_id (encrypted_votes db)) &&
  nodupb (map v_nonce (encrypted_votes db)) &&
  nodupb (map pd_decryption_id (partial_decryptions db)) &&
  nodupb (map r_result_id (election_results db)) &&
  nodupb (map r_election_id (election_results db)) &&
  nodupb (map l_log_id (audit_logs db)) &&
  nodupb (map s_session_id (tallying_sessions db)) &&
  nodupb (map s_election_id (tallying_sessions db)) &&
  forallb (fun v => memb (v_election_id v) (map e_election_id (elections db)))
          (encrypted_votes db) &&
  forallb (fun d => memb (pd_election_id d) (map e_election_id (elections db)) &&
                    memb (pd_trustee_id d) (map t_trustee_id (trustees db)))
          (partial_decryptions db) &&
  forallb (fun r => memb (r_election_id r) (map e_election_id (elections db)))
          (election_results db) &&
  forallb (fun l => memb (l_election_id l) (map e_election_id (elections db)))
          (audit_logs db) &&
  forallb (fun s => memb (s_election_id s) (map e_election_id (elections db)))
          (tallying_sessions db).

(** [db.commit()]: the pending state [db'] is written unless a unique or
    foreign-key constraint rejects it.  The [Integer] columns are kept as
    [Z]: that a value fits the column is not tested here, and a statement
    about a computed integer that is stored assumes it as a hypothesis. *)
Definition commit (db' : DB) : outcome DB :=
  if constraints_ok db' then Return db'
  else Raise (IntegrityError "constraint violation").

Definition set_trustees (db : DB) (x : list Trustee) : DB :=
  mk_db x (elections db) (encrypted_votes db) (partial_decryptions db)
        (election_results db) (audit_logs db) (tallying_sessions db).
Definition set_elections (db : DB) (x : list Election) : DB :=
  mk_db (trustees db) x (encrypted_votes db) (partial_decryptions db)
        (election_results db) (audit_logs db) (tallying_sessions db).
Definition set_encrypted_votes (db : DB) (x : list EncryptedVote) : DB :=
  mk_db (trustees db) (elections db) x (partial_decryptions db)
        (election_results db) (audit_logs db) (tallying_sessions db).
Definition set_partial_decryptions (db : DB) (x : list PartialDecryption) : DB :=
  mk_db (trustees db) (elections db) (encrypted_votes db) x
        (election_results db) (audit_logs db) (tallying_sessions db).
Definition set_election_results (db : DB) (x : list ElectionResult) : DB :=
  mk_db (trustees db) (elections db) (encrypted_votes db) (partial_decryptions db)
        x (audit_logs db) (tallying_sessions db).
Definition set_audit_logs (db : DB) (x : list AuditLog) : DB :=
  mk_db (trustees db) (elections db) (encrypted_votes db) (partial_decryptions db)
        (election_results db) x (tallying_sessions db).
Definition set_tallying_sessions (db : DB) (x : list TallyingSession) : DB :=
  mk_db (trustees db) (elections db) (encrypted_votes db) (partial_decryptions db)
        (election_results db) (audit_logs db) x.

Definition set_e_status (s : string) (e : Election) : Election :=
  mk_election (e_election_id e) (e_title e) s (e_total_voters e) (e_candidates e)
              (e_encryption_params e).

Definition set_t_status (s : string) (t : Trustee) : Trustee :=
  mk_trustee (t_id t) (t_trustee_id t) (t_name t) (t_email t) (t_public_key t)
             (t_key_share_encrypted t) s.

Definition set_v_is_tallied (b : bool) (v : EncryptedVote) : EncryptedVote :=
  mk_vote (v_vote_id v) (v_election_id v) (v_encrypted_vote v) (v_vote_proof v) b (v_nonce v).

End Database.

(* ===================================================================== *)
(** * [services/tallying.py] *)
(* ===================================================================== *)

Module Tallying.
Import Py Database.

(** The state an operation runs in: the tables and the module-level
    [encryption_service], whose loaded keys persist between requests. *)
Record World : Type := mk_world {
  db : DB;
  encryption : Encryption.HomomorphicEncryptionService }.

(** What an operation takes from its environment, call by call: [rnd i] is
    the i-th random draw of [phe], [uuid4 i] the i-th identifier and
    [utcnow i] the i-th clock reading.  Column defaults ([uuid.uuid4],
    [datetime.utcnow]) are evaluated when the row is flushed by [commit]. *)
Record Env : Type := mk_env {
  rnd : nat -> Z;
  uuid4 : nat -> uuid;
  utcnow : nat -> datetime }.

Record StartResponse : Type := mk_start_response {
  sr_session_id : uuid;
  sr_status : string;
  sr_total_votes : Z;
  sr_required_trustees : Z }.

Record PartialDecryptResponse : Type := mk_partial_response {
  pr_decryption_id : uuid;
  pr_completed_trustees : Z;
  pr_required_trustees : Z;
  pr_can_finalize : bool }.

Record FinalizeResponse : Type := mk_finalize_response {
  fr_result_id : uuid;
  fr_final_tally : dict Z;
  fr_total_votes_tallied : Z;
  fr_verification_hash : string }.

Definition by_election (election_id : uuid) (e : Election) : bool :=
  String.eqb (e_election_id e) election_id.
Definition session_of (election_id : uuid) (s : TallyingSession) : bool :=
  String.eqb (s_election_id s) election_id.
Definition partial_of (election_id trustee_id : uuid) (d : PartialDecryption) : bool :=
  String.eqb (pd_election_id d) election_id && String.eqb (pd_trustee_id d) trustee_id.
Definition trustee_of (trustee_id : uuid) (t : Trustee) : bool :=
  String.eqb (t_trustee_id t) trustee_id.

Definition new_session (tc : ThresholdCrypto.ThresholdCryptoService) (env : Env)
  (election_id : uuid) (aggregated_ciphertext : Encryption.wire_vector) : TallyingSession :=
  mk_session (uuid4 env 0) election_id "aggregating" aggregated_ciphertext
             (ThresholdCrypto.threshold tc) 0 (utcnow env 0) None None.

(** The writes that [start_tallying] hands to [commit]: the new session,
    the election status and the audit entry ([session.session_id] is still
    [None] when the entry is built). *)
Definition start_tallying_writes (tc : ThresholdCrypto.ThresholdCryptoService) (env : Env)
  (d : DB) (election_id : uuid) (aggregated_ciphertext : Encryption.wire_vector)
  (total_votes : Z) : DB :=
  let session := new_session tc env election_id aggregated_ciphertext in
  let log :=
    mk_log (uuid4 env 1) election_id "start_tally" "system"
           (StartTallyDetails total_votes "None")
           "success" (utcnow env 1) in
  let db1 := set_tallying_sessions d (tallying_sessions d ++ [session]) in
  let db2 := set_elections db1
               (update_first (by_election election_id) (set_e_status "tallying") (elections db1)) in
  set_audit_logs db2 (audit_logs db2 ++ [log]).

Definition start_tallying (tc : ThresholdCrypto.ThresholdCryptoService) (env : Env)
  (w : World) (election_id : uuid) : World * outcome StartResponse :=
  match first (by_election election_id) (elections (db w)) with
  | None => (w, Raise (ValueError "Election not found"))
  | Some election =>
  if negb (String.eqb (e_status election) "active" || String.eqb (e_status election) "ended")
  then (w, Raise (ValueError ("Cannot tally election with status: " +++ e_status election)))
  else
  match first (session_of election_id) (tallying_sessions (db w)) with
  | Some _ => (w, Raise (ValueError "Tallying session already exists"))
  | None =>
  let votes :=
    filter (fun v => String.eqb (v_election_id v) election_id && negb (v_is_tallied v))
           (encrypted_votes (db w)) in
  match votes with
  | [] => (w, Raise (ValueError "No votes to tally"))
  | _ =>
  let encrypted_vote_strings := map v_encrypted_vote votes in
  match reraise (Encryption.aggregate_votes (encryption w) (rnd env) encrypted_vote_strings)
                (fun e => ValueError ("Aggregation failed: " +++ str_of_exc e)) with
  | Raise e => (w, Raise e)
  | Beyond why => (w, Beyond why)
  | Return aggregated_ciphertext =>
  let session := new_session tc env election_id aggregated_ciphertext in
  let db3 := start_tallying_writes tc env (db w) election_id aggregated_ciphertext
                                   (Z.of_nat (List.length votes)) in
  match commit db3 with
  | Raise e => (w, Raise e)
  | Beyond why => (w, Beyond why)
  | Return db' =>
      (mk_world db' (encryption w),
       Return (mk_start_response (s_session_id session) (s_status session)
                 (Z.of_nat (List.length votes)) (s_required_trustees session)))
  end end end end end.

(** The key that [partial_decrypt] loads before decrypting: the election's
    [private_key] parameter, when there is one. *)
Definition load_election_key (w : World) (election_id : uuid)
  : outcome Encryption.HomomorphicEncryptionService :=
  match first (by_election election_id) (elections (db w)) with
  | Some election =>
      match e_encryption_params election with
      | Some params =>
          match ep_private_key params with
          | Some private_key => Encryption.load_private_key (encryption w) private_key
          | None => Return (encryption w)
          end
      | None => Return (encryption w)
      end
  | None => Return (encryption w)
  end.

Definition _generate_decryption_proof (now : datetime)
  (aggregated_ciphertext : Encryption.wire_vector) (partial_result : Encryption.wire_partial)
  (trustee_id : uuid) : DecryptionProof :=
  mk_proof trustee_id now aggregated_ciphertext.

Definition bump_session (s : TallyingSession) : TallyingSession :=
  mk_session (s_session_id s) (s_election_id s)
             (if String.eqb (s_status s) "aggregating" then "decrypting" else s_status s)
             (s_aggregated_ciphertext s) (s_required_trustees s)
             (s_completed_trustees s + 1) (s_started_at s) (s_completed_at s)
             (s_error_message s).

(** [session.status in ["aggregating", "decrypting"]] *)
Definition open_for_decryption (session : TallyingSession) : bool :=
  String.eqb (s_status session) "aggregating" || String.eqb (s_status session) "decrypting".

(** The writes that [partial_decrypt] hands to [commit]: the new partial
    decryption, the session counter and status, and the audit entry. *)
Definition partial_decrypt_writes (env : Env) (d : DB) (session : TallyingSession)
  (election_id trustee_id : uuid) (partial_result : Encryption.wire_partial) : DB :=
  let proof :=
    _generate_decryption_proof (utcnow env 0) (s_aggregated_ciphertext session)
                               partial_result trustee_id in
  let partial_dec :=
    mk_partial (uuid4 env 0) election_id trustee_id partial_result proof (utcnow env 1) true in
  let session' := bump_session session in
  let log :=
    mk_log (uuid4 env 1) election_id "partial_decrypt" trustee_id
           (PartialDecryptDetails (s_session_id session') (s_completed_trustees session'))
           "success" (utcnow env 2) in
  let db1 := set_partial_decryptions d (partial_decryptions d ++ [partial_dec]) in
  let db2 := set_tallying_sessions db1
               (update_first (session_of election_id) bump_session (tallying_sessions db1)) in
  set_audit_logs db2 (audit_logs db2 ++ [log]).

Definition partial_decrypt (env : Env) (w : World) (election_id trustee_id : uuid)
  : World * outcome PartialDecryptResponse :=
  match first (session_of election_id) (tallying_sessions (db w)) with
  | None => (w, Raise (ValueError "Tallying session not found"))
  | Some session =>
  if negb (open_for_decryption session)
  then (w, Raise (ValueError ("Cannot decrypt in status: " +++ s_status session)))
  else
  match first (partial_of election_id trustee_id) (partial_decryptions (db w)) with
  | Some _ => (w, Raise (ValueError "Trustee already performed partial decryption"))
  | None =>
  match first (trustee_of trustee_id) (trustees (db w)) with
  | None => (w, Raise (ValueError "Trustee not found or missing key share"))
  | Some trustee =>
  match t_key_share_encrypted trustee with
  | None => (w, Raise (ValueError "Trustee not found or missing key share"))
  | Some _ =>
  match load_election_key w election_id with
  | Raise e => (w, Raise e)
  | Beyond why => (w, Beyond why)
  | Return enc1 =>
  let w1 := mk_world (db w) enc1 in
  match Encryption.partial_decrypt enc1 (rnd env) (s_aggregated_ciphertext session)
                                   (s_completed_trustees session + 1) with
  | Raise e => (w1, Raise e)
  | Beyond why => (w1, Beyond why)
  | Return partial_result =>
  let session' := bump_session session in
  let db3 := partial_decrypt_writes env (db w) session election_id trustee_id partial_result in
  match commit db3 with
  | Raise e => (w1, Raise e)
  | Beyond why => (w1, Beyond why)
  | Return db' =>
      (mk_world db' enc1,
       Return (mk_partial_response (uuid4 env 0)
                 (s_completed_trustees session') (s_required_trustees session')
                 (s_required_trustees session' <=? s_completed_trustees session')))
  end end end end end end end.

(** The loop of [finalize_tally] over [enumerate(candidates)]. *)
Fixpoint tally_from (i : nat) (candidates : list Candidate) (final_tally_array : list Z)
  (final_tally : dict Z) (total_votes : Z) : dict Z * Z :=
  match candidates with
  | [] => (final_tally, total_votes)
  | candidate :: rest =>
      let candidate_name := cand_name candidate in
      let vote_count := nth i final_tally_array 0 in
      tally_from (S i) rest final_tally_array
                 (dict_set final_tally candidate_name vote_count)
                 (total_votes + vote_count)
  end.

(** The JSON text that both the service and the verification endpoint hash. *)
Definition hash_str (election_id : string) (final_tally : dict Z) (total_votes : Z)
  (timestamp : string) : string :=
  json_obj [ ("election_id", json_str election_id);
             ("final_tally", json_obj (map (fun kv => (fst kv, json_int (snd kv))) final_tally));
             ("total_votes", json_int total_votes);
             ("timestamp", json_str timestamp) ].

Definition _generate_verification_hash (now : datetime) (election_id : uuid)
  (final_tally : dict Z) (total_votes : Z) : string :=
  sha256_hexdigest (encode (hash_str election_id final_tally total_votes (isoformat now))).

Definition complete_session (now : datetime) (s : TallyingSession) : TallyingSession :=
  mk_session (s_session_id s) (s_election_id s) "completed"
             (s_aggregated_ciphertext s) (s_required_trustees s)
             (s_completed_trustees s) (s_started_at s) (Some now) (s_error_message s).

Definition new_result (env : Env) (election_id : uuid) (final_tally : dict Z)
  (total_votes : Z) (verification_hash : string) : ElectionResult :=
  mk_result (uuid4 env 0) election_id final_tally total_votes verification_hash
            None None (utcnow env 2) true.

(** The writes that [finalize_tally] hands to [commit]: the result row, the
    session and election status, the [is_tallied] flags and the audit entry. *)
Definition finalize_tally_writes (env : Env) (d : DB) (election_id : uuid)
  (final_tally : dict Z) (total_votes : Z) (verification_hash : string) : DB :=
  let result := new_result env election_id final_tally total_votes verification_hash in
  let log :=
    mk_log (uuid4 env 1) election_id "finalize_tally" "system"
           (FinalizeTallyDetails final_tally total_votes verification_hash)
           "success" (utcnow env 3) in
  let db1 := set_election_results d (election_results d ++ [result]) in
  let db2 := set_tallying_sessions db1
               (update_first (session_of election_id) (complete_session (utcnow env 1))
                             (tallying_sessions db1)) in
  let db3 := set_elections db2
               (update_first (by_election election_id) (set_e_status "completed")
                             (elections db2)) in
  let db4 := set_encrypted_votes db3
               (map (fun v => if String.eqb (v_election_id v) election_id
                              then set_v_is_tallied true v else v)
                    (encrypted_votes db3)) in
  set_audit_logs db4 (audit_logs db4 ++ [log]).

Definition finalize_tally (env : Env) (w : World) (election_id : uuid)
  : World * outcome FinalizeResponse :=
  match first (session_of election_id) (tallying_sessions (db w)) with
  | None => (w, Raise (ValueError "Tallying session not found"))
  | Some session =>
  if s_completed_trustees session <? s_required_trustees session
  then (w, Raise (ValueError ("Insufficient trustees: " +++ str (s_completed_trustees session)
                              +++ " < " +++ str (s_required_trustees session))))
  else
  let partial_decs :=
    filter (fun d => String.eqb (pd_election_id d) election_id && pd_verified d)
           (partial_decryptions (db w)) in
  if Z.of_nat (List.length partial_decs) <? s_required_trustees session
  then (w, Raise (ValueError "Insufficient verified partial decryptions"))
  else
  let partial_results := map pd_partial_result partial_decs in
  match reraise (Encryption.combine_partial_decryptions (encryption w)
                   (s_aggregated_ciphertext session) partial_results
                   (s_required_trustees session))
                (fun e => ValueError ("Finalization failed: " +++ str_of_exc e)) with
  | Raise e => (w, Raise e)
  | Beyond why => (w, Beyond why)
  | Return final_tally_array =>
  match first (by_election election_id) (elections (db w)) with
  | None => (w, Raise (AttributeError "'NoneType' object has no attribute 'candidates'"))
  | Some election =>
  let '(final_tally, total_votes) :=
    tally_from 0 (e_candidates election) final_tally_array [] 0 in
  let verification_hash :=
    _generate_verification_hash (utcnow env 0) election_id final_tally total_votes in
  let db5 := finalize_tally_writes env (db w) election_id final_tally total_votes
                                   verification_hash in
  match commit db5 with
  | Raise e => (w, Raise e)
  | Beyond why => (w, Beyond why)
  | Return db' =>
      (mk_world db' (encryption w),
       Return (mk_finalize_response (uuid4 env 0) final_tally total_votes
                 verification_hash))
  end end end end.

End Tallying.

(* ===================================================================== *)
(** * [routers/results.py], [routers/trustees.py], [routers/mock_data.py] *)
(* ===================================================================== *)

Module Routers.
Import Py Database.

Record VerificationResponse : Type := mk_verification {
  is_valid : bool;
  stored_hash : string;
  computed_hash : string }.

(** [POST /api/results/verify]; [None] is the 404 answer. *)
Definition verify_results (db : DB) (election_id : uuid) : option VerificationResponse :=
  match first (fun r => String.eqb (r_election_id r) election_id) (election_results db) with
  | None => None
  | Some result =>
      let hash_str :=
        Tallying.hash_str (r_election_id result) (r_final_tally result)
                          (r_total_votes_tallied result) (isoformat (r_created_at result)) in
      let computed_hash := sha256_hexdigest (encode hash_str) in
      Some (mk_verification (String.eqb computed_hash (r_verification_hash result))
                            (r_verification_hash result) computed_hash)
  end.

(** [DELETE /api/trustees/{trustee_id}]; [None] is the 404 answer. *)
Definition delete_trustee (db : DB) (trustee_id : uuid) : option DB :=
  match first (Tallying.trustee_of trustee_id) (trustees db) with
  | None => None
  | Some _ =>
      Some (set_trustees db
              (update_first (Tallying.trustee_of trustee_id) (set_t_status "inactive")
                            (trustees db)))
  end.

(** The tables after trustee statuses have been rewritten row by row. *)
Definition with_trustee_status (restatus : Trustee -> string) (db : DB) : DB :=
  set_trustees db (map (fun t => set_t_status (restatus t) t) (trustees db)).

(** [POST /api/mock/reset-database?confirm=true] *)
Definition reset_database (db : DB) : DB :=
  mk_db (trustees db)
        (map (fun e => mk_election (e_election_id e) (e_title e) "active" 0
                                   (e_candidates e) (e_encryption_params e))
             (elections db))
        [] [] [] [] [].

End Routers.

(* ===================================================================== *)
(** * The service as a transition system *)
(* ===================================================================== *)

Module Machine.
Import Py Database Tallying.

(** One request.  The three tallying operations and the two endpoints that
    matter to sessions and trustees are the functions above.  Every other
    endpoint ([register_trustee], [generate_key_share],
    [generate_mock_votes], [setup_test_trustees], [publish_to_blockchain]
    and the read-only ones) writes neither [tallying_sessions] nor
    [partial_decryptions]: [step_other] covers them all. *)
Inductive step (tc : ThresholdCrypto.ThresholdCryptoService) : World -> World -> Prop :=
| step_start_tallying env w election_id :
    step tc w (fst (start_tallying tc env w election_id))
| step_partial_decrypt env w election_id trustee_id :
    step tc w (fst (partial_decrypt env w election_id trustee_id))
| step_finalize_tally env w election_id :
    step tc w (fst (finalize_tally env w election_id))
| step_delete_trustee w trustee_id db' :
    Routers.delete_trustee (db w) trustee_id = Some db' ->
    step tc w (mk_world db' (encryption w))
| step_reset_database w :
    step tc w (mk_world (Routers.reset_database (db w)) (encryption w))
| step_other w w' :
    tallying_sessions (db w') = tallying_sessions (db w) ->
    partial_decryptions (db w') = partial_decryptions (db w) ->
    step tc w w'.

(** The states that the service can be in, starting from tables in which no
    tallying has taken place. *)
Inductive reachable (tc : ThresholdCrypto.ThresholdCryptoService) : World -> Prop :=
| reachable_init w :
    tallying_sessions (db w) = [] ->
    partial_decryptions (db w) = [] ->
    reachable tc w
| reachable_step w w' :
    reachable tc w -> step tc w w' -> reachable tc w'.

(** [db.query(PartialDecryption).filter(election_id == e).count()] *)
Definition count_partials (d : DB) (election_id : uuid) : Z :=
  Z.of_nat (List.length (filter (fun p => String.eqb (pd_election_id p) election_id)
                                (partial_decryptions d))).

(** The counter of every session agrees with the stored partial
    decryptions, an election has at most one session, and partial
    decryptions exist only for elections that have one. *)
Definition consistent (d : DB) : Prop :=
  (forall s, In s (tallying_sessions d) ->
             s_completed_trustees s = count_partials d (s_election_id s)) /\
  NoDup (map s_election_id (tallying_sessions d)) /\
  (forall p, In p (partial_decryptions d) ->
             In (pd_election_id p) (map s_election_id (tallying_sessions d))).

(** Stored ballots of an election. *)
Definition count_ballots (d : DB) (election_id : uuid) : Z :=
  Z.of_nat (List.length (filter (fun v => String.eqb (v_election_id v) election_id)
                                (encrypted_votes d))).

(** The sum of the first [k] entries of a decrypted vector, missing entries
    counting for 0. *)
Definition sum_counts (k : nat) (v : list Z) : Z :=
  fold_right Z.add 0 (map (fun i => nth i v 0) (seq 0 k)).

(** Audit entries of one kind written for one actor in one election. *)
Definition count_audit (d : DB) (election_id : uuid) (kind actor : string) : Z :=
  Z.of_nat (List.length (filter (fun l => String.eqb (l_election_id l) election_id &&
                                          String.eqb (l_operation_type l) kind &&
                                          String.eqb (l_performed_by l) actor)
                                (audit_logs d))).

End Machine.

(* ===================================================================== *)
(** * A small election, run through the model *)
(* ===================================================================== *)

(** Three candidates, three trustees (the second one marked inactive), the
    3-of-5 threshold instance and the Paillier key p = 5, q = 7. *)

Module Scenario.
Import Py Database Tallying.

Definition election_id : uuid := "7b0c7a34-2f5e-4c58-9a51-0d2f6c1e8a01".
Definition trustee_1 : uuid := "a1d3c2f0-0001-4a7b-8c11-5e0f9b7d1001".
Definition trustee_2 : uuid := "a1d3c2f0-0002-4a7b-8c11-5e0f9b7d1002".
Definition trustee_3 : uuid := "a1d3c2f0-0003-4a7b-8c11-5e0f9b7d1003".

Definition public_key : Encryption.wire_public_key := Encryption.mk_wire_pk 35.
Definition private_key : Encryption.wire_private_key := Encryption.mk_wire_sk 5 7.

Definition tc : ThresholdCrypto.ThresholdCryptoService :=
  ThresholdCrypto.threshold_crypto_service.

(** The encryption service once [generate_mock_votes] has loaded the
    election's public key. *)
Definition service : Encryption.HomomorphicEncryptionService :=
  Encryption.mk_service 2048 (Some (Paillier.mk_public_key 35)) None.

(** [encrypt_vote(candidate_id, 3)] with every draw equal to [r]. *)
Definition ballot (candidate_id r : Z) : Encryption.wire_vector :=
  match Encryption.encrypt_vote service (fun _ => r) candidate_id 3 with
  | Return v => v
  | _ => []
  end.

Definition key_share (i : Z) : ThresholdCrypto.share_data :=
  ThresholdCrypto.mk_share_data i i (i * 1000 + 7) 3 5.

Definition the_trustees : list Trustee :=
  [ mk_trustee 1 trustee_1 "Trustee One" "one@example.org" None (Some (key_share 1)) "active";
    mk_trustee 2 trustee_2 "Trustee Two" "two@example.org" None (Some (key_share 2)) "inactive";
    mk_trustee 3 trustee_3 "Trustee Three" "three@example.org" None (Some (key_share 3)) "active" ].

Definition the_election : Election :=
  mk_election election_id "Board election" "active" 0
    [ mk_candidate 1 "A" "Red"; mk_candidate 2 "B" "Green"; mk_candidate 3 "C" "Blue" ]
    (Some (mk_params (Some public_key) (Some private_key))).

Definition vote_row (i : Z) (v : Encryption.wire_vector) : EncryptedVote :=
  mk_vote ("5c3e0000-0000-4000-8000-00000000000" +++ str i) election_id v None false
          ("mock-" +++ str i).

(** Ballots A, A, B, A, C. *)
Definition db0 : DB :=
  mk_db the_trustees [the_election]
        [ vote_row 1 (ballot 1 2); vote_row 2 (ballot 1 3); vote_row 3 (ballot 2 4);
          vote_row 4 (ballot 1 6); vote_row 5 (ballot 3 8) ]
        [] [] [] [].

Definition w0 : World := mk_world db0 service.

(** The environment of one request: identifiers tagged by the request,
    clock readings one microsecond apart from [us] on. *)
Definition env (tag : string) (us : Z) : Env :=
  mk_env (fun _ => 2)
         (fun i => tag +++ "-0000-4000-8000-00000000000" +++ str (Z.of_nat i))
         (fun i => mk_datetime 2024 5 17 9 30 0 (us + Z.of_nat i)).

Definition w1 : World := fst (start_tallying tc (env "00000001" 100) w0 election_id).
Definition w2 : World := fst (partial_decrypt (env "00000002" 200) w1 election_id trustee_1).
Definition w3 : World := fst (partial_decrypt (env "00000003" 300) w2 election_id trustee_2).
Definition w4 : World := fst (partial_decrypt (env "00000004" 400) w3 election_id trustee_3).
Definition w5 : World := fst (finalize_tally (env "00000005" 500) w4 election_id).

(** A single stored ballot whose vector encrypts [1, 1, 0]: two marks. *)
Definition double_ballot : Encryption.wire_vector :=
  [ hd (Encryption.mk_wire 0 0) (ballot 1 2);
    hd (Encryption.mk_wire 0 0) (tl (ballot 2 3));
    hd (Encryption.mk_wire 0 0) (tl (tl (ballot 1 4))) ].

Definition db0' : DB :=
  mk_db the_trustees [the_election] [ vote_row 1 double_ballot ] [] [] [] [].

Definition u0 : World := mk_world db0' service.
Definition u1 : World := fst (start_tallying tc (env "00000001" 100) u0 election_id).
Definition u2 : World := fst (partial_decrypt (env "00000002" 200) u1 election_id trustee_1).
Definition u3 : World := fst (partial_decrypt (env "00000003" 300) u2 election_id trustee_2).
Definition u4 : World := fst (partial_decrypt (env "00000004" 400) u3 election_id trustee_3).

(** The five shares of the secret "abc" under the 3-of-5 instance, with
    12345 and 12346 drawn as coefficients. *)
Definition shares_of_abc : list ThresholdCrypto.share :=
  ThresholdCrypto.split_secret tc (fun i => 12345 + Z.of_nat i) "abc".

End Scenario.

(* ===================================================================== *)
(** * Ballots, tallies and what a ciphertext holds *)
(* ===================================================================== *)

(** Product of a list, and the non-zero residues modulo [p]. *)
Definition Zprod (l : list Z) : Z := fold_right Z.mul 1 l.
Definition residues (p : Z) : list Z := map Z.of_nat (seq 1 (Z.to_nat (p - 1))).

(** [c] is a Paillier ciphertext of [M] under the modulus [n]. *)
Definition encodes (n c M : Z) : Prop :=
  exists R, Z.coprime R n /\ c mod (n * n) = ((1 + n * M) * R ^ n) mod (n * n).

(** A private key as [PaillierPrivateKey.__init__] leaves it for two
    distinct primes. *)
Definition key_ok (sk : Paillier.PaillierPrivateKey) : Prop :=
  Z.prime (Paillier.p sk) /\ Z.prime (Paillier.q sk) /\ Paillier.p sk <> Paillier.q sk /\
  Paillier.n (Paillier.sk_public_key sk) = Paillier.p sk * Paillier.q sk /\
  Paillier.psquare sk = Paillier.p sk * Paillier.p sk /\
  Paillier.qsquare sk = Paillier.q sk * Paillier.q sk /\
  (Paillier.p sk * Paillier.p_inverse sk) mod Paillier.q sk = 1 /\
  ((((Paillier.p sk - 1) * Paillier.q sk) mod Paillier.p sk) * Paillier.hp sk)
    mod Paillier.p sk = 1 /\
  ((((Paillier.q sk - 1) * Paillier.p sk) mod Paillier.q sk) * Paillier.hq sk)
    mod Paillier.q sk = 1.

(** Candidate identifiers [1..k], as [encrypt_vote] numbers them. *)
Definition candidate_ids (k : Z) : list Z := map Z.of_nat (seq 1 (Z.to_nat k)).

(** The one-hot ballot for candidate [c] among [k]. *)
Definition one_hot (k c : Z) : list Z :=
  map (fun j => if j =? c then 1 else 0) (candidate_ids k).

(** Votes per candidate in a list of choices. *)
Definition tally (k : Z) (choices : list Z) : list Z :=
  map (fun j => Z.of_nat (count_occ Z.eq_dec choices j)) (candidate_ids k).

(** Elementwise sum. *)
Definition vadd (u v : list Z) : list Z :=
  map (fun ab => fst ab + snd ab) (combine u v).

(** [encrypt_vote] called once per choice, the i-th call with draws [rnds i]. *)
Fixpoint cast_ballots (self : Encryption.HomomorphicEncryptionService)
  (rnds : nat -> nat -> Z) (i : nat) (choices : list Z) (k : Z)
  : Py.outcome (list Encryption.wire_vector) :=
  match choices with
  | [] => Py.Return []
  | c :: rest =>
      Py.bind (Encryption.encrypt_vote self (rnds i) c k) (fun v =>
      Py.bind (cast_ballots self rnds (S i) rest k) (fun vs => Py.Return (v :: vs)))
  end.

Definition enc_ok (pk : Paillier.PaillierPublicKey) (e : Paillier.EncryptedNumber) (m : Z)
  : Prop :=
  Paillier.public_key e = pk /\ Paillier.exponent e = 0 /\
  encodes (Paillier.n pk) (Paillier.raw_ciphertext e) m.

Definition wire_ok (n : Z) (w : Encryption.wire_number) (m : Z) : Prop :=
  Encryption.exponent w = 0 /\ encodes n (Encryption.ciphertext w) m.

(* ===================================================================== *)
(** * Serialization helpers, queries and request sequences *)
(* ===================================================================== *)

(** The serialization helpers of [HomomorphicEncryptionService] that the
    tallying operations do not call.  As for the vectors, the base64 text
    of a key is kept as the JSON object it holds. *)
Module Keys.
Import Py.

(** [{'n': public_key.n}] *)
Definition _serialize_public_key (public_key : Paillier.PaillierPublicKey)
  : Encryption.wire_public_key :=
  Encryption.mk_wire_pk (Paillier.n public_key).

(** [{'p': private_key.p, 'q': private_key.q}] *)
Definition _serialize_private_key (private_key : Paillier.PaillierPrivateKey)
  : Encryption.wire_private_key :=
  Encryption.mk_wire_sk (Paillier.p private_key) (Paillier.q private_key).

End Keys.

(** ** Queries and table rewritings that the statements below refer to *)

(** The ballots that [start_tallying] aggregates: those of the election
    whose [is_tallied] flag is not set. *)
Definition untallied (d : Database.DB) (election_id : Database.uuid)
  : list Database.EncryptedVote :=
  filter (fun v => String.eqb (Database.v_election_id v) election_id
                   && negb (Database.v_is_tallied v))
         (Database.encrypted_votes d).

(** The tables after every stored key share has been replaced by another
    one; a trustee without a share stays without. *)
Definition set_t_key_share (s : ThresholdCrypto.share_data) (t : Database.Trustee)
  : Database.Trustee :=
  Database.mk_trustee (Database.t_id t) (Database.t_trustee_id t) (Database.t_name t)
    (Database.t_email t) (Database.t_public_key t)
    (option_map (fun _ => s) (Database.t_key_share_encrypted t)) (Database.t_status t).

Definition with_key_shares (reshare : Database.Trustee -> ThresholdCrypto.share_data)
  (d : Database.DB) : Database.DB :=
  Database.set_trustees d (map (fun t => set_t_key_share (reshare t) t) (Database.trustees d)).

(** A run of [partial_decrypt] requests for one election, each with its
    own environment and trustee, whatever each of them answers. *)
Definition partial_decrypts_by (election_id : Database.uuid)
  (steps : list (Tallying.Env * Database.uuid)) (w : Tallying.World) : Tallying.World :=
  fold_left (fun w s => fst (Tallying.partial_decrypt (fst s) w election_id (snd s))) steps w.

(** The published tally when every candidate gets the number of ballots
    cast for them: candidate number [i + 1] is the i-th of the list. *)
Definition counted (candidates : list Database.Candidate) (choices : list Z) : Py.dict Z :=
  map (fun jc => (Database.cand_name (snd jc),
                  Z.of_nat (count_occ Z.eq_dec choices (Z.of_nat (S (fst jc))))))
      (combine (seq 0 (List.length candidates)) candidates).

(** What the trustees' requests keep of a started tallying: the service
    holds the election's public key, the election row keeps its candidates
    and parameters, and the session keeps the aggregate and the requirement;
    as soon as its counter has left 0, the service holds the private key
    [sk]. *)
Definition tally_ready (election_id : Database.uuid) (pk : Paillier.PaillierPublicKey)
  (sk : Paillier.PaillierPrivateKey) (candidates : list Database.Candidate)
  (params : Database.EncryptionParams) (agg : Encryption.wire_vector) (required : Z)
  (w : Tallying.World) : Prop :=
  Encryption.public_key (Tallying.encryption w) = Some pk
  /\ (exists e,
        Database.first (Tallying.by_election election_id)
                       (Database.elections (Tallying.db w)) = Some e
        /\ Database.e_candidates e = candidates
        /\ Database.e_encryption_params e = Some params)
  /\ (exists s,
        Database.first (Tallying.session_of election_id)
                       (Database.tallying_sessions (Tallying.db w)) = Some s
        /\ Database.s_aggregated_ciphertext s = agg
        /\ Database.s_required_trustees s = required
        /\ (Database.s_completed_trustees s = 0
            \/ Encryption.private_key (Tallying.encryption w) = Some sk)).

(* ===================================================================== *)
(** * [routers/trustees.py] and [routers/results.py]: endpoints that write *)
(* ===================================================================== *)

(** Endpoints of [routers/trustees.py] and [routers/results.py] that write
    to the tables.  Request bodies have passed the pydantic schema. *)
Module Endpoints.
Import Py Database.

(** What an endpoint answers: a response body, an [HTTPException], or an
    exception that it lets through to the application's handler. *)
Inductive answer (A : Type) : Type :=
| Ok (body : A)
| HTTPException (status_code : Z) (detail : string)
| Unhandled (e : exc)
| Outside (why : string).

Arguments Ok {A} body.
Arguments HTTPException {A} status_code detail.
Arguments Unhandled {A} e.
Arguments Outside {A} why.

(** [TrusteeCreate] *)
Record TrusteeCreate : Type := mk_trustee_create {
  tc_name : string;
  tc_email : string }.

(** [TrusteeResponse] *)
Record TrusteeResponse : Type := mk_trustee_response {
  tr_id : Z;
  tr_trustee_id : uuid;
  tr_name : string;
  tr_email : string;
  tr_status : string;
  tr_created_at : datetime;
  tr_has_key_share : bool }.

(** [POST /api/trustees/register].  [id] is the primary key that the
    database assigns to the new row. *)
Definition register_trustee (env : Tallying.Env) (id : Z) (d : DB) (trustee : TrusteeCreate)
  : DB * answer TrusteeResponse :=
  match first (fun t => String.eqb (t_email t) (tc_email trustee)) (trustees d) with
  | Some _ => (d, HTTPException 400 "Email already registered")
  | None =>
      let db_trustee :=
        mk_trustee id (Tallying.uuid4 env 0) (tc_name trustee) (tc_email trustee)
                   None None "active" in
      match commit (set_trustees d (trustees d ++ [db_trustee])) with
      | Raise e => (d, Unhandled e)
      | Beyond why => (d, Outside why)
      | Return d' =>
          (d', Ok (mk_trustee_response (t_id db_trustee) (t_trustee_id db_trustee)
                     (t_name db_trustee) (t_email db_trustee) (t_status db_trustee)
                     (Tallying.utcnow env 0)
                     (match t_key_share_encrypted db_trustee with
                      | Some _ => true
                      | None => false
                      end)))
      end
  end.

Record PublishResponse : Type := mk_publish_response {
  pb_success : bool;
  pb_message : string;
  pb_tx_hash : string;
  pb_verification_hash : string;
  pb_published_at : option datetime }.

Definition set_r_published (tx_hash : string) (now : datetime) (r : ElectionResult)
  : ElectionResult :=
  mk_result (r_result_id r) (r_election_id r) (r_final_tally r) (r_total_votes_tallied r)
            (r_verification_hash r) (Some tx_hash) (Some now) (r_created_at r)
            (r_is_verified r).

(** The simulated transaction hash:
    ["0x" + sha256(f"{election_id}-{verification_hash}-{now}").hexdigest()] *)
Definition tx_hash_of (election_id : uuid) (verification_hash : string) (now : datetime)
  : string :=
  "0x" +++ sha256_hexdigest
             (encode (election_id +++ "-" +++ verification_hash +++ "-" +++ isoformat now)).

(** [POST /api/results/publish/{election_id}] *)
Definition publish_to_blockchain (env : Tallying.Env) (d : DB) (election_id : uuid)
  : DB * answer PublishResponse :=
  match first (fun r => String.eqb (r_election_id r) election_id) (election_results d) with
  | None => (d, HTTPException 404 "Results not found")
  | Some result =>
      match r_blockchain_tx_hash result with
      | Some _ => (d, HTTPException 400 "Results already published to blockchain")
      | None =>
          let tx_hash :=
            tx_hash_of election_id (r_verification_hash result) (Tallying.utcnow env 0) in
          let published_at := Tallying.utcnow env 1 in
          let log :=
            mk_log (Tallying.uuid4 env 0) election_id "publish_blockchain" "system"
                   (PublishDetails tx_hash (r_verification_hash result))
                   "success" (Tallying.utcnow env 2) in
          let db1 :=
            set_election_results d
              (update_first (fun r => String.eqb (r_election_id r) election_id)
                            (set_r_published tx_hash published_at) (election_results d)) in
          let db2 := set_audit_logs db1 (audit_logs db1 ++ [log]) in
          match commit db2 with
          | Raise e => (d, HTTPException 500 ("Publishing failed: " +++ str_of_exc e))
          | Beyond why => (d, Outside why)
          | Return d' =>
              (d', Ok (mk_publish_response true "Results published to blockchain" tx_hash
                         (r_verification_hash result) (Some published_at)))
          end
      end
  end.

End Endpoints.

(* ===================================================================== *)
(** * Primality certificates and polynomials over the prime field *)
(* ===================================================================== *)

(** ** Primality certificates *)

(** No divisor of [N] among [d], [d + 1], ..., [d + fuel - 1]. *)
Fixpoint no_divisor_from (fuel : nat) (d N : Z) : bool :=
  match fuel with
  | O => true
  | S k => if N mod d =? 0 then false else no_divisor_from k (d + 1) N
  end.

(** Trial division up to the square root. *)
Definition trial_division (N : Z) : bool :=
  (1 <? N) && no_divisor_from (Z.to_nat (Z.sqrt N - 1)) 2 N.

Fixpoint ascending (lo : Z) (l : list Z) : bool :=
  match l with
  | [] => true
  | q :: rest => (lo <? q) && ascending q rest
  end.

(** Pocklington's criterion for [N] with the base [a] and the factors [qs]
    of [N - 1], whose product exceeds the square root of [N]. *)
Definition pocklington_check (N a : Z) (qs : list Z) : bool :=
  (1 <? N)
  && (Zpow_mod a (N - 1) N =? 1)
  && forallb (fun q => ((N - 1) mod q =? 0)
                       && (Z.gcd (Zpow_mod a ((N - 1) / q) N - 1) N =? 1)) qs
  && ascending 1 qs
  && (N <? Zprod qs * Zprod qs).

(** ** Polynomials over the integers, lowest coefficient first *)

Fixpoint poly (cs : list Z) (x : Z) : Z :=
  match cs with
  | [] => 0
  | c :: rest => c + x * poly rest x
  end.

Fixpoint padd (cs ds : list Z) : list Z :=
  match cs, ds with
  | [], _ => ds
  | _, [] => cs
  | c :: cs', d :: ds' => (c + d) :: padd cs' ds'
  end.

Definition pscale (k : Z) (cs : list Z) : list Z := map (Z.mul k) cs.

(** The coefficients of [(X - a) * P]. *)
Definition plin (a : Z) (cs : list Z) : list Z := padd (pscale (- a) cs) (0 :: cs).

(** The quotient of [P - P(a)] by [X - a]. *)
Fixpoint pquot (a : Z) (cs : list Z) : list Z :=
  match cs with
  | [] => []
  | _ :: rest =>
      match rest with
      | [] => []
      | _ :: _ => poly rest a :: pquot a rest
      end
  end.

(** The product of the [x - xj] over the abscissas [xs], numbered from
    [j], the one numbered [i] left out: what the inner loop of
    [_lagrange_interpolation] multiplies up. *)
Fixpoint skip_prod (j i : nat) (xs : list Z) (x : Z) : Z :=
  match xs with
  | [] => 1
  | xj :: rest =>
      if Nat.eqb i j then skip_prod (S j) i rest x
      else (x - xj) * skip_prod (S j) i rest x
  end.

Fixpoint skip_coeffs (j i : nat) (xs : list Z) : list Z :=
  match xs with
  | [] => [1]
  | xj :: rest =>
      if Nat.eqb i j then skip_coeffs (S j) i rest
      else plin xj (skip_coeffs (S j) i rest)
  end.

(** [pow(denominator, prime - 2, prime)] for the i-th point. *)
Definition lagrange_weight (prime : Z) (xs : list Z) (i : nat) (xi : Z) : Z :=
  Py.powmod (skip_prod 0 i xs xi mod prime) (prime - 2) prime.

(** The interpolating polynomial of [_lagrange_interpolation], without the
    reductions modulo the prime: its value and its coefficients. *)
Fixpoint lagrange_sum (prime : Z) (xs : list Z) (i : nat) (todo : list (Z * Z)) (x : Z) : Z :=
  match todo with
  | [] => 0
  | (xi, yi) :: rest =>
      yi * lagrange_weight prime xs i xi * skip_prod 0 i xs x
      + lagrange_sum prime xs (S i) rest x
  end.

Fixpoint lagrange_coeffs (prime : Z) (xs : list Z) (i : nat) (todo : list (Z * Z)) : list Z :=
  match todo with
  | [] => []
  | (xi, yi) :: rest =>
      padd (pscale (yi * lagrange_weight prime xs i xi) (skip_coeffs 0 i xs))
           (lagrange_coeffs prime xs (S i) rest)
  end.

(* ===================================================================== *)
(** * Properties *)
(* ===================================================================== *)

(* @@THEOREMS@@ *)

(** ** Threshold combination *)

Section Combination.
Import Py Encryption.

Variable self : HomomorphicEncryptionService.
Variable aggregated_tally_str : wire_vector.
Variable threshold : Z.

Lemma combine_with_enough (l : list wire_partial) :
  threshold <= Z.of_nat (List.length l) ->
  combine_partial_decryptions self aggregated_tally_str l threshold
  = decrypt_tally self aggregated_tally_str.
Proof.
  intros Hlen. unfold combine_partial_decryptions.
  destruct (Z.ltb_spec (Z.of_nat (List.length l)) threshold); [lia | reflexivity].
Qed.

(** C10: on any two lists of partial decryptions that both reach the
    threshold, [combine_partial_decryptions] gives the same result, namely
    [decrypt_tally] of the aggregate; the partial decryptions themselves are
    never read. *)
Theorem combine_partial_decryptions_ignores_contents (l1 l2 : list wire_partial) :
  threshold <= Z.of_nat (List.length l1) ->
  threshold <= Z.of_nat (List.length l2) ->
  combine_partial_decryptions self aggregated_tally_str l1 threshold
  = combine_partial_decryptions self aggregated_tally_str l2 threshold
  /\ combine_partial_decryptions self aggregated_tally_str l1 threshold
     = decrypt_tally self aggregated_tally_str.
Proof.
  intros H1 H2. rewrite !combine_with_enough by assumption. split; reflexivity.
Qed.

End Combination.

Lemma combine_partial_decryptions_ignores_contents_witness :
  let l1 := map Database.pd_partial_result
                (Database.partial_decryptions (Tallying.db Scenario.w4)) in
  let l2 := repeat (Encryption.mk_wire_partial 9 [1; 2; 3]) 4 in
  let agg := [Encryption.mk_wire 694 0; Encryption.mk_wire 1114 0; Encryption.mk_wire 1114 0] in
  3 <= Z.of_nat (List.length l1) /\
  3 <= Z.of_nat (List.length l2) /\
  Encryption.combine_partial_decryptions (Tallying.encryption Scenario.w4) agg l1 3
  = Encryption.combine_partial_decryptions (Tallying.encryption Scenario.w4) agg l2 3 /\
  Encryption.combine_partial_decryptions (Tallying.encryption Scenario.w4) agg l1 3
  = Py.Return [3; 1; 1].
Proof.
  intros l1 l2 agg.
  assert (H1 : 3 <= Z.of_nat (List.length l1)) by (vm_compute; discriminate).
  assert (H2 : 3 <= Z.of_nat (List.length l2)) by (vm_compute; discriminate).
  destruct (combine_partial_decryptions_ignores_contents
              (Tallying.encryption Scenario.w4) agg 3 l1 l2 H1 H2) as [Ha Hb].
  split; [exact H1 | split; [exact H2 | split; [exact Ha | ]]].
  rewrite Hb. vm_compute. reflexivity.
Defined.

(** ** Rows and queries *)

Section Rows.
Import Database.

Context {A : Type}.

Lemma first_app (f : A -> bool) (l1 l2 : list A) :
  first f (l1 ++ l2) = match first f l1 with Some r => Some r | None => first f l2 end.
Proof.
  unfold first. induction l1 as [|r l1 IH]; simpl; [reflexivity|].
  destruct (f r); [reflexivity | exact IH].
Qed.

Lemma first_update_first (f : A -> bool) (g : A -> A) (rows : list A) :
  (forall r, f (g r) = f r) ->
  first f (update_first f g rows) = option_map g (first f rows).
Proof.
  intros Hfg. unfold first. induction rows as [|r rows IH]; simpl; [reflexivity|].
  destruct (f r) eqn:E; simpl.
  - rewrite Hfg, E. reflexivity.
  - rewrite E. exact IH.
Qed.

Lemma update_first_none (f : A -> bool) (g : A -> A) (rows : list A) :
  first f rows = None -> update_first f g rows = rows.
Proof.
  unfold first. induction rows as [|r rows IH]; simpl; [reflexivity|].
  destruct (f r); [discriminate|]. intros H. rewrite IH by exact H. reflexivity.
Qed.

Lemma map_update_first {B} (h : A -> B) (f : A -> bool) (g : A -> A) (rows : list A) :
  (forall r, h (g r) = h r) -> map h (update_first f g rows) = map h rows.
Proof.
  intros Hg. induction rows as [|r rows IH]; simpl; [reflexivity|].
  destruct (f r); simpl; [rewrite Hg | rewrite IH]; reflexivity.
Qed.

Lemma length_update_first (f : A -> bool) (g : A -> A) (rows : list A) :
  List.length (update_first f g rows) = List.length rows.
Proof.
  induction rows as [|r rows IH]; simpl; [reflexivity|].
  destruct (f r); simpl; [|rewrite IH]; reflexivity.
Qed.

Lemma first_some_In (f : A -> bool) (rows : list A) (r : A) :
  first f rows = Some r -> In r rows /\ f r = true.
Proof. unfold first. apply find_some. Qed.

End Rows.

Lemma commit_returns (d d' : Database.DB) :
  Database.commit d = Py.Return d' -> d' = d.
Proof.
  unfold Database.commit. destruct (Database.constraints_ok d); [|discriminate].
  intros H. injection H as <-. reflexivity.
Qed.

Lemma commit_cases (d : Database.DB) :
  Database.commit d = Py.Return d \/
  Database.commit d = Py.Raise (Py.IntegrityError "constraint violation").
Proof. unfold Database.commit. destruct (Database.constraints_ok d); auto. Qed.

(** ** [finalize_tally]: the trustee-count guard *)

Section FinalizeGuard.
Import Py Database Tallying.

(** A failing or unmodelled [finalize_tally] leaves the world as it was. *)
Lemma finalize_tally_failure_keeps_world env w election_id :
  (forall r, snd (finalize_tally env w election_id) <> Return r) ->
  fst (finalize_tally env w election_id) = w.
Proof.
  unfold finalize_tally.
  destruct (first (session_of election_id) _) as [session|]; [|reflexivity].
  destruct (s_completed_trustees session <? s_required_trustees session); [reflexivity|].
  match goal with
  | |- context [if ?c then _ else _] => destruct c; [reflexivity|]
  end.
  destruct (reraise _ _) as [v| |]; try reflexivity.
  destruct (first (by_election election_id) _) as [election|]; [|reflexivity].
  destruct (tally_from 0 (e_candidates election) v [] 0) as [ft tv].
  destruct (commit _) as [d'| |]; try reflexivity.
  intros H. exfalso. eapply H. reflexivity.
Qed.

(** C6 (amended): [finalize_tally] on a session with fewer completed than
    required trustees fails with "Insufficient trustees: c < r" and leaves
    the tables and the loaded keys unchanged, whatever the session status;
    the status itself is never tested. *)
Theorem finalize_tally_insufficient_trustees env w election_id session :
  first (session_of election_id) (tallying_sessions (db w)) = Some session ->
  s_completed_trustees session < s_required_trustees session ->
  finalize_tally env w election_id
  = (w, Raise (ValueError ("Insufficient trustees: " +++ str (s_completed_trustees session)
                           +++ " < " +++ str (s_required_trustees session)))).
Proof.
  intros Hs Hlt. unfold finalize_tally. rewrite Hs.
  destruct (Z.ltb_spec (s_completed_trustees session) (s_required_trustees session));
    [reflexivity | lia].
Qed.

End FinalizeGuard.

Lemma finalize_tally_insufficient_trustees_witness :
  exists session,
    Database.first (Tallying.session_of Scenario.election_id)
                   (Database.tallying_sessions (Tallying.db Scenario.w3)) = Some session /\
    Database.s_status session = "decrypting" /\
    Database.s_completed_trustees session < Database.s_required_trustees session /\
    Tallying.finalize_tally (Scenario.env "00000005" 500) Scenario.w3 Scenario.election_id
    = (Scenario.w3, Py.Raise (Py.ValueError "Insufficient trustees: 2 < 3")).
Proof.
  eexists. split; [vm_compute; reflexivity|].
  split; [reflexivity|]. split; [reflexivity|].
  refine (eq_trans (finalize_tally_insufficient_trustees _ _ _ _ _ _) _).
  - vm_compute. reflexivity.
  - vm_compute. reflexivity.
  - reflexivity.
Defined.

(** C6, as stated, fails: a session in status "completed" with three of
    three trustees is not in "decrypting", yet [finalize_tally] passes the
    trustee test, recomputes the tally and is stopped only by the unique
    constraint on [election_results.election_id]. *)
Lemma finalize_tally_state_guard_counterexample :
  ~ (forall env w election_id session,
       Database.first (Tallying.session_of election_id)
                      (Database.tallying_sessions (Tallying.db w)) = Some session ->
       Database.s_status session <> "decrypting" \/
       Database.s_completed_trustees session < Database.s_required_trustees session ->
       exists m,
         Tallying.finalize_tally env w election_id
         = (w, Py.Raise (Py.ValueError ("Insufficient trustees: " +++ m)))).
Proof.
  intros claim.
  destruct (claim (Scenario.env "00000006" 600) Scenario.w5 Scenario.election_id
                  (Database.mk_session "00000001-0000-4000-8000-000000000000"
                     Scenario.election_id "completed"
                     [Encryption.mk_wire 694 0; Encryption.mk_wire 1114 0;
                      Encryption.mk_wire 1114 0]
                     3 3 (Py.mk_datetime 2024 5 17 9 30 0 100)
                     (Some (Py.mk_datetime 2024 5 17 9 30 0 501)) None)) as [m Hm].
  - vm_compute. reflexivity.
  - left. discriminate.
  - assert (E : snd (Tallying.finalize_tally (Scenario.env "00000006" 600) Scenario.w5
                       Scenario.election_id)
                = Py.Raise (Py.IntegrityError "constraint violation"))
      by (vm_compute; reflexivity).
    rewrite Hm in E. discriminate E.
Qed.

(** ** [partial_decrypt]: what a call needs and what it writes *)

Section PartialDecrypt.
Import Py Database Tallying.

(** What holds when [partial_decrypt] returns. *)
Lemma partial_decrypt_returns env w election_id trustee_id r :
  snd (partial_decrypt env w election_id trustee_id) = Return r ->
  exists session trustee share enc1 partial_result,
    first (session_of election_id) (tallying_sessions (db w)) = Some session /\
    open_for_decryption session = true /\
    first (partial_of election_id trustee_id) (partial_decryptions (db w)) = None /\
    first (trustee_of trustee_id) (trustees (db w)) = Some trustee /\
    t_key_share_encrypted trustee = Some share /\
    load_election_key w election_id = Return enc1 /\
    fst (partial_decrypt env w election_id trustee_id)
    = mk_world (partial_decrypt_writes env (db w) session election_id trustee_id partial_result)
               enc1 /\
    r = mk_partial_response (uuid4 env 0) (s_completed_trustees session + 1)
          (s_required_trustees session)
          (s_required_trustees session <=? s_completed_trustees session + 1).
Proof.
  unfold partial_decrypt.
  destruct (first (session_of election_id) _) as [session|] eqn:Hs; [|discriminate].
  destruct (open_for_decryption session) eqn:Hst; [|discriminate].
  simpl negb. cbv iota.
  destruct (first (partial_of election_id trustee_id) _) eqn:Hp; [discriminate|].
  destruct (first (trustee_of trustee_id) _) as [trustee|] eqn:Ht; [|discriminate].
  destruct (t_key_share_encrypted trustee) as [share|] eqn:Hk; [|discriminate].
  destruct (load_election_key w election_id) as [enc1| |] eqn:Hl; try discriminate.
  destruct (Encryption.partial_decrypt enc1 _ _ _) as [partial_result| |] eqn:Hd;
    try discriminate.
  destruct (commit _) as [db'| |] eqn:Hc; try discriminate.
  simpl. intros H. injection H as <-.
  apply commit_returns in Hc. subst db'.
  exists session, trustee, share, enc1, partial_result.
  repeat split; reflexivity || assumption.
Qed.

(** A failing [partial_decrypt] writes nothing to the tables. *)
Lemma partial_decrypt_failure_keeps_db env w election_id trustee_id :
  (forall r, snd (partial_decrypt env w election_id trustee_id) <> Return r) ->
  db (fst (partial_decrypt env w election_id trustee_id)) = db w.
Proof.
  unfold partial_decrypt.
  destruct (first (session_of election_id) _) as [session|]; [|reflexivity].
  destruct (negb (open_for_decryption session)); [reflexivity|].
  destruct (first (partial_of election_id trustee_id) _); [reflexivity|].
  destruct (first (trustee_of trustee_id) _) as [trustee|]; [|reflexivity].
  destruct (t_key_share_encrypted trustee); [|reflexivity].
  destruct (load_election_key w election_id) as [enc1| |]; try reflexivity.
  destruct (Encryption.partial_decrypt enc1 _ _ _) as [presult| |]; try reflexivity.
  destruct (commit _) as [d'| |]; try reflexivity.
  intros H. exfalso. eapply H. reflexivity.
Qed.

Lemma session_of_bump election_id s :
  session_of election_id (bump_session s) = session_of election_id s.
Proof. reflexivity. Qed.

Lemma open_after_bump s :
  open_for_decryption s = true -> open_for_decryption (bump_session s) = true.
Proof.
  unfold open_for_decryption, bump_session. simpl.
  destruct (String.eqb (s_status s) "aggregating") eqn:E; simpl.
  - reflexivity.
  - intros H. rewrite E, H. reflexivity.
Qed.

Lemma partial_of_refl election_id trustee_id d :
  pd_election_id d = election_id -> pd_trustee_id d = trustee_id ->
  partial_of election_id trustee_id d = true.
Proof.
  intros <- <-. unfold partial_of. rewrite !String.eqb_refl. reflexivity.
Qed.

(** What [partial_decrypt] answers in a state that already holds a partial
    decryption of the trustee for the election: the two session tests come
    before the duplicate test, so the message depends on the session. *)
Lemma partial_decrypt_with_stored_row env w election_id trustee_id d :
  first (partial_of election_id trustee_id) (partial_decryptions (db w)) = Some d ->
  partial_decrypt env w election_id trustee_id
  = (w, Raise (ValueError
                 match first (session_of election_id) (tallying_sessions (db w)) with
                 | None => "Tallying session not found"
                 | Some s => if open_for_decryption s
                             then "Trustee already performed partial decryption"
                             else "Cannot decrypt in status: " +++ s_status s
                 end)).
Proof.
  intros Hd. unfold partial_decrypt.
  destruct (first (session_of election_id) _) as [s|]; [|reflexivity].
  destruct (open_for_decryption s); cbn [negb]; [|reflexivity].
  rewrite Hd. reflexivity.
Qed.

(** C3 (amended): a successful [partial_decrypt] stores the trustee's
    partial decryption, raises [completed_trustees] by exactly one and
    writes exactly one audit entry of kind partial_decrypt for the trustee.
    A retry made right after it is rejected with "Trustee already performed
    partial decryption" and changes nothing.  More generally, in every state
    that holds a partial decryption of the trustee for the election, a call
    by that trustee returns no decryption_id: it raises [ValueError] and
    leaves the state as it is, with "Tallying session not found" when the
    election has no session, "Cannot decrypt in status: <status>" when the
    session is neither aggregating nor decrypting (after [finalize_tally]:
    completed), and "Trustee already performed partial decryption"
    otherwise. *)
Theorem partial_decrypt_replay_rejected env1 env2 w election_id trustee_id r1 :
  snd (partial_decrypt env1 w election_id trustee_id) = Return r1 ->
  let w1 := fst (partial_decrypt env1 w election_id trustee_id) in
  partial_decrypt env2 w1 election_id trustee_id
  = (w1, Raise (ValueError "Trustee already performed partial decryption"))
  /\ (exists s s1,
        first (session_of election_id) (tallying_sessions (db w)) = Some s /\
        first (session_of election_id) (tallying_sessions (db w1)) = Some s1 /\
        s_completed_trustees s1 = s_completed_trustees s + 1)
  /\ Machine.count_audit (db w1) election_id "partial_decrypt" trustee_id
     = Machine.count_audit (db w) election_id "partial_decrypt" trustee_id + 1
  /\ first (partial_of election_id trustee_id) (partial_decryptions (db w)) = None
  /\ (exists d,
        first (partial_of election_id trustee_id) (partial_decryptions (db w1)) = Some d /\
        pd_decryption_id d = pr_decryption_id r1)
  /\ (forall w2 d,
        first (partial_of election_id trustee_id) (partial_decryptions (db w2)) = Some d ->
        partial_decrypt env2 w2 election_id trustee_id
        = (w2, Raise (ValueError
                        match first (session_of election_id) (tallying_sessions (db w2)) with
                        | None => "Tallying session not found"
                        | Some s2 =>
                            if open_for_decryption s2
                            then "Trustee already performed partial decryption"
                            else "Cannot decrypt in status: " +++ s_status s2
                        end))).
Proof.
  intros Hret w1.
  destruct (partial_decrypt_returns _ _ _ _ _ Hret)
    as (session & trustee & share & enc1 & presult & Hs & Hopen & Hp & Ht & Hk & Hl & Hw & Hr).
  assert (Hs1 : first (session_of election_id) (tallying_sessions (db w1))
                = Some (bump_session session)).
  { unfold w1. rewrite Hw. simpl.
    rewrite first_update_first by (intros; apply session_of_bump).
    rewrite Hs. reflexivity. }
  assert (Hp1 : exists d, first (partial_of election_id trustee_id)
                                (partial_decryptions (db w1)) = Some d /\
                          pd_decryption_id d = pr_decryption_id r1).
  { unfold w1. rewrite Hw. simpl. rewrite first_app, Hp. simpl.
    rewrite partial_of_refl by reflexivity. eexists. split; [reflexivity|].
    subst r1. reflexivity. }
  split; [|split; [|split; [|split; [|split]]]].
  - destruct Hp1 as (d & Hd & _).
    rewrite (partial_decrypt_with_stored_row env2 w1 election_id trustee_id d Hd).
    rewrite Hs1, (open_after_bump _ Hopen). reflexivity.
  - exists session, (bump_session session). repeat split; assumption.
  - unfold Machine.count_audit, w1. rewrite Hw. simpl.
    rewrite filter_app, length_app. simpl.
    rewrite !String.eqb_refl. simpl. lia.
  - exact Hp.
  - exact Hp1.
  - intros w2 d Hd. apply (partial_decrypt_with_stored_row env2 w2 election_id trustee_id d Hd).
Qed.

End PartialDecrypt.

(** Trustee 1 in the small election: the first call returns, the retry
    right after it is rejected as a duplicate, and the retry after
    [finalize_tally] is rejected because the session is completed. *)
Lemma partial_decrypt_replay_rejected_witness :
  let w1 := fst (Tallying.partial_decrypt (Scenario.env "00000002" 200) Scenario.w1
                   Scenario.election_id Scenario.trustee_1) in
  snd (Tallying.partial_decrypt (Scenario.env "00000002" 200) Scenario.w1
         Scenario.election_id Scenario.trustee_1)
  = Py.Return (Tallying.mk_partial_response "00000002-0000-4000-8000-000000000000" 1 3 false)
  /\ Tallying.partial_decrypt (Scenario.env "00000009" 900) w1
       Scenario.election_id Scenario.trustee_1
     = (w1, Py.Raise (Py.ValueError "Trustee already performed partial decryption"))
  /\ Machine.count_audit (Tallying.db w1) Scenario.election_id "partial_decrypt"
                         Scenario.trustee_1 = 1
  /\ (exists d,
        Database.first (Tallying.partial_of Scenario.election_id Scenario.trustee_1)
                       (Database.partial_decryptions (Tallying.db Scenario.w5)) = Some d)
  /\ Tallying.partial_decrypt (Scenario.env "00000009" 900) Scenario.w5
       Scenario.election_id Scenario.trustee_1
     = (Scenario.w5, Py.Raise (Py.ValueError "Cannot decrypt in status: completed")).
Proof.
  intros w1.
  assert (H : snd (Tallying.partial_decrypt (Scenario.env "00000002" 200) Scenario.w1
                     Scenario.election_id Scenario.trustee_1)
              = Py.Return (Tallying.mk_partial_response
                             "00000002-0000-4000-8000-000000000000" 1 3 false))
    by (vm_compute; reflexivity).
  destruct (partial_decrypt_replay_rejected (Scenario.env "00000002" 200)
              (Scenario.env "00000009" 900) Scenario.w1 Scenario.election_id
              Scenario.trustee_1 _ H) as (Ha & _ & Hc & _ & _ & Hg).
  split; [exact H | split; [exact Ha | split]].
  - fold w1 in Hc. rewrite Hc. vm_compute. reflexivity.
  - destruct (Database.first (Tallying.partial_of Scenario.election_id Scenario.trustee_1)
                (Database.partial_decryptions (Tallying.db Scenario.w5))) as [d|] eqn:Hd;
      [|vm_compute in Hd; discriminate Hd].
    split; [exists d; reflexivity|].
    rewrite (Hg Scenario.w5 d Hd).
    assert (Hs : Database.first (Tallying.session_of Scenario.election_id)
                   (Database.tallying_sessions (Tallying.db Scenario.w5))
                 = Some (Database.mk_session "00000001-0000-4000-8000-000000000000"
                           Scenario.election_id "completed"
                           [Encryption.mk_wire 694 0; Encryption.mk_wire 1114 0;
                            Encryption.mk_wire 1114 0]
                           3 3 (Py.mk_datetime 2024 5 17 9 30 0 100)
                           (Some (Py.mk_datetime 2024 5 17 9 30 0 501)) None))
      by (vm_compute; reflexivity).
    rewrite Hs. reflexivity.
Defined.

(** C3, as stated, fails: the second call of trustee 1 returns no
    decryption_id at all, it raises. *)
Lemma partial_decrypt_replay_counterexample :
  ~ (forall env1 env2 w election_id trustee_id r1,
       snd (Tallying.partial_decrypt env1 w election_id trustee_id) = Py.Return r1 ->
       exists r2,
         snd (Tallying.partial_decrypt env2
                (fst (Tallying.partial_decrypt env1 w election_id trustee_id))
                election_id trustee_id) = Py.Return r2 /\
         Tallying.pr_decryption_id r2 = Tallying.pr_decryption_id r1).
Proof.
  intros claim.
  destruct (claim (Scenario.env "00000002" 200) (Scenario.env "00000009" 900)
                  Scenario.w1 Scenario.election_id Scenario.trustee_1
                  (Tallying.mk_partial_response "00000002-0000-4000-8000-000000000000"
                                                1 3 false))
    as (r2 & Hr2 & _).
  - vm_compute. reflexivity.
  - assert (E : snd (Tallying.partial_decrypt (Scenario.env "00000009" 900)
                       (fst (Tallying.partial_decrypt (Scenario.env "00000002" 200)
                               Scenario.w1 Scenario.election_id Scenario.trustee_1))
                       Scenario.election_id Scenario.trustee_1)
                = Py.Raise (Py.ValueError "Trustee already performed partial decryption"))
      by (vm_compute; reflexivity).
    rewrite E in Hr2. discriminate Hr2.
Qed.

(** ** [partial_decrypt]: the trustee guard *)

Section TrusteeGuard.
Import Py Database Tallying.

Lemma constraints_ok_with_trustee_status restatus d :
  constraints_ok (Routers.with_trustee_status restatus d) = constraints_ok d.
Proof.
  unfold constraints_ok, Routers.with_trustee_status, set_trustees.
  cbn [trustees elections encrypted_votes partial_decryptions election_results
       audit_logs tallying_sessions].
  rewrite !map_map. reflexivity.
Qed.

Lemma first_trustee_with_status restatus trustee_id l :
  first (trustee_of trustee_id) (map (fun t => set_t_status (restatus t) t) l)
  = option_map (fun t => set_t_status (restatus t) t) (first (trustee_of trustee_id) l).
Proof.
  unfold first. induction l as [|t l IH]; simpl; [reflexivity|].
  unfold trustee_of at 1. simpl. fold (trustee_of trustee_id t).
  destruct (trustee_of trustee_id t); [reflexivity | exact IH].
Qed.

Lemma partial_decrypt_writes_with_trustee_status restatus env d session e t p :
  partial_decrypt_writes env (Routers.with_trustee_status restatus d) session e t p
  = Routers.with_trustee_status restatus (partial_decrypt_writes env d session e t p).
Proof. reflexivity. Qed.

(** The answer of [partial_decrypt] does not depend on any trustee's status. *)
Lemma partial_decrypt_ignores_status restatus env w election_id trustee_id :
  snd (partial_decrypt env (mk_world (Routers.with_trustee_status restatus (db w))
                                     (encryption w))
                       election_id trustee_id)
  = snd (partial_decrypt env w election_id trustee_id).
Proof.
  unfold partial_decrypt, load_election_key. cbn [db encryption].
  change (tallying_sessions (Routers.with_trustee_status restatus (db w)))
    with (tallying_sessions (db w)).
  change (partial_decryptions (Routers.with_trustee_status restatus (db w)))
    with (partial_decryptions (db w)).
  change (elections (Routers.with_trustee_status restatus (db w)))
    with (elections (db w)).
  change (trustees (Routers.with_trustee_status restatus (db w)))
    with (map (fun t => set_t_status (restatus t) t) (trustees (db w))).
  destruct (first (session_of election_id) _) as [session|]; [|reflexivity].
  destruct (negb (open_for_decryption session)); [reflexivity|].
  destruct (first (partial_of election_id trustee_id) _); [reflexivity|].
  rewrite first_trustee_with_status.
  destruct (first (trustee_of trustee_id) (trustees (db w))) as [trustee|];
    cbn [option_map]; [|reflexivity].
  cbn [set_t_status t_key_share_encrypted].
  destruct (t_key_share_encrypted trustee); [|reflexivity].
  match goal with
  | |- snd (match ?c with _ => _ end) = _ => destruct c as [enc1| |]; try reflexivity
  end.
  destruct (Encryption.partial_decrypt enc1 _ _ _) as [presult| |]; try reflexivity.
  rewrite partial_decrypt_writes_with_trustee_status.
  unfold commit. rewrite constraints_ok_with_trustee_status.
  destruct (constraints_ok _); reflexivity.
Qed.

(** C7 (amended): when the trustee row is absent or holds no key share,
    [partial_decrypt] fails and persists nothing; the failure is "Trustee
    not found or missing key share" once the session is open and the
    trustee has not decrypted before.  The trustee status is not read:
    rewriting statuses does not change any answer. *)
Theorem partial_decrypt_requires_key_share env w election_id trustee_id :
  (forall trustee,
      first (trustee_of trustee_id) (trustees (db w)) = Some trustee ->
      t_key_share_encrypted trustee = None) ->
  (exists m, partial_decrypt env w election_id trustee_id = (w, Raise (ValueError m)))
  /\ (forall session,
        first (session_of election_id) (tallying_sessions (db w)) = Some session ->
        open_for_decryption session = true ->
        first (partial_of election_id trustee_id) (partial_decryptions (db w)) = None ->
        partial_decrypt env w election_id trustee_id
        = (w, Raise (ValueError "Trustee not found or missing key share")))
  /\ (forall restatus,
        snd (partial_decrypt env (mk_world (Routers.with_trustee_status restatus (db w))
                                           (encryption w))
                             election_id trustee_id)
        = snd (partial_decrypt env w election_id trustee_id)).
Proof.
  intros Hshare. split; [|split].
  - unfold partial_decrypt.
    destruct (first (session_of election_id) _) as [session|]; [|eexists; reflexivity].
    destruct (negb (open_for_decryption session)); [eexists; reflexivity|].
    destruct (first (partial_of election_id trustee_id) _); [eexists; reflexivity|].
    destruct (first (trustee_of trustee_id) _) as [trustee|] eqn:Ht; [|eexists; reflexivity].
    rewrite (Hshare _ eq_refl). eexists; reflexivity.
  - intros session Hs Ho Hp. unfold partial_decrypt. rewrite Hs, Ho, Hp. cbn [negb].
    destruct (first (trustee_of trustee_id) _) as [trustee|] eqn:Ht; [|reflexivity].
    rewrite (Hshare _ eq_refl). reflexivity.
  - intros restatus. apply partial_decrypt_ignores_status.
Qed.

End TrusteeGuard.

Lemma partial_decrypt_requires_key_share_witness :
  let stranger := "a1d3c2f0-0009-4a7b-8c11-5e0f9b7d1009" in
  (forall trustee,
      Database.first (Tallying.trustee_of stranger)
                     (Database.trustees (Tallying.db Scenario.w1)) = Some trustee ->
      Database.t_key_share_encrypted trustee = None)
  /\ Tallying.partial_decrypt (Scenario.env "00000002" 200) Scenario.w1
       Scenario.election_id stranger
     = (Scenario.w1, Py.Raise (Py.ValueError "Trustee not found or missing key share")).
Proof.
  intros stranger.
  assert (H : forall trustee,
             Database.first (Tallying.trustee_of stranger)
                            (Database.trustees (Tallying.db Scenario.w1)) = Some trustee ->
             Database.t_key_share_encrypted trustee = None)
    by (intros trustee Ht; vm_compute in Ht; discriminate Ht).
  split; [exact H|].
  destruct (partial_decrypt_requires_key_share (Scenario.env "00000002" 200) Scenario.w1
              Scenario.election_id stranger H) as (_ & Hb & _).
  eapply Hb; vm_compute; reflexivity.
Defined.

(** C7, as stated, fails: trustee 3, marked inactive by [delete_trustee]
    but still holding a key share, is served, and the partial decryption is
    stored. *)
Lemma partial_decrypt_inactive_trustee_counterexample :
  ~ (forall env w election_id trustee_id trustee,
       Database.first (Tallying.trustee_of trustee_id)
                      (Database.trustees (Tallying.db w)) = Some trustee ->
       Database.t_status trustee <> "active" ->
       exists e, snd (Tallying.partial_decrypt env w election_id trustee_id) = Py.Raise e).
Proof.
  intros claim.
  destruct (Routers.delete_trustee (Tallying.db Scenario.w3) Scenario.trustee_3)
    as [db'|] eqn:Hdel; [|vm_compute in Hdel; discriminate Hdel].
  destruct (claim (Scenario.env "00000004" 400)
                  (Tallying.mk_world db' (Tallying.encryption Scenario.w3))
                  Scenario.election_id Scenario.trustee_3
                  (Database.mk_trustee 3 Scenario.trustee_3 "Trustee Three"
                     "three@example.org" None (Some (Scenario.key_share 3)) "inactive"))
    as [e He].
  - vm_compute in Hdel. injection Hdel as <-. vm_compute. reflexivity.
  - discriminate.
  - vm_compute in Hdel. injection Hdel as <-. vm_compute in He. discriminate He.
Qed.

(** ** [finalize_tally]: what is stored, and when *)

Section FinalizeStores.
Import Py Database Tallying.

Lemma tally_from_total candidates v : forall i final_tally total_votes,
  snd (tally_from i candidates v final_tally total_votes)
  = total_votes + fold_right Z.add 0 (map (fun j => nth j v 0)
                                          (seq i (List.length candidates))).
Proof.
  induction candidates as [|c candidates IH]; intros i final_tally total_votes; simpl.
  - lia.
  - rewrite IH. lia.
Qed.

Lemma nodupb_snoc (l : list string) (x : string) :
  nodupb (l ++ [x]) = nodupb l && negb (memb x l).
Proof.
  unfold memb. induction l as [|a l IH]; simpl; [reflexivity|].
  rewrite IH, existsb_app. simpl. rewrite orb_false_r, (String.eqb_sym a x).
  destruct (existsb (String.eqb a) l), (String.eqb x a), (nodupb l),
           (existsb (String.eqb x) l); reflexivity.
Qed.

Lemma first_by_election_memb election_id l e :
  first (by_election election_id) l = Some e ->
  memb election_id (map e_election_id l) = true.
Proof.
  unfold first, memb, by_election. induction l as [|a l IH]; simpl; [discriminate|].
  rewrite (String.eqb_sym election_id (e_election_id a)).
  destruct (String.eqb (e_election_id a) election_id); [reflexivity | exact IH].
Qed.

Lemma first_result_none_memb election_id l :
  first (fun r => String.eqb (r_election_id r) election_id) l = None ->
  memb election_id (map r_election_id l) = false.
Proof.
  unfold first, memb. induction l as [|a l IH]; simpl; [reflexivity|].
  rewrite (String.eqb_sym election_id (r_election_id a)).
  destruct (String.eqb (r_election_id a) election_id); [discriminate | exact IH].
Qed.

Lemma forallb_map_same {A} (P : A -> bool) (g : A -> A) (l : list A) :
  (forall a, P (g a) = P a) -> forallb P (map g l) = forallb P l.
Proof.
  intros Hg. induction l as [|a l IH]; simpl; [reflexivity|]. rewrite Hg, IH. reflexivity.
Qed.

Lemma forallb_update_first {A} (P f : A -> bool) (g : A -> A) (l : list A) :
  (forall a, P (g a) = P a) -> forallb P (update_first f g l) = forallb P l.
Proof.
  intros Hg. induction l as [|a l IH]; simpl; [reflexivity|].
  destruct (f a); simpl; [rewrite Hg | rewrite IH]; reflexivity.
Qed.

(** The rows that [finalize_tally] writes pass every constraint of the
    schema when the stored tables do, the election has no result row yet and
    the two generated identifiers are new. *)
Lemma finalize_tally_writes_accepted env d election_id election
  final_tally total_votes verification_hash :
  constraints_ok d = true ->
  first (by_election election_id) (elections d) = Some election ->
  first (fun r => String.eqb (r_election_id r) election_id) (election_results d) = None ->
  memb (uuid4 env 0) (map r_result_id (election_results d)) = false ->
  memb (uuid4 env 1) (map l_log_id (audit_logs d)) = false ->
  constraints_ok (finalize_tally_writes env d election_id final_tally total_votes
                                        verification_hash) = true.
Proof.
  intros Hok He Hr Hid Hlog.
  apply first_by_election_memb in He. apply first_result_none_memb in Hr.
  unfold constraints_ok in Hok |- *. unfold finalize_tally_writes.
  cbn [trustees elections encrypted_votes partial_decryptions election_results
       audit_logs tallying_sessions set_audit_logs set_encrypted_votes set_elections
       set_tallying_sessions set_election_results].
  rewrite !(map_update_first s_session_id) by reflexivity.
  rewrite !(map_update_first s_election_id) by reflexivity.
  rewrite !(map_update_first e_election_id) by reflexivity.
  rewrite !map_map.
  rewrite (map_ext (fun v => v_vote_id (if String.eqb (v_election_id v) election_id
                                        then set_v_is_tallied true v else v)) v_vote_id)
    by (intros v; destruct (String.eqb (v_election_id v) election_id); reflexivity).
  rewrite (map_ext (fun v => v_nonce (if String.eqb (v_election_id v) election_id
                                      then set_v_is_tallied true v else v)) v_nonce)
    by (intros v; destruct (String.eqb (v_election_id v) election_id); reflexivity).
  rewrite forallb_map_same
    by (intros v; destruct (String.eqb (v_election_id v) election_id); reflexivity).
  rewrite !map_app, !forallb_app.
  cbn [map forallb new_result r_result_id r_election_id l_log_id l_election_id].
  rewrite !nodupb_snoc.
  rewrite Hid, Hr, Hlog, He. cbn [negb]. rewrite !andb_true_r.
  rewrite forallb_update_first by reflexivity.
  exact Hok.
Qed.

(** C2 (amended): [finalize_tally] compares the decrypted vector with
    nothing.  With enough trustees, if decryption raises, the call fails
    with "Finalization failed: ..." and the world is unchanged (the session
    does not become Failed).  If decryption returns any vector [v] whose
    counted total fits the INTEGER column [total_votes_tallied], the call
    hands to the commit the result row built from [v], with [total_votes]
    the sum of the counts read from [v] and the session set to "completed":
    it returns that result and stores these rows exactly when they pass the
    unique and foreign-key constraints, and fails with the commit's
    [IntegrityError], the world unchanged, otherwise.  The constraints are
    passed whenever the stored tables pass them, the election has no result
    row yet and the two generated identifiers are new; the number of stored
    ballots plays no part. *)
Theorem finalize_tally_no_consistency_check env w election_id session :
  first (session_of election_id) (tallying_sessions (db w)) = Some session ->
  s_required_trustees session <= s_completed_trustees session ->
  s_required_trustees session
  <= Z.of_nat (List.length (filter (fun d => String.eqb (pd_election_id d) election_id
                                             && pd_verified d)
                                   (partial_decryptions (db w)))) ->
  (forall e,
      Encryption.decrypt_tally (encryption w) (s_aggregated_ciphertext session) = Raise e ->
      finalize_tally env w election_id
      = (w, Raise (ValueError ("Finalization failed: " +++ str_of_exc e))))
  /\ (forall v election,
        Encryption.decrypt_tally (encryption w) (s_aggregated_ciphertext session) = Return v ->
        first (by_election election_id) (elections (db w)) = Some election ->
        let final_tally := fst (tally_from 0 (e_candidates election) v [] 0) in
        let total_votes := Machine.sum_counts (List.length (e_candidates election)) v in
        let verification_hash :=
          _generate_verification_hash (utcnow env 0) election_id final_tally total_votes in
        let db' := finalize_tally_writes env (db w) election_id final_tally total_votes
                                         verification_hash in
        - 2147483648 <= total_votes <= 2147483647 ->
        finalize_tally env w election_id
        = (if constraints_ok db'
           then (mk_world db' (encryption w),
                 Return (mk_finalize_response (uuid4 env 0) final_tally total_votes
                                              verification_hash))
           else (w, Raise (IntegrityError "constraint violation")))
        /\ (constraints_ok (db w) = true ->
            first (fun r => String.eqb (r_election_id r) election_id)
                  (election_results (db w)) = None ->
            memb (uuid4 env 0) (map r_result_id (election_results (db w))) = false ->
            memb (uuid4 env 1) (map l_log_id (audit_logs (db w))) = false ->
            constraints_ok db' = true)
        /\ In (new_result env election_id final_tally total_votes verification_hash)
              (election_results db')
        /\ first (session_of election_id) (tallying_sessions db')
           = Some (complete_session (utcnow env 1) session)).
Proof.
  intros Hs Hc Hp. split.
  - intros e He. unfold finalize_tally. rewrite Hs.
    destruct (Z.ltb_spec (s_completed_trustees session) (s_required_trustees session));
      [lia|].
    match goal with
    | |- context [if ?c then _ else _] => destruct c eqn:E; [apply Z.ltb_lt in E; lia|]
    end.
    rewrite combine_with_enough by (rewrite length_map; exact Hp).
    rewrite He. reflexivity.
  - intros v election Hv He. cbv zeta. intros _.
    pose proof (tally_from_total (e_candidates election) v 0 [] 0) as Ht.
    fold (Machine.sum_counts (List.length (e_candidates election)) v) in Ht.
    simpl in Ht.
    split; [|split; [|split]].
    + unfold finalize_tally. rewrite Hs.
      destruct (Z.ltb_spec (s_completed_trustees session) (s_required_trustees session));
        [lia|].
      match goal with
      | |- context [if ?c then _ else _] => destruct c eqn:E; [apply Z.ltb_lt in E; lia|]
      end.
      rewrite combine_with_enough by (rewrite length_map; exact Hp).
      rewrite Hv. simpl reraise. cbv iota. rewrite He.
      destruct (tally_from 0 (e_candidates election) v [] 0) as [ft tv].
      cbn [fst snd] in Ht |- *. subst tv.
      unfold commit.
      match goal with
      | |- context [constraints_ok ?d] => destruct (constraints_ok d); reflexivity
      end.
    + intros Hok Hr Hid Hlog.
      apply (finalize_tally_writes_accepted env (db w) election_id election); assumption.
    + unfold finalize_tally_writes. simpl. apply in_or_app. right. left. reflexivity.
    + unfold finalize_tally_writes. simpl.
      rewrite first_update_first by reflexivity. rewrite Hs. reflexivity.
Qed.

End FinalizeStores.

(** One stored ballot whose vector decrypts to [1, 1, 0]: the call returns
    a total of 2 and stores it. *)
Lemma finalize_tally_no_consistency_check_witness :
  exists session,
    Database.first (Tallying.session_of Scenario.election_id)
                   (Database.tallying_sessions (Tallying.db Scenario.u4)) = Some session
    /\ Machine.count_ballots (Tallying.db Scenario.u4) Scenario.election_id = 1
    /\ Encryption.decrypt_tally (Tallying.encryption Scenario.u4)
         (Database.s_aggregated_ciphertext session) = Py.Return [1; 1; 0]
    /\ exists w', Tallying.finalize_tally (Scenario.env "00000005" 500) Scenario.u4
                    Scenario.election_id
                  = (w', Py.Return
                           (Tallying.mk_finalize_response
                              "00000005-0000-4000-8000-000000000000"
                              [("A", 1); ("B", 1); ("C", 0)] 2
                              "9ffdcba933ed9c0a5b3994de9756225ea2b9088f37d3d76ed614dd7452311496"))
                  /\ exists r,
                       Database.first
                         (fun r => String.eqb (Database.r_election_id r) Scenario.election_id)
                         (Database.election_results (Tallying.db w')) = Some r
                       /\ Database.r_total_votes_tallied r = 2.
Proof.
  destruct (Database.first (Tallying.session_of Scenario.election_id)
              (Database.tallying_sessions (Tallying.db Scenario.u4))) as [session|] eqn:Hs;
    [|vm_compute in Hs; discriminate Hs].
  exists session. split; [reflexivity|].
  split; [vm_compute; reflexivity|].
  assert (Hs' := Hs). vm_compute in Hs'. injection Hs' as <-.
  assert (Hv : Encryption.decrypt_tally (Tallying.encryption Scenario.u4)
                 [Encryption.mk_wire 639 0; Encryption.mk_wire 111 0;
                  Encryption.mk_wire 932 0] = Py.Return [1; 1; 0])
    by (vm_compute; reflexivity).
  split; [exact Hv|].
  destruct (finalize_tally_no_consistency_check (Scenario.env "00000005" 500) Scenario.u4
              Scenario.election_id _ Hs) as [_ Hb].
  - vm_compute. discriminate.
  - vm_compute. discriminate.
  - destruct (Hb [1; 1; 0] (Database.set_e_status "tallying" Scenario.the_election) Hv)
      as (Heq & Hok & _ & _).
    + vm_compute. reflexivity.
    + vm_compute. split; discriminate.
    + rewrite Hok in Heq by (vm_compute; reflexivity).
      eexists. split; [rewrite Heq; vm_compute; reflexivity|].
      eexists. split; vm_compute; reflexivity.
Defined.

(** C2, as stated, fails: one stored ballot whose vector decrypts to
    [1, 1, 0] gives counts that sum to 2 for 1 ballot; [finalize_tally]
    returns and stores the result. *)
Lemma finalize_tally_inconsistent_counterexample :
  ~ (forall env w election_id session v,
       Database.first (Tallying.session_of election_id)
                      (Database.tallying_sessions (Tallying.db w)) = Some session ->
       Encryption.decrypt_tally (Tallying.encryption w)
         (Database.s_aggregated_ciphertext session) = Py.Return v ->
       fold_right Z.add 0 v <> Machine.count_ballots (Tallying.db w) election_id ->
       exists e, snd (Tallying.finalize_tally env w election_id) = Py.Raise e).
Proof.
  intros claim.
  destruct (claim (Scenario.env "00000005" 500) Scenario.u4 Scenario.election_id
                  (Database.mk_session "00000001-0000-4000-8000-000000000000"
                     Scenario.election_id "decrypting"
                     [Encryption.mk_wire 639 0; Encryption.mk_wire 111 0;
                      Encryption.mk_wire 932 0]
                     3 3 (Py.mk_datetime 2024 5 17 9 30 0 100) None None)
                  [1; 1; 0]) as [e He].
  - vm_compute. reflexivity.
  - vm_compute. reflexivity.
  - vm_compute. discriminate.
  - vm_compute in He. discriminate He.
Qed.

(** ** The verification digest *)

Section Verification.
Import Py Database Tallying.

Lemma nodupb_last (l : list string) (x : string) :
  nodupb (l ++ [x]) = true -> existsb (String.eqb x) l = false.
Proof.
  induction l as [|a l IH]; simpl; [reflexivity|].
  intros H. apply andb_prop in H. destruct H as [Ha Hl].
  rewrite (IH Hl), orb_false_r.
  apply negb_true_iff in Ha. rewrite existsb_app in Ha.
  apply orb_false_iff in Ha. destruct Ha as [_ Ha]. simpl in Ha.
  rewrite orb_false_r in Ha. rewrite String.eqb_sym. exact Ha.
Qed.

Lemma first_absent {A} (key : A -> string) (x : string) (rows : list A) :
  existsb (String.eqb x) (map key rows) = false ->
  first (fun r => String.eqb (key r) x) rows = None.
Proof.
  unfold first. induction rows as [|r rows IH]; simpl; [reflexivity|].
  intros H. apply orb_false_iff in H. destruct H as [Hx Hr].
  rewrite String.eqb_sym, Hx. apply IH. exact Hr.
Qed.

Lemma constraints_ok_results d :
  constraints_ok d = true -> nodupb (map r_election_id (election_results d)) = true.
Proof.
  unfold constraints_ok. intros H.
  repeat (apply andb_prop in H; destruct H as [H ?]). assumption.
Qed.

(** What holds when [finalize_tally] returns. *)
Lemma finalize_tally_returns env w election_id r :
  snd (finalize_tally env w election_id) = Return r ->
  fr_result_id r = uuid4 env 0 /\
  fr_verification_hash r
  = _generate_verification_hash (utcnow env 0) election_id (fr_final_tally r)
                                (fr_total_votes_tallied r) /\
  db (fst (finalize_tally env w election_id))
  = finalize_tally_writes env (db w) election_id (fr_final_tally r)
                          (fr_total_votes_tallied r) (fr_verification_hash r) /\
  constraints_ok (db (fst (finalize_tally env w election_id))) = true.
Proof.
  unfold finalize_tally.
  destruct (first (session_of election_id) _) as [session|]; [|discriminate].
  destruct (s_completed_trustees session <? s_required_trustees session); [discriminate|].
  match goal with
  | |- context [if ?c then _ else _] => destruct c; [discriminate|]
  end.
  destruct (reraise _ _) as [v| |]; try discriminate.
  destruct (first (by_election election_id) _) as [election|]; [|discriminate].
  destruct (tally_from 0 (e_candidates election) v [] 0) as [ft tv].
  unfold commit.
  destruct (constraints_ok _) eqn:Hok; [|discriminate].
  simpl. intros H. injection H as <-. simpl. auto.
Qed.

(** After [finalize_tally], the verification endpoint hashes the same
    object as the service did, except for the time stamp: it takes the
    row's [created_at], a later clock reading than the one that was hashed. *)
Lemma verify_results_after_finalize env w election_id r :
  snd (finalize_tally env w election_id) = Return r ->
  Routers.verify_results (db (fst (finalize_tally env w election_id))) election_id
  = let computed :=
      sha256_hexdigest
        (encode (hash_str election_id (fr_final_tally r) (fr_total_votes_tallied r)
                          (isoformat (utcnow env 2)))) in
    let stored :=
      sha256_hexdigest
        (encode (hash_str election_id (fr_final_tally r) (fr_total_votes_tallied r)
                          (isoformat (utcnow env 0)))) in
    Some (Routers.mk_verification (String.eqb computed stored) stored computed).
Proof.
  intros Hret.
  destruct (finalize_tally_returns _ _ _ _ Hret) as (_ & Hh & Hdb & Hok).
  apply constraints_ok_results in Hok. rewrite Hdb in Hok |- *.
  unfold finalize_tally_writes in Hok |- *. simpl in Hok |- *.
  rewrite map_app in Hok. simpl in Hok. apply nodupb_last in Hok.
  unfold Routers.verify_results. simpl.
  rewrite first_app.
  rewrite (first_absent r_election_id election_id _ Hok). simpl.
  rewrite String.eqb_refl. simpl. rewrite Hh. reflexivity.
Qed.

(** Verification succeeds when the two clock readings coincide. *)
Lemma verify_results_same_instant env w election_id r :
  snd (finalize_tally env w election_id) = Return r ->
  utcnow env 2 = utcnow env 0 ->
  option_map Routers.is_valid
    (Routers.verify_results (db (fst (finalize_tally env w election_id))) election_id)
  = Some true.
Proof.
  intros Hret Ht. rewrite (verify_results_after_finalize _ _ _ _ Hret).
  cbv zeta. rewrite Ht. simpl. rewrite String.eqb_refl. reflexivity.
Qed.

End Verification.

(** C1 fails on the code.  The result of the five-ballot election is stored
    by [finalize_tally] with the digest of a clock reading taken while
    hashing (09:30:00.000500); the row's [created_at] is read when the row is
    inserted (09:30:00.000502).  No count is touched, and [verify_results]
    answers [is_valid = false] with two different digests. *)
Theorem verify_results_rejects_untouched_result :
  snd (Tallying.finalize_tally (Scenario.env "00000005" 500) Scenario.w4 Scenario.election_id)
  = Py.Return (Tallying.mk_finalize_response "00000005-0000-4000-8000-000000000000"
                 [("A", 3); ("B", 1); ("C", 1)] 5
                 "f7052c0690e157219bdf574f0cb655458666b6cf954b5c0021ad9ca59a4a74a3")
  /\ Routers.verify_results (Tallying.db Scenario.w5) Scenario.election_id
     = Some (Routers.mk_verification false
               "f7052c0690e157219bdf574f0cb655458666b6cf954b5c0021ad9ca59a4a74a3"
               "c0876ddb78fdeebba4a8d31be9410bb69adf7ad384be62e8a4bcc80ba9f511d8").
Proof.
  split; vm_compute; reflexivity.
Qed.

(** ** The trustee counter along every run *)

Section Counter.
Import Py Database Tallying Machine.

Lemma update_first_unique {A} (key : A -> string) (k : string) (g : A -> A) (l : list A) :
  NoDup (map key l) ->
  update_first (fun r => String.eqb (key r) k) g l
  = map (fun r => if String.eqb (key r) k then g r else r) l.
Proof.
  induction l as [|r l IH]; simpl; [reflexivity|].
  intros Hnd. inversion Hnd as [|? ? Hnotin Hnd']; subst.
  destruct (String.eqb (key r) k) eqn:E.
  - f_equal. apply String.eqb_eq in E. subst k.
    clear IH Hnd Hnd'. induction l as [|r' l IHl]; simpl; [reflexivity|].
    simpl in Hnotin.
    destruct (String.eqb (key r') (key r)) eqn:E'.
    + apply String.eqb_eq in E'. exfalso. apply Hnotin. left. exact E'.
    + f_equal. apply IHl. intros Hin. apply Hnotin. right. exact Hin.
  - f_equal. apply IH. exact Hnd'.
Qed.

Lemma first_none_not_in {A} (key : A -> string) (k : string) (l : list A) :
  first (fun r => String.eqb (key r) k) l = None -> ~ In k (map key l).
Proof.
  unfold first. induction l as [|r l IH]; simpl; [tauto|].
  destruct (String.eqb (key r) k) eqn:E; [discriminate|].
  intros H [Hk | Hin].
  - subst k. rewrite String.eqb_refl in E. discriminate.
  - exact (IH H Hin).
Qed.

Lemma count_partials_app d election_id extra :
  Z.of_nat (List.length (filter (fun p => String.eqb (pd_election_id p) election_id)
                                (partial_decryptions d ++ extra)))
  = count_partials d election_id
    + Z.of_nat (List.length (filter (fun p => String.eqb (pd_election_id p) election_id) extra)).
Proof. unfold count_partials. rewrite filter_app, length_app. lia. Qed.

Lemma count_partials_zero d election_id :
  ~ In election_id (map pd_election_id (partial_decryptions d)) ->
  count_partials d election_id = 0.
Proof.
  unfold count_partials. induction (partial_decryptions d) as [|p l IH]; simpl;
    [reflexivity|].
  intros H. destruct (String.eqb (pd_election_id p) election_id) eqn:E.
  - apply String.eqb_eq in E. exfalso. apply H. left. exact E.
  - apply IH. intros Hin. apply H. right. exact Hin.
Qed.

Lemma consistent_start_tallying tc env d election_id agg total :
  consistent d ->
  first (session_of election_id) (tallying_sessions d) = None ->
  consistent (start_tallying_writes tc env d election_id agg total).
Proof.
  intros (I1 & I2 & I3) Hnone.
  pose proof (first_none_not_in s_election_id election_id _ Hnone) as Hfresh.
  unfold consistent, start_tallying_writes, count_partials. simpl.
  split; [|split].
  - intros s Hin. apply in_app_or in Hin. destruct Hin as [Hin | [<- | []]].
    + apply I1. exact Hin.
    + simpl. symmetry. apply count_partials_zero.
      intros Hin. apply in_map_iff in Hin. destruct Hin as (p & Hp & Hin).
      apply Hfresh. rewrite <- Hp. apply I3. exact Hin.
  - rewrite map_app. simpl.
    apply NoDup_app_remove_l with (l := []). simpl.
    apply Permutation_NoDup with (l := election_id :: map s_election_id (tallying_sessions d)).
    + apply Permutation_cons_append.
    + constructor; assumption.
  - intros p Hin. rewrite map_app. apply in_or_app. left. apply I3. exact Hin.
Qed.

Lemma consistent_partial_decrypt env d session election_id trustee_id presult :
  consistent d ->
  first (session_of election_id) (tallying_sessions d) = Some session ->
  consistent (partial_decrypt_writes env d session election_id trustee_id presult).
Proof.
  intros (I1 & I2 & I3) Hs.
  apply first_some_In in Hs. destruct Hs as [Hin_s Hkey].
  unfold session_of in Hkey. apply String.eqb_eq in Hkey.
  unfold consistent, partial_decrypt_writes. simpl.
  change (session_of election_id) with (fun r => String.eqb (s_election_id r) election_id).
  rewrite (update_first_unique s_election_id election_id bump_session _ I2).
  assert (Hkeys : map s_election_id
                    (map (fun r => if String.eqb (s_election_id r) election_id
                                   then bump_session r else r) (tallying_sessions d))
                  = map s_election_id (tallying_sessions d)).
  { rewrite map_map. apply map_ext. intros r.
    destruct (String.eqb (s_election_id r) election_id); reflexivity. }
  split; [|split].
  - intros s' Hin. apply in_map_iff in Hin. destruct Hin as (s & Hs' & Hin).
    unfold count_partials at 1. simpl. rewrite count_partials_app. simpl.
    destruct (String.eqb (s_election_id s) election_id) eqn:E; subst s'.
    + apply String.eqb_eq in E. simpl. rewrite E, String.eqb_refl. simpl.
      rewrite (I1 s Hin), E. lia.
    + rewrite String.eqb_sym, E. simpl. rewrite (I1 s Hin). lia.
  - rewrite Hkeys. exact I2.
  - intros p Hin. rewrite Hkeys. apply in_app_or in Hin. destruct Hin as [Hin | [<- | []]].
    + apply I3. exact Hin.
    + simpl. rewrite <- Hkey. apply in_map. exact Hin_s.
Qed.

Lemma consistent_finalize_tally env d election_id final_tally total_votes hash :
  consistent d ->
  consistent (finalize_tally_writes env d election_id final_tally total_votes hash).
Proof.
  intros (I1 & I2 & I3).
  unfold consistent, finalize_tally_writes. simpl.
  change (session_of election_id) with (fun r => String.eqb (s_election_id r) election_id).
  rewrite (update_first_unique s_election_id election_id _ _ I2).
  assert (Hkeys : forall now,
             map s_election_id
               (map (fun r => if String.eqb (s_election_id r) election_id
                              then complete_session now r else r) (tallying_sessions d))
             = map s_election_id (tallying_sessions d)).
  { intros now. rewrite map_map. apply map_ext. intros r.
    destruct (String.eqb (s_election_id r) election_id); reflexivity. }
  split; [|split].
  - intros s' Hin. apply in_map_iff in Hin. destruct Hin as (s & Hs' & Hin).
    unfold count_partials. simpl. fold (count_partials d (s_election_id s')).
    destruct (String.eqb (s_election_id s) election_id); subst s'; simpl;
      apply (I1 s Hin).
  - rewrite Hkeys. exact I2.
  - intros p Hin. rewrite Hkeys. apply I3. exact Hin.
Qed.

Lemma consistent_same_tables d d' :
  tallying_sessions d' = tallying_sessions d ->
  partial_decryptions d' = partial_decryptions d ->
  consistent d -> consistent d'.
Proof.
  unfold consistent, count_partials. intros -> ->. tauto.
Qed.

Lemma start_tallying_db tc env w election_id :
  db (fst (start_tallying tc env w election_id)) = db w \/
  exists agg total,
    first (session_of election_id) (tallying_sessions (db w)) = None /\
    db (fst (start_tallying tc env w election_id))
    = start_tallying_writes tc env (db w) election_id agg total.
Proof.
  unfold start_tallying.
  destruct (first (by_election election_id) _) as [election|]; [|left; reflexivity].
  destruct (negb _); [left; reflexivity|].
  destruct (first (session_of election_id) _) eqn:Hs; [left; reflexivity|].
  destruct (filter _ _) as [|v votes]; [left; reflexivity|].
  destruct (reraise _ _) as [agg| |]; try (left; reflexivity).
  match goal with
  | |- context [commit ?d] => destruct (commit d) as [d'| |] eqn:Hc; try (left; reflexivity)
  end.
  apply commit_returns in Hc. subst d'.
  right. eexists. eexists. split; reflexivity.
Qed.

Lemma partial_decrypt_db env w election_id trustee_id :
  db (fst (partial_decrypt env w election_id trustee_id)) = db w \/
  exists session presult,
    first (session_of election_id) (tallying_sessions (db w)) = Some session /\
    db (fst (partial_decrypt env w election_id trustee_id))
    = partial_decrypt_writes env (db w) session election_id trustee_id presult.
Proof.
  destruct (snd (partial_decrypt env w election_id trustee_id)) as [r| |] eqn:Hr.
  - right. destruct (partial_decrypt_returns _ _ _ _ _ Hr)
      as (session & trustee & share & enc1 & presult & Hs & _ & _ & _ & _ & _ & Hw & _).
    exists session, presult. rewrite Hw. split; [exact Hs | reflexivity].
  - left. apply partial_decrypt_failure_keeps_db. intros r Hr'. congruence.
  - left. apply partial_decrypt_failure_keeps_db. intros r Hr'. congruence.
Qed.

Lemma finalize_tally_db env w election_id :
  db (fst (finalize_tally env w election_id)) = db w \/
  exists final_tally total_votes hash,
    db (fst (finalize_tally env w election_id))
    = finalize_tally_writes env (db w) election_id final_tally total_votes hash.
Proof.
  destruct (snd (finalize_tally env w election_id)) as [r| |] eqn:Hr.
  - right. destruct (finalize_tally_returns _ _ _ _ Hr) as (_ & _ & Hdb & _).
    eexists. eexists. eexists. exact Hdb.
  - left. rewrite finalize_tally_failure_keeps_world; [reflexivity|]. congruence.
  - left. rewrite finalize_tally_failure_keeps_world; [reflexivity|]. congruence.
Qed.

Lemma delete_trustee_tables d trustee_id d' :
  Routers.delete_trustee d trustee_id = Some d' ->
  tallying_sessions d' = tallying_sessions d /\
  partial_decryptions d' = partial_decryptions d.
Proof.
  unfold Routers.delete_trustee. destruct (first _ _); [|discriminate].
  intros H. injection H as <-. split; reflexivity.
Qed.

Lemma step_consistent tc w w' :
  step tc w w' -> consistent (db w) -> consistent (db w').
Proof.
  intros Hstep Hc. destruct Hstep as [env w eid|env w eid tid|env w eid|w tid d' Hd|w|w w' Hs Hp].
  - destruct (start_tallying_db tc env w eid) as [-> | (agg & total & Hnone & ->)];
      [exact Hc | apply consistent_start_tallying; assumption].
  - destruct (partial_decrypt_db env w eid tid) as [-> | (session & presult & Hs & ->)];
      [exact Hc | apply consistent_partial_decrypt; assumption].
  - destruct (finalize_tally_db env w eid) as [-> | (ft & tv & h & ->)];
      [exact Hc | apply consistent_finalize_tally; assumption].
  - apply delete_trustee_tables in Hd. destruct Hd as [Hs Hp].
    exact (consistent_same_tables _ _ Hs Hp Hc).
  - unfold consistent, count_partials. simpl. split; [|split].
    + intros s [].
    + constructor.
    + intros p [].
  - exact (consistent_same_tables _ _ Hs Hp Hc).
Qed.

Lemma reachable_consistent tc w : reachable tc w -> consistent (db w).
Proof.
  induction 1 as [w Hs Hp | w w' _ IH Hstep].
  - unfold consistent, count_partials. rewrite Hs, Hp. simpl. split; [|split].
    + intros s [].
    + constructor.
    + intros p [].
  - exact (step_consistent tc w w' Hstep IH).
Qed.

(** A row found after an update is the row found before, possibly updated. *)
Lemma first_after_update {A} (f f0 : A -> bool) (g : A -> A) (l : list A) (r r' : A) :
  (forall x, f (g x) = f x) ->
  first f l = Some r ->
  first f (update_first f0 g l) = Some r' ->
  r' = r \/ r' = g r.
Proof.
  intros Hfg. unfold first. induction l as [|x l IH]; simpl; [discriminate|].
  destruct (f0 x) eqn:E0; simpl.
  - rewrite Hfg. destruct (f x); intros H1 H2.
    + right. congruence.
    + left. congruence.
  - destruct (f x); intros H1 H2.
    + left. congruence.
    + exact (IH H1 H2).
Qed.

Lemma step_monotone tc w w' election_id s s' :
  step tc w w' ->
  first (session_of election_id) (tallying_sessions (db w)) = Some s ->
  first (session_of election_id) (tallying_sessions (db w')) = Some s' ->
  s_completed_trustees s <= s_completed_trustees s'.
Proof.
  intros Hstep. destruct Hstep as [env w eid|env w eid tid|env w eid|w tid d' Hd|w|w w' Hs Hp].
  - destruct (start_tallying_db tc env w eid) as [-> | (agg & total & Hnone & ->)].
    + intros H1 H2. rewrite H1 in H2. injection H2 as <-. lia.
    + unfold start_tallying_writes. simpl. intros H1. rewrite first_app, H1.
      intros H2. injection H2 as <-. lia.
  - destruct (partial_decrypt_db env w eid tid) as [-> | (session & presult & Hs & ->)].
    + intros H1 H2. rewrite H1 in H2. injection H2 as <-. lia.
    + unfold partial_decrypt_writes. simpl. intros H1 H2.
      destruct (first_after_update _ _ _ _ _ _ (session_of_bump election_id) H1 H2)
        as [-> | ->]; simpl; lia.
  - destruct (finalize_tally_db env w eid) as [-> | (ft & tv & h & ->)].
    + intros H1 H2. rewrite H1 in H2. injection H2 as <-. lia.
    + unfold finalize_tally_writes. simpl. intros H1 H2.
      assert (Hpres : forall x, session_of election_id (complete_session (utcnow env 1) x)
                                = session_of election_id x) by reflexivity.
      destruct (first_after_update _ _ _ _ _ _ Hpres H1 H2) as [-> | ->]; simpl; lia.
  - apply delete_trustee_tables in Hd. destruct Hd as [Hs _]. simpl. rewrite Hs.
    intros H1 H2. rewrite H1 in H2. injection H2 as <-. lia.
  - simpl. discriminate.
  - rewrite Hs. intros H1 H2. rewrite H1 in H2. injection H2 as <-. lia.
Qed.

(** C8: in every reachable state, the [completed_trustees] of each session
    is the number of stored partial decryptions of its election, and no
    request makes the counter of a session smaller. *)
Theorem completed_trustees_counts_partials tc w :
  reachable tc w ->
  (forall s, In s (tallying_sessions (db w)) ->
             s_completed_trustees s = count_partials (db w) (s_election_id s))
  /\ (forall w' election_id s s',
        step tc w w' ->
        first (session_of election_id) (tallying_sessions (db w)) = Some s ->
        first (session_of election_id) (tallying_sessions (db w')) = Some s' ->
        s_completed_trustees s <= s_completed_trustees s').
Proof.
  intros Hreach. split.
  - exact (proj1 (reachable_consistent tc w Hreach)).
  - intros w' election_id s s' Hstep. exact (step_monotone tc w w' election_id s s' Hstep).
Qed.

End Counter.

Lemma scenario_w3_reachable : Machine.reachable Scenario.tc Scenario.w3.
Proof.
  eapply Machine.reachable_step; [|exact (Machine.step_partial_decrypt _ _ _ _ _)].
  eapply Machine.reachable_step; [|exact (Machine.step_partial_decrypt _ _ _ _ _)].
  eapply Machine.reachable_step; [|exact (Machine.step_start_tallying _ _ _ _)].
  apply Machine.reachable_init; reflexivity.
Qed.

Lemma completed_trustees_counts_partials_witness :
  Machine.reachable Scenario.tc Scenario.w3
  /\ (forall s, In s (Database.tallying_sessions (Tallying.db Scenario.w3)) ->
                Database.s_completed_trustees s = 2
                /\ Machine.count_partials (Tallying.db Scenario.w3)
                                          (Database.s_election_id s) = 2)
  /\ (forall s s',
        Database.first (Tallying.session_of Scenario.election_id)
                       (Database.tallying_sessions (Tallying.db Scenario.w3)) = Some s ->
        Database.first (Tallying.session_of Scenario.election_id)
                       (Database.tallying_sessions (Tallying.db Scenario.w4)) = Some s' ->
        Database.s_completed_trustees s <= Database.s_completed_trustees s').
Proof.
  destruct (completed_trustees_counts_partials Scenario.tc Scenario.w3 scenario_w3_reachable)
    as [Hcount Hmono].
  split; [exact scenario_w3_reachable | split].
  - intros s Hin. pose proof (Hcount s Hin) as E.
    assert (Hc : Database.s_completed_trustees s = 2).
    { vm_compute in Hin. destruct Hin as [<- | []]. reflexivity. }
    split; [exact Hc | rewrite <- E; exact Hc].
  - intros s s'. apply (Hmono Scenario.w4 Scenario.election_id s s').
    exact (Machine.step_partial_decrypt _ _ _ _ _).
Defined.

(** ** [reconstruct_secret]: what is checked *)

Section Reconstruct.
Import Py ThresholdCrypto.

Lemma lagrange_from_range points x prime : forall todo i result,
  0 < prime -> 0 <= result < prime ->
  0 <= lagrange_from i todo points x prime result < prime.
Proof.
  induction todo as [|[xi yi] todo IH]; intros i result Hp Hr; simpl; [exact Hr|].
  destruct (basis_from 0 i xi points x prime 1 1) as [numerator denominator].
  apply IH; [exact Hp|]. apply Z.mod_pos_bound. exact Hp.
Qed.

Lemma large_prime_bounds : 0 < _generate_large_prime < 256 ^ 32.
Proof. split; vm_compute; reflexivity. Qed.

Lemma int_to_bytes_returns i :
  0 <= i < 256 ^ 32 -> int_to_bytes i 32 = Return (be_bytes 32 i).
Proof.
  intros [Hlo Hhi]. unfold int_to_bytes.
  destruct (Z.ltb_spec i 0); [lia|].
  change (Z.of_nat 32) with 32.
  destruct (Z.leb_spec (256 ^ 32) i); [lia | reflexivity].
Qed.

(** C9 (amended): [reconstruct_secret] fails with "Insufficient shares: k <
    t" when fewer than [threshold] shares are supplied; with [threshold] or
    more it always returns a value, whether or not two points have the same
    x: no duplicate test exists. *)
Theorem reconstruct_secret_checks_length_only self shares :
  prime self = _generate_large_prime ->
  (Z.of_nat (List.length shares) < threshold self ->
   reconstruct_secret self shares
   = Raise (ValueError ("Insufficient shares: " +++ str (Z.of_nat (List.length shares))
                        +++ " < " +++ str (threshold self))))
  /\ (threshold self <= Z.of_nat (List.length shares) ->
      exists s, reconstruct_secret self shares = Return s).
Proof.
  intros Hprime. unfold reconstruct_secret. split; intros Hlen.
  - destruct (Z.ltb_spec (Z.of_nat (List.length shares)) (threshold self));
      [reflexivity | lia].
  - destruct (Z.ltb_spec (Z.of_nat (List.length shares)) (threshold self)); [lia|].
    rewrite Hprime.
    pose proof large_prime_bounds as [Hpos Hlt].
    match goal with
    | |- context [_lagrange_interpolation ?pts 0 _] =>
        pose proof (lagrange_from_range pts 0 _generate_large_prime pts 0%nat 0 Hpos
                      (conj (Z.le_refl 0) Hpos)) as Hr
    end.
    unfold _lagrange_interpolation.
    rewrite int_to_bytes_returns by lia.
    unfold bind. eexists. reflexivity.
Qed.

End Reconstruct.

Lemma module_instance_prime :
  ThresholdCrypto.prime ThresholdCrypto.threshold_crypto_service
  = ThresholdCrypto._generate_large_prime.
Proof. reflexivity. Qed.

Lemma reconstruct_secret_checks_length_only_witness :
  ThresholdCrypto.prime ThresholdCrypto.threshold_crypto_service
  = ThresholdCrypto._generate_large_prime
  /\ ThresholdCrypto.reconstruct_secret ThresholdCrypto.threshold_crypto_service
       (firstn 2 Scenario.shares_of_abc)
     = Py.Raise (Py.ValueError "Insufficient shares: 2 < 3")
  /\ exists s, ThresholdCrypto.reconstruct_secret ThresholdCrypto.threshold_crypto_service
                 (firstn 3 Scenario.shares_of_abc) = Py.Return s.
Proof.
  pose proof (proj1 (reconstruct_secret_checks_length_only
                       ThresholdCrypto.threshold_crypto_service
                       (firstn 2 Scenario.shares_of_abc) module_instance_prime)) as Ha.
  pose proof (proj2 (reconstruct_secret_checks_length_only
                       ThresholdCrypto.threshold_crypto_service
                       (firstn 3 Scenario.shares_of_abc) module_instance_prime)) as Hb.
  split; [exact module_instance_prime | split].
  - refine (eq_trans (Ha _) _); vm_compute; reflexivity.
  - apply Hb. vm_compute. discriminate.
Defined.

(** C9, as stated, fails in its second half: given share 1 twice and share
    2, three points of which two have x = 1, [reconstruct_secret] returns a
    string instead of failing. *)
Lemma reconstruct_secret_duplicate_counterexample :
  ~ (forall self a b rest,
       ThresholdCrypto.x (ThresholdCrypto.share_payload a)
       = ThresholdCrypto.x (ThresholdCrypto.share_payload b) ->
       exists e, ThresholdCrypto.reconstruct_secret self (a :: b :: rest) = Py.Raise e).
Proof.
  intros claim.
  pose (s1 := ThresholdCrypto.mk_share 1
                (ThresholdCrypto.mk_share_data 1 1 24691 3 5) 1).
  pose (s2 := ThresholdCrypto.mk_share 2
                (ThresholdCrypto.mk_share_data 2 2 74074 3 5) 2).
  pose proof (claim ThresholdCrypto.threshold_crypto_service s1 s1 [s2] eq_refl) as He.
  destruct He as [e He]. vm_compute in He. discriminate He.
Qed.

(** ** Arithmetic modulo a prime and its square *)

Section Congruences.

Lemma cong_divide m a b : m <> 0 -> a mod m = b mod m <-> (m | a - b).
Proof.
  intros Hm. split.
  - intros H. exists (a / m - b / m).
    rewrite (Z.div_mod a m Hm) at 1. rewrite (Z.div_mod b m Hm) at 1. rewrite H. ring.
  - intros [k Hk]. replace a with (b + k * m) by lia. apply Z_mod_plus_full.
Qed.

Lemma cong_one_pow m a j : 0 < m -> 0 <= j -> a mod m = 1 mod m -> a ^ j mod m = 1 mod m.
Proof.
  intros Hm Hj Ha. rewrite Zpower_mod by exact Hm. rewrite Ha.
  rewrite <- Zpower_mod by exact Hm. rewrite Z.pow_1_l by exact Hj. reflexivity.
Qed.

(** (1 + m x)^j = 1 + j m x modulo m^2. *)
Lemma one_plus_pow m x j :
  m <> 0 -> 0 <= j -> (1 + m * x) ^ j mod (m * m) = (1 + j * m * x) mod (m * m).
Proof.
  intros Hm Hj. pattern j. apply natlike_ind; [| |exact Hj].
  - rewrite Z.pow_0_r. f_equal; ring.
  - intros i Hi IH. rewrite Z.pow_succ_r by exact Hi.
    rewrite <- Z.mul_mod_idemp_r by nia. rewrite IH.
    rewrite Z.mul_mod_idemp_r by nia.
    apply cong_divide; [nia|]. exists (i * x * x). ring.
Qed.

End Congruences.

Section Fermat.

Variable p : Z.
Hypothesis Hp : Z.prime p.

Let p_pos : 0 < p.
Proof. pose proof (Z.prime_ge_2 p Hp). lia. Qed.

Lemma In_residues x : In x (residues p) <-> 1 <= x < p.
Proof.
  unfold residues. rewrite in_map_iff. split.
  - intros (k & <- & Hk). apply in_seq in Hk. lia.
  - intros Hx. exists (Z.to_nat x). split; [lia|]. apply in_seq. lia.
Qed.

Lemma residue_not_divisible x : 1 <= x < p -> ~ (p | x).
Proof.
  intros Hx [k Hk]. pose proof p_pos.
  assert (Hc : k <= 0 \/ 1 <= k) by lia. destruct Hc; nia.
Qed.

Lemma prime_divides_mul a b : (p | a * b) -> (p | a) \/ (p | b).
Proof. intros H. apply Z.divide_prime_mul in H; assumption. Qed.

Lemma Zprod_map_scale a (l : list Z) :
  Zprod (map (fun x => (a * x) mod p) l) mod p
  = (a ^ Z.of_nat (List.length l) * Zprod l) mod p.
Proof.
  induction l as [|x l IH].
  - simpl. reflexivity.
  - cbn [map Zprod fold_right List.length]. fold (Zprod (map (fun x => (a * x) mod p) l)).
    fold (Zprod l).
    rewrite Z.mul_mod_idemp_l by lia.
    rewrite <- Z.mul_mod_idemp_r by lia. rewrite IH.
    rewrite Z.mul_mod_idemp_r by lia.
    rewrite Nat2Z.inj_succ, Z.pow_succ_r by lia. f_equal. ring.
Qed.

Lemma Zprod_Permutation l l' : Permutation l l' -> Zprod l = Zprod l'.
Proof.
  induction 1; cbn [Zprod fold_right] in *; try lia.
  fold (Zprod l) (Zprod l') in *. lia.
Qed.

Lemma Zprod_coprime l : (forall x, In x l -> ~ (p | x)) -> ~ (p | Zprod l).
Proof.
  induction l as [|x l IH]; intros Hl.
  - cbn. intros [k Hk]. pose proof (Z.prime_ge_2 p Hp).
    assert (Hc : k <= 0 \/ 1 <= k) by lia. destruct Hc; nia.
  - cbn [Zprod fold_right]. fold (Zprod l). intros Hd.
    apply prime_divides_mul in Hd. destruct Hd as [Hd | Hd].
    + exact (Hl x (or_introl eq_refl) Hd).
    + apply IH; [|exact Hd]. intros y Hy. apply Hl. right. exact Hy.
Qed.

Lemma scaled_residues_Permutation a :
  ~ (p | a) ->
  Permutation (map (fun x => (a * x) mod p) (residues p)) (residues p).
Proof.
  intros Ha. apply Permutation_map_same_l.
  - apply Injective_map_NoDup_in.
    + intros x y Hx Hy Hxy. apply In_residues in Hx, Hy.
      apply cong_divide in Hxy; [|lia].
      replace (a * x - a * y) with (a * (x - y)) in Hxy by ring.
      apply prime_divides_mul in Hxy. destruct Hxy as [Hd | [k Hk]]; [contradiction|].
      assert (k = 0) by nia. lia.
    + unfold residues. apply Injective_map_NoDup; [|apply seq_NoDup].
      intros x y Hxy. lia.
  - intros y Hy. apply in_map_iff in Hy. destruct Hy as (x & <- & Hx).
    apply In_residues in Hx. apply In_residues.
    pose proof (Z.mod_pos_bound (a * x) p p_pos) as Hb.
    assert ((a * x) mod p <> 0); [|lia].
    intros H0. apply Z.mod_divide in H0; [|lia].
    apply prime_divides_mul in H0. destruct H0 as [H0 | H0]; [contradiction|].
    exact (residue_not_divisible x Hx H0).
Qed.

(** Fermat's little theorem. *)
Lemma fermat_little a : ~ (p | a) -> a ^ (p - 1) mod p = 1.
Proof.
  intros Ha.
  pose proof (Zprod_map_scale a (residues p)) as Hs.
  rewrite (Zprod_Permutation _ _ (scaled_residues_Permutation a Ha)) in Hs.
  assert (Hlen : Z.of_nat (List.length (residues p)) = p - 1).
  { unfold residues. rewrite length_map, length_seq. lia. }
  rewrite Hlen in Hs.
  assert (Hd : (p | (a ^ (p - 1) - 1) * Zprod (residues p))).
  { apply cong_divide in Hs; [|lia]. destruct Hs as [k Hk]. exists (- k). lia. }
  apply prime_divides_mul in Hd. destruct Hd as [Hd | Hd].
  - pose proof (Z.prime_ge_2 p Hp).
    apply cong_divide in Hd; [|lia]. rewrite Hd. apply Z.mod_1_l. lia.
  - exfalso. revert Hd. apply Zprod_coprime. intros x Hx.
    apply residue_not_divisible. apply In_residues. exact Hx.
Qed.

(** Modulo p^2 the order of a unit divides p (p - 1). *)
Lemma fermat_square a : ~ (p | a) -> a ^ (p * (p - 1)) mod (p * p) = 1.
Proof.
  intros Ha. pose proof (Z.prime_ge_2 p Hp) as H2.
  pose proof (fermat_little a Ha) as Hf.
  assert (Hk : exists k, a ^ (p - 1) = 1 + p * k).
  { exists (a ^ (p - 1) / p). rewrite (Z.div_mod (a ^ (p - 1)) p) at 1 by lia. lia. }
  destruct Hk as [k Hk].
  replace (p * (p - 1)) with ((p - 1) * p) by ring.
  rewrite Z.pow_mul_r by lia. rewrite Hk.
  rewrite one_plus_pow by lia.
  replace (1 + p * p * k) with (1 + k * (p * p)) by ring.
  rewrite Z_mod_plus_full. apply Z.mod_1_l. nia.
Qed.

End Fermat.

(** ** [invert] and the two halves of [raw_decrypt] *)

Section Euclid.
Import Py Paillier.

Variables a b : Z.

Lemma eea_loop_spec : forall fuel r0 r1 s0 s1 t0 t1,
  r0 = s0 * a + t0 * b -> r1 = s1 * a + t1 * b ->
  0 <= r1 < r0 -> r0 * r1 < 2 ^ Z.of_nat fuel ->
  exists s t,
    eea_loop (S fuel) r0 r1 s0 s1 t0 t1 = Some (Z.gcd r0 r1, s, t) /\
    Z.gcd r0 r1 = s * a + t * b.
Proof.
  induction fuel as [|fuel IH]; intros r0 r1 s0 s1 t0 t1 H0 H1 Hr Hf.
  - assert (Hz : r1 = 0) by (change (2 ^ Z.of_nat 0) with 1 in Hf; nia).
    exists s0, t0. cbn [eea_loop]. rewrite Hz, Z.eqb_refl, Z.gcd_0_r, Z.abs_eq by lia.
    split; [reflexivity|assumption].
  - destruct (Z.eqb_spec r1 0) as [E|E].
    + exists s0, t0. cbn [eea_loop]. rewrite E, Z.eqb_refl, Z.gcd_0_r, Z.abs_eq by lia.
      split; [reflexivity|assumption].
    + cbn [eea_loop]. destruct (Z.eqb_spec r1 0) as [E'|_]; [contradiction|].
      assert (Hmod : r0 - r0 / r1 * r1 = r0 mod r1) by (rewrite Z.mod_eq by exact E; ring).
      pose proof (Z.mod_pos_bound r0 r1 ltac:(lia)) as Hb.
      assert (Hq : 1 <= r0 / r1) by (apply Z.div_le_lower_bound; lia).
      destruct (IH r1 (r0 - r0 / r1 * r1) s1 (s0 - r0 / r1 * s1) t1 (t0 - r0 / r1 * t1))
        as (s & t & Hs & Hg).
      * exact H1.
      * rewrite H0 at 1. rewrite H1 at 2. ring.
      * rewrite Hmod. lia.
      * rewrite Hmod. rewrite Nat2Z.inj_succ, Z.pow_succ_r in Hf by lia.
        assert (2 * (r0 mod r1) <= r0) by (rewrite <- Hmod in *; nia). nia.
      * rewrite Hmod in Hs, Hg. rewrite Z.gcd_comm, Z.gcd_mod in Hs, Hg by exact E.
        rewrite Z.gcd_comm in Hs, Hg.
        exists s, t. rewrite Hmod. split; assumption.
Qed.

Lemma extended_euclidean_algorithm_spec :
  0 < b ->
  exists s t,
    extended_euclidean_algorithm a b = Some (Z.gcd a b, s, t) /\
    Z.gcd a b = s * a + t * b.
Proof.
  intros Hb. unfold extended_euclidean_algorithm, eea_fuel.
  pose proof (Z.log2_nonneg b) as Hl.
  replace (Z.to_nat (2 * (Z.log2 b + 1) + 2))
    with (S (S (Z.to_nat (2 * (Z.log2 b + 1))))) by lia.
  cbn [eea_loop]. destruct (Z.eqb_spec b 0) as [E|E]; [lia|].
  assert (Hmod : a - a / b * b = a mod b) by (rewrite Z.mod_eq by exact E; ring).
  pose proof (Z.mod_pos_bound a b Hb) as Hm.
  destruct (eea_loop_spec (Z.to_nat (2 * (Z.log2 b + 1))) b (a - a / b * b)
              0 (1 - a / b * 0) 1 (0 - a / b * 1)) as (s & t & Hs & Hg).
  - ring.
  - ring.
  - rewrite Hmod. lia.
  - rewrite Hmod, Z2Nat.id by lia.
    replace (2 * (Z.log2 b + 1)) with ((Z.log2 b + 1) + (Z.log2 b + 1)) by ring.
    rewrite Z.pow_add_r by lia.
    pose proof (Z.log2_spec b Hb) as [_ Hlt]. unfold Z.succ in Hlt. nia.
  - rewrite Hmod in Hs, Hg. rewrite Z.gcd_comm, Z.gcd_mod in Hs, Hg by exact E.
    rewrite Z.gcd_comm in Hs, Hg.
    exists s, t. rewrite Hmod. split; assumption.
Qed.

(** [invert] returns the inverse modulo [b] whenever there is one. *)
Lemma invert_coprime :
  0 < b -> Z.coprime a b ->
  exists s, invert a b = Return s /\ 0 <= s < b /\ (a * s) mod b = 1 mod b.
Proof.
  intros Hb Hc. destruct (extended_euclidean_algorithm_spec Hb) as (s & t & Hs & Hg).
  unfold invert. rewrite Hs. unfold Z.coprime in Hc. rewrite Hc in Hg |- *.
  simpl. exists (s mod b). split; [reflexivity|].
  split; [apply Z.mod_pos_bound; exact Hb|].
  rewrite Z.mul_mod_idemp_r by lia.
  replace (a * s) with (1 + (- t) * b) by lia. apply Z_mod_plus_full.
Qed.

Lemma invert_not_coprime :
  0 < b -> ~ Z.coprime a b ->
  invert a b = Raise (ZeroDivisionError "invert() no inverse exists").
Proof.
  intros Hb Hc. destruct (extended_euclidean_algorithm_spec Hb) as (s & t & Hs & Hg).
  unfold invert. rewrite Hs. destruct (Z.eqb_spec (Z.gcd a b) 1); [contradiction|reflexivity].
Qed.

End Euclid.

Section HalfDecryption.
Import Py Paillier.

(** The two halves of [raw_decrypt] are the same computation with the
    roles of the primes exchanged. *)
Variables p q : Z.
Hypothesis Hp : Z.prime p.
Hypothesis Hq : Z.prime q.
Hypothesis Hpq : p <> q.

Let p_ge_2 : 2 <= p := Z.prime_ge_2 p Hp.
Let q_ge_2 : 2 <= q := Z.prime_ge_2 q Hq.

Lemma distinct_primes_not_divide : ~ (p | q).
Proof.
  intros H. apply Z.divide_prime_prime in H; [|assumption|assumption]. contradiction.
Qed.

Lemma pred_not_divisible : ~ (p | p - 1).
Proof.
  intros [k Hk]. pose proof p_ge_2.
  assert (Hc : k <= 0 \/ 1 <= k) by lia. destruct Hc; nia.
Qed.

Lemma unit_factor_not_divisible : ~ (p | (p - 1) * q).
Proof.
  intros H. apply (prime_divides_mul p Hp) in H. destruct H as [H | H].
  - exact (pred_not_divisible H).
  - exact (distinct_primes_not_divide H).
Qed.

Lemma mod_square_shape y : (1 + p * y) mod (p * p) = 1 + p * (y mod p).
Proof.
  pose proof p_ge_2. pose proof (Z.mod_pos_bound y p ltac:(lia)) as Hb.
  rewrite (Z.div_mod y p) at 1 by lia.
  replace (1 + p * (p * (y / p) + y mod p)) with (1 + p * (y mod p) + (y / p) * (p * p)) by ring.
  rewrite Z_mod_plus_full. apply Z.mod_small. nia.
Qed.

Lemma l_function_shape y : l_function (1 + p * (y mod p)) p = y mod p.
Proof.
  pose proof p_ge_2. unfold l_function.
  replace (1 + p * (y mod p) - 1) with ((y mod p) * p) by ring.
  apply Z.div_mul. lia.
Qed.

Lemma powmod_spec c e m : 1 < m -> 0 <= e -> powmod c e m = c ^ e mod m.
Proof.
  intros Hm He. unfold powmod, Py.powmod. destruct (Z.eqb_spec c 1) as [->|_].
  - rewrite Z.pow_1_l by assumption. symmetry. apply Z.mod_1_l. exact Hm.
  - apply Zpow_mod_correct. lia.
Qed.

(** With obfuscator [R] prime to [p], the ciphertext of [M] raised to
    [p - 1] has the shape [1 + p * ((p - 1) q M mod p)] modulo [p * p]. *)
Lemma ciphertext_pow c M R :
  ~ (p | R) ->
  c mod (p * p) = ((1 + p * q * M) * R ^ (p * q)) mod (p * p) ->
  c ^ (p - 1) mod (p * p) = 1 + p * (((p - 1) * q * M) mod p).
Proof.
  intros HR Hc. pose proof p_ge_2. pose proof q_ge_2.
  rewrite Zpower_mod by nia. rewrite Hc. rewrite <- Zpower_mod by nia.
  rewrite Z.pow_mul_l.
  rewrite <- Z.pow_mul_r by nia.
  replace (p * q * (p - 1)) with (p * (p - 1) * q) by ring.
  rewrite Z.pow_mul_r by nia.
  rewrite <- Z.mul_mod_idemp_r by nia.
  rewrite (cong_one_pow (p * p) (R ^ (p * (p - 1))) q) by
      (try nia; rewrite (fermat_square p Hp R HR); symmetry; apply Z.mod_1_l; nia).
  rewrite Z.mul_mod_idemp_r by nia. rewrite Z.mul_1_r.
  replace (1 + p * q * M) with (1 + p * (q * M)) by ring.
  rewrite one_plus_pow by lia.
  replace (1 + (p - 1) * p * (q * M)) with (1 + p * ((p - 1) * q * M)) by ring.
  apply mod_square_shape.
Qed.

Lemma h_function_spec :
  exists h,
    h_function (mk_public_key (p * q)) p (p * p) = Return h /\
    0 <= h < p /\
    ((((p - 1) * q) mod p) * h) mod p = 1.
Proof.
  pose proof p_ge_2. pose proof q_ge_2.
  unfold h_function, g. cbn [n].
  rewrite powmod_spec by nia.
  replace (p * q + 1) with (1 + p * q) by ring.
  rewrite one_plus_pow by lia.
  replace (1 + (p - 1) * p * q) with (1 + p * ((p - 1) * q)) by ring.
  rewrite mod_square_shape, l_function_shape.
  destruct (invert_coprime (((p - 1) * q) mod p) p ltac:(lia)) as (h & Hh & Hr & Hinv).
  - apply Z.coprime_mod_l_iff. unfold Z.coprime. rewrite Z.gcd_comm.
    apply Z.coprime_prime_l; [exact Hp | exact unit_factor_not_divisible].
  - exists h. rewrite Z.mod_1_l in Hinv by lia. auto.
Qed.

Lemma half_decrypt c M R h :
  ~ (p | R) ->
  c mod (p * p) = ((1 + p * q * M) * R ^ (p * q)) mod (p * p) ->
  ((((p - 1) * q) mod p) * h) mod p = 1 ->
  mulmod (l_function (powmod c (p - 1) (p * p)) p) h p = M mod p.
Proof.
  intros HR Hc Hh. pose proof p_ge_2.
  rewrite powmod_spec by nia.
  rewrite (ciphertext_pow c M R HR Hc), l_function_shape.
  unfold mulmod.
  rewrite Z.mul_mod_idemp_l by lia.
  replace ((p - 1) * q * M * h) with (M * ((p - 1) * q * h)) by ring.
  rewrite <- Z.mul_mod_idemp_r by lia.
  rewrite <- (Z.mul_mod_idemp_l ((p - 1) * q)) by lia.
  rewrite Hh, Z.mul_1_r. reflexivity.
Qed.

End HalfDecryption.

(** ** Keys, decryption and encryption in [phe.paillier] *)

Section PrivateKey.
Import Py Paillier.

Lemma coprime_distinct_primes p q : Z.prime p -> Z.prime q -> p <> q -> Z.coprime p q.
Proof.
  intros Hp Hq Hpq. apply Z.coprime_prime_l; [exact Hp|].
  apply distinct_primes_not_divide; assumption.
Qed.

Lemma sorted_private_key p q :
  Z.prime p -> Z.prime q -> p < q ->
  exists pinv h1 h2,
    invert p q = Return pinv /\
    h_function (mk_public_key (p * q)) p (p * p) = Return h1 /\
    h_function (mk_public_key (p * q)) q (q * q) = Return h2 /\
    key_ok (mk_private_key (mk_public_key (p * q)) p q (p * p) (q * q) pinv h1 h2).
Proof.
  intros Hp Hq Hlt.
  pose proof (Z.prime_ge_2 p Hp). pose proof (Z.prime_ge_2 q Hq).
  destruct (invert_coprime p q ltac:(lia)) as (pinv & Hpinv & _ & Hinv).
  { apply coprime_distinct_primes; [assumption|assumption|lia]. }
  destruct (h_function_spec p q Hp Hq ltac:(lia)) as (h1 & Hh1 & _ & Hi1).
  destruct (h_function_spec q p Hq Hp ltac:(lia)) as (h2 & Hh2 & _ & Hi2).
  replace (q * p) with (p * q) in Hh2 by ring.
  exists pinv, h1, h2. rewrite Z.mod_1_l in Hinv by lia.
  split; [exact Hpinv|]. split; [exact Hh1|]. split; [exact Hh2|].
  unfold key_ok.
  cbn [Paillier.p Paillier.q sk_public_key n psquare qsquare p_inverse hp hq].
  refine (conj Hp (conj Hq (conj _ (conj eq_refl (conj eq_refl (conj eq_refl
            (conj Hinv (conj Hi1 Hi2)))))))).
  lia.
Qed.

(** Loading the two prime factors in either order builds a key. *)
Lemma new_private_key_primes p0 q0 :
  Z.prime p0 -> Z.prime q0 -> p0 <> q0 ->
  exists sk,
    new_private_key (mk_public_key (p0 * q0)) p0 q0 = Return sk /\
    sk_public_key sk = mk_public_key (p0 * q0) /\
    key_ok sk.
Proof.
  intros Hp Hq Hpq.
  pose proof (Z.prime_ge_2 p0 Hp). pose proof (Z.prime_ge_2 q0 Hq).
  unfold new_private_key. cbn [n].
  rewrite Z.eqb_refl. cbn [negb].
  destruct (Z.eqb_spec p0 q0) as [E|_]; [contradiction|].
  destruct (Z.leb_spec p0 0); [lia|]. destruct (Z.leb_spec q0 0); [lia|].
  cbn [orb].
  destruct (Z.ltb_spec q0 p0) as [Hlt|Hge].
  - destruct (sorted_private_key q0 p0 Hq Hp Hlt) as (pinv & h1 & h2 & E1 & E2 & E3 & Hok).
    replace (q0 * p0) with (p0 * q0) in E2, E3, Hok by ring.
    rewrite E1. cbn [bind]. rewrite E2. cbn [bind]. rewrite E3. cbn [bind].
    eexists. split; [reflexivity|]. split; [reflexivity|]. exact Hok.
  - destruct (sorted_private_key p0 q0 Hp Hq ltac:(lia))
      as (pinv & h1 & h2 & E1 & E2 & E3 & Hok).
    rewrite E1. cbn [bind]. rewrite E2. cbn [bind]. rewrite E3. cbn [bind].
    eexists. split; [reflexivity|]. split; [reflexivity|]. exact Hok.
Qed.

End PrivateKey.

Section Decryption.
Import Py Paillier.

Lemma coprime_mul_not_divide p q R : 1 < p -> Z.coprime R (p * q) -> ~ (p | R).
Proof.
  intros Hp Hc [k Hk]. unfold Z.coprime in Hc.
  assert (Hd : (p | Z.gcd R (p * q))).
  { apply Z.gcd_greatest; [exists k; exact Hk | exists q; ring]. }
  rewrite Hc in Hd. destruct Hd as [j Hj].
  assert (Hcase : j <= 0 \/ 1 <= j) by lia. destruct Hcase; nia.
Qed.

(** Two residues determine a number below [p * q]. *)
Lemma chinese_remainder_unique p q x M :
  1 < p -> 1 < q -> Z.coprime p q ->
  0 <= x < p * q -> x mod p = M mod p -> x mod q = M mod q ->
  x = M mod (p * q).
Proof.
  intros Hp Hq Hc Hx Hxp Hxq.
  apply cong_divide in Hxp; [|lia]. apply cong_divide in Hxq; [|lia].
  destruct Hxp as [k Hk].
  assert (Hqk : (q | k)).
  { apply Z.gauss with (m := p).
    - rewrite Z.mul_comm, <- Hk. exact Hxq.
    - rewrite Z.gcd_comm. exact Hc. }
  destruct Hqk as [j Hj].
  rewrite <- (Z.mod_small x (p * q)) by exact Hx.
  apply cong_divide; [nia|]. exists j. rewrite Hk, Hj. ring.
Qed.

Lemma crt_spec sk M :
  key_ok sk ->
  crt sk (M mod p sk) (M mod q sk) = M mod (p sk * q sk).
Proof.
  intros (Hp & Hq & Hpq & _ & _ & _ & Hinv & _).
  pose proof (Z.prime_ge_2 _ Hp). pose proof (Z.prime_ge_2 _ Hq).
  pose proof (Z.mod_pos_bound M (p sk) ltac:(lia)) as Hmp.
  unfold crt, mulmod.
  pose proof (Z.mod_pos_bound ((M mod q sk - M mod p sk) * p_inverse sk) (q sk) ltac:(lia))
    as Hu.
  apply chinese_remainder_unique; try lia.
  - apply coprime_distinct_primes; assumption.
  - nia.
  - rewrite Z_mod_plus_full. apply Z.mod_mod. lia.
  - rewrite <- Z.add_mod_idemp_r by lia.
    rewrite Z.mul_mod_idemp_l by lia.
    replace ((M mod q sk - M mod p sk) * p_inverse sk * p sk)
      with ((M mod q sk - M mod p sk) * (p sk * p_inverse sk)) by ring.
    rewrite <- Z.mul_mod_idemp_r by lia. rewrite Hinv, Z.mul_1_r.
    rewrite Z.add_mod_idemp_r by lia.
    replace (M mod p sk + (M mod q sk - M mod p sk)) with (M mod q sk) by ring.
    apply Z.mod_mod. lia.
Qed.

Lemma raw_decrypt_spec sk c M :
  key_ok sk ->
  encodes (n (sk_public_key sk)) c M ->
  raw_decrypt sk c = M mod n (sk_public_key sk).
Proof.
  intros Hok (R & HR & Hc).
  pose proof Hok as (Hp & Hq & Hpq & Hn & Hps & Hqs & Hinv & Hhp & Hhq).
  pose proof (Z.prime_ge_2 _ Hp). pose proof (Z.prime_ge_2 _ Hq).
  rewrite Hn in *. unfold raw_decrypt. rewrite Hps, Hqs.
  assert (Hcp : c mod (p sk * p sk)
                = ((1 + p sk * q sk * M) * R ^ (p sk * q sk)) mod (p sk * p sk)).
  { rewrite <- (Z.mod_mod_divide c (p sk * q sk * (p sk * q sk))), Hc, Z.mod_mod_divide;
      [reflexivity | | ]; exists (q sk * q sk); ring. }
  assert (Hcq : c mod (q sk * q sk)
                = ((1 + q sk * p sk * M) * R ^ (q sk * p sk)) mod (q sk * q sk)).
  { rewrite <- (Z.mod_mod_divide c (p sk * q sk * (p sk * q sk))), Hc, Z.mod_mod_divide;
      [ | | ]; try (exists (p sk * p sk); ring).
    f_equal. f_equal; [ring | f_equal; ring]. }
  rewrite (half_decrypt (p sk) (q sk) Hp Hq Hpq c M R (hp sk)); try assumption.
  - rewrite (half_decrypt (q sk) (p sk) Hq Hp (not_eq_sym Hpq) c M R (hq sk));
      try assumption.
    + apply crt_spec. exact Hok.
    + apply (coprime_mul_not_divide (q sk) (p sk)); [lia|].
      rewrite Z.mul_comm. exact HR.
  - apply (coprime_mul_not_divide (p sk) (q sk)); [lia | exact HR].
Qed.

Lemma decrypt_spec sk e M :
  key_ok sk ->
  public_key e = sk_public_key sk ->
  exponent e = 0 ->
  encodes (n (sk_public_key sk)) (raw_ciphertext e) M ->
  0 <= M <= max_int (sk_public_key sk) ->
  decrypt sk e = Return M.
Proof.
  intros Hok Hpk Hexp Henc HM.
  pose proof Hok as (Hp & Hq & _ & Hn & _).
  pose proof (Z.prime_ge_2 _ Hp). pose proof (Z.prime_ge_2 _ Hq).
  unfold decrypt. rewrite Hpk. unfold pk_eqb. rewrite Z.eqb_refl. cbn [negb].
  rewrite (raw_decrypt_spec sk _ M Hok Henc), Hexp.
  unfold max_int in HM.
  assert (Hnpos : 0 < n (sk_public_key sk)) by nia.
  assert (Hdiv : n (sk_public_key sk) / 3 <= n (sk_public_key sk))
    by (apply Z.div_le_upper_bound; lia).
  rewrite Z.mod_small by lia.
  unfold decode, max_int.
  destruct (Z.leb_spec (n (sk_public_key sk)) M); [lia|].
  destruct (Z.leb_spec M (n (sk_public_key sk) / 3 - 1)); [|lia].
  cbn [bind]. change (0 <=? 0) with true. cbv iota.
  f_equal. change (BASE ^ 0) with 1. ring.
Qed.

End Decryption.

Section Ciphertexts.
Import Py Paillier.

Variable pk : PaillierPublicKey.
Hypothesis Hn : 2 <= n pk.

Lemma nsquare_gt_1 : 1 < n pk * n pk.
Proof. nia. Qed.

Lemma encodes_obfuscate c M r :
  encodes (n pk) c M -> Z.coprime r (n pk) ->
  encodes (n pk) (mulmod c (powmod r (n pk) (nsquare pk)) (nsquare pk)) M.
Proof.
  intros (R & HR & Hc) Hr. pose proof nsquare_gt_1.
  exists (R * r). split; [apply Z.coprime_mul_l; assumption|].
  unfold mulmod, nsquare. rewrite powmod_spec by lia.
  rewrite Z.mod_mod by lia.
  rewrite Z.mul_mod_idemp_r by lia.
  rewrite <- Z.mul_mod_idemp_l by lia. rewrite Hc.
  rewrite Z.mul_mod_idemp_l by lia.
  f_equal. rewrite Z.pow_mul_l. ring.
Qed.

Lemma encodes_mul c1 c2 M1 M2 :
  encodes (n pk) c1 M1 -> encodes (n pk) c2 M2 ->
  encodes (n pk) (mulmod c1 c2 (nsquare pk)) (M1 + M2).
Proof.
  intros (R1 & HR1 & Hc1) (R2 & HR2 & Hc2). pose proof nsquare_gt_1.
  exists (R1 * R2). split; [apply Z.coprime_mul_l; assumption|].
  unfold mulmod, nsquare. rewrite Z.mod_mod by lia.
  rewrite Z.mul_mod by lia. rewrite Hc1, Hc2. rewrite <- Z.mul_mod by lia.
  apply cong_divide; [lia|].
  exists (M1 * M2 * (R1 * R2) ^ n pk). rewrite Z.pow_mul_l. ring.
Qed.

Lemma encrypt_spec v r :
  0 <= v <= max_int pk -> Z.coprime r (n pk) ->
  exists e,
    encrypt pk v r = Return e /\
    public_key e = pk /\ exponent e = 0 /\ is_obfuscated e = true /\
    encodes (n pk) (raw_ciphertext e) v.
Proof.
  intros Hv Hr. pose proof nsquare_gt_1 as Hsq.
  assert (Hdiv : n pk / 3 <= n pk) by (apply Z.div_le_upper_bound; lia).
  assert (Hdiv3 : 3 * (n pk / 3) <= n pk) by (apply Z.mul_div_le; lia).
  unfold max_int in Hv.
  unfold encrypt, encode_int, max_int.
  rewrite Z.abs_eq by lia.
  destruct (Z.ltb_spec (n pk / 3 - 1) v); [lia|]. cbn [bind fst snd].
  rewrite Z.mod_small by lia.
  unfold raw_encrypt, max_int.
  destruct (Z.leb_spec (n pk - (n pk / 3 - 1)) v); [lia|]. cbn [andb bind].
  eexists. split; [reflexivity|]. cbn [obfuscate public_key exponent is_obfuscated raw_ciphertext].
  repeat split.
  apply encodes_obfuscate; [|exact Hr].
  exists 1. split; [apply Z.coprime_1_l|].
  unfold mulmod, powmod, nsquare. cbn [Z.eqb Pos.eqb].
  rewrite Z.mul_1_r, !Z.mod_mod by lia.
  rewrite Z.pow_1_l by lia. f_equal. ring.
Qed.

End Ciphertexts.

(** ** Homomorphic tallying *)

Section Ballots.

Lemma map_combine_same {A B C D} (f : A -> B) (g : A -> C) (h : B * C -> D) (l : list A) :
  map h (combine (map f l) (map g l)) = map (fun x => h (f x, g x)) l.
Proof. induction l as [|x l IH]; simpl; [reflexivity | rewrite IH; reflexivity]. Qed.

Lemma vadd_tally k l c : vadd (tally k l) (one_hot k c) = tally k (l ++ [c]).
Proof.
  unfold vadd, tally, one_hot. rewrite map_combine_same. apply map_ext.
  intros j. cbn [fst snd]. rewrite count_occ_app. cbn [count_occ].
  destruct (Z.eq_dec c j) as [->|Hne].
  - rewrite Z.eqb_refl. lia.
  - destruct (Z.eqb_spec j c); [congruence | lia].
Qed.

Lemma one_hot_tally k c : one_hot k c = tally k [c].
Proof.
  unfold tally, one_hot. apply map_ext. intros j. cbn [count_occ].
  destruct (Z.eq_dec c j) as [->|Hne].
  - rewrite Z.eqb_refl. reflexivity.
  - destruct (Z.eqb_spec j c); [congruence | reflexivity].
Qed.

Lemma fold_vadd_tally k rest : forall done,
  fold_left vadd (map (one_hot k) rest) (tally k done) = tally k (done ++ rest).
Proof.
  induction rest as [|c rest IH]; intros done; cbn [map fold_left].
  - rewrite app_nil_r. reflexivity.
  - rewrite vadd_tally, IH, <- app_assoc. reflexivity.
Qed.

Lemma tally_bounds k choices :
  Forall (fun m => 0 <= m <= Z.of_nat (List.length choices)) (tally k choices).
Proof.
  unfold tally. apply Forall_forall. intros m Hin. apply in_map_iff in Hin.
  destruct Hin as (j & <- & _).
  pose proof (count_occ_bound Z.eq_dec j choices). lia.
Qed.

Lemma length_tally k choices : List.length (tally k choices) = Z.to_nat k.
Proof. unfold tally, candidate_ids. rewrite !length_map, length_seq. reflexivity. Qed.

Lemma length_vadd u v : List.length u = List.length v -> List.length (vadd u v) = List.length u.
Proof.
  intros H. unfold vadd. rewrite length_map, length_combine. lia.
Qed.

Lemma map_zero_after c : forall K s,
  (c < s)%nat ->
  map (fun j => if j =? Z.of_nat c then 1 else 0) (map Z.of_nat (seq s K)) = repeat 0 K.
Proof.
  induction K as [|K IH]; intros s Hs; cbn [seq map repeat]; [reflexivity|].
  destruct (Z.eqb_spec (Z.of_nat s) (Z.of_nat c)); [lia|].
  rewrite IH by lia. reflexivity.
Qed.

Lemma assign_repeat : forall K s i,
  (i < K)%nat ->
  firstn i (repeat 0 K) ++ 1 :: skipn (S i) (repeat 0 K)
  = map (fun j => if j =? Z.of_nat (s + i) then 1 else 0) (map Z.of_nat (seq s K)).
Proof.
  induction K as [|K IH]; intros s i Hi; [lia|].
  destruct i as [|i].
  - cbn [repeat firstn skipn app seq map]. rewrite Nat.add_0_r, Z.eqb_refl.
    rewrite map_zero_after by lia. reflexivity.
  - cbn [repeat firstn app seq map]. rewrite skipn_cons.
    destruct (Z.eqb_spec (Z.of_nat s) (Z.of_nat (s + S i))); [lia|].
    rewrite (IH (S s) i) by lia.
    replace (S s + i)%nat with (s + S i)%nat by lia. reflexivity.
Qed.

Lemma list_assign_one_hot k c :
  1 <= c <= k ->
  Encryption.list_assign (repeat 0 (Z.to_nat k)) (c - 1) 1 = Py.Return (one_hot k c).
Proof.
  intros Hc. unfold Encryption.list_assign. rewrite repeat_length.
  destruct (Z.ltb_spec (c - 1) 0); [lia|].
  destruct (Z.ltb_spec (c - 1) 0); [lia|].
  destruct (Z.leb_spec (Z.of_nat (Z.to_nat k)) (c - 1)); [lia|].
  cbn [orb]. f_equal.
  rewrite (assign_repeat (Z.to_nat k) 1 (Z.to_nat (c - 1))) by lia.
  unfold one_hot, candidate_ids.
  replace (Z.of_nat (1 + Z.to_nat (c - 1))) with c by lia. reflexivity.
Qed.

End Ballots.

Section Service.
Import Py Paillier Encryption.

Variable sk : PaillierPrivateKey.
Variable self : HomomorphicEncryptionService.

Local Abbreviation pk := (sk_public_key sk).

Hypothesis Hpub : Encryption.public_key self = Some pk.
Hypothesis Hpriv : Encryption.private_key self = Some sk.
Hypothesis Hkey : key_ok sk.

Lemma modulus_ge_4 : 4 <= n pk.
Proof.
  destruct Hkey as (Hp & Hq & _ & Hn & _).
  pose proof (Z.prime_ge_2 _ Hp). pose proof (Z.prime_ge_2 _ Hq). nia.
Qed.

Lemma modulus_ge_2 : 2 <= n pk.
Proof. pose proof modulus_ge_4. lia. Qed.

Lemma deserialize_ok v ms :
  Forall2 (wire_ok (n pk)) v ms ->
  exists es, _deserialize_encrypted_vector self v = Return es /\ Forall2 (enc_ok pk) es ms.
Proof.
  intros H. unfold _deserialize_encrypted_vector. rewrite Hpub.
  eexists. split; [reflexivity|].
  induction H as [|w m v ms [Hexp Henc] _ IH]; cbn [map]; constructor; [|exact IH].
  repeat split; assumption.
Qed.

Lemma serialize_ok rnd es ms :
  (forall i, Z.coprime (rnd i) (n pk)) ->
  Forall2 (enc_ok pk) es ms ->
  forall i, Forall2 (wire_ok (n pk)) (serialize_from rnd i es) ms.
Proof.
  intros Hrnd H. induction H as [|e m es ms (Hpk & Hexp & Henc) _ IH]; intros i;
    cbn [serialize_from]; constructor; [|apply IH].
  split; [exact Hexp|]. cbn [Encryption.ciphertext].
  unfold ciphertext_secure. destruct (is_obfuscated e); cbn [fst]; [exact Henc|].
  unfold obfuscate. cbn [raw_ciphertext]. rewrite Hpk.
  apply encodes_obfuscate; [exact modulus_ge_2 | exact Henc | apply Hrnd].
Qed.

Lemma encrypt_from_ok rnd vs :
  (forall i, Z.coprime (rnd i) (n pk)) ->
  Forall (fun v => 0 <= v <= max_int pk) vs ->
  forall i, exists es, encrypt_from pk rnd i vs = Return es /\ Forall2 (enc_ok pk) es vs.
Proof.
  intros Hrnd H. induction H as [|v vs Hv _ IH]; intros i; cbn [encrypt_from].
  - exists []. split; [reflexivity | constructor].
  - destruct (encrypt_spec pk modulus_ge_2 v (rnd i) Hv (Hrnd i))
      as (e & He & Hpk & Hexp & _ & Henc).
    destruct (IH (S i)) as (es & Hes & Hok).
    rewrite He. cbn [bind]. rewrite Hes. cbn [bind].
    exists (e :: es). split; [reflexivity|]. constructor; [|exact Hok].
    repeat split; assumption.
Qed.

Lemma one_hot_small k c : 1 <= max_int pk -> Forall (fun v => 0 <= v <= max_int pk) (one_hot k c).
Proof.
  intros H. unfold one_hot. apply Forall_forall. intros v Hin.
  apply in_map_iff in Hin. destruct Hin as (j & <- & _).
  destruct (j =? c); lia.
Qed.

Lemma encrypt_vote_ok rnd c k :
  (forall i, Z.coprime (rnd i) (n pk)) ->
  1 <= max_int pk -> 1 <= c <= k ->
  exists v, encrypt_vote self rnd c k = Return v /\ Forall2 (wire_ok (n pk)) v (one_hot k c).
Proof.
  intros Hrnd Hmax Hc. unfold encrypt_vote. rewrite Hpub.
  rewrite (list_assign_one_hot k c Hc). cbn [bind].
  destruct (encrypt_from_ok rnd (one_hot k c) Hrnd (one_hot_small k c Hmax) 0%nat)
    as (es & Hes & Hok).
  rewrite Hes. cbn [bind]. eexists. split; [reflexivity|].
  apply serialize_ok; assumption.
Qed.

Lemma skipn_cons_inv {A} (l : list A) : forall i b r,
  skipn i l = b :: r -> nth_error l i = Some b /\ skipn (S i) l = r.
Proof.
  induction l as [|a l IH]; intros i b r H.
  - destruct i; discriminate H.
  - destruct i as [|i].
    + cbn in H. injection H as -> ->. split; reflexivity.
    + cbn [skipn] in H. destruct (IH i b r H) as [Hn Hs]. split; assumption.
Qed.

Lemma add_vectors_ok vote : forall acc ms1,
  Forall2 (enc_ok pk) acc ms1 ->
  forall i ms2,
    Forall2 (enc_ok pk) (skipn i vote) ms2 ->
    List.length ms1 = List.length ms2 ->
    exists res, add_vectors i acc vote = Return res /\ Forall2 (enc_ok pk) res (vadd ms1 ms2).
Proof.
  induction 1 as [|a m1 acc ms1 (Hpka & Hexpa & Henca) _ IH]; intros i ms2 H2 Hlen.
  - exists []. split; [reflexivity | constructor].
  - destruct ms2 as [|m2 ms2]; [discriminate Hlen|].
    inversion H2 as [|b ? rest ? (Hpkb & Hexpb & Hencb) Hrest Hskip]; subst.
    symmetry in Hskip. destruct (skipn_cons_inv vote i b rest Hskip) as [Hnth Hnext].
    cbn [add_vectors]. unfold list_item. rewrite Hnth. cbn [bind].
    unfold add_encrypted. rewrite Hpka, Hpkb. unfold pk_eqb. rewrite Z.eqb_refl.
    cbn [negb]. rewrite Hexpa, Hexpb. cbn [Z.eqb negb bind].
    destruct (IH (S i) ms2) as (res & Hres & Hok).
    { rewrite Hnext. exact Hrest. }
    { cbn in Hlen. lia. }
    rewrite Hres. cbn [bind]. eexists. split; [reflexivity|].
    unfold vadd. cbn [combine map fst snd]. constructor; [|exact Hok].
    split; [reflexivity|]. split; [reflexivity|]. cbn [raw_ciphertext].
    apply encodes_mul; [exact modulus_ge_2 | exact Henca | exact Hencb].
Qed.

Lemma aggregate_loop_ok : forall votes mss acc ms,
  Forall2 (enc_ok pk) acc ms ->
  Forall2 (fun v ms' => Forall2 (wire_ok (n pk)) v ms' /\ List.length ms' = List.length ms)
          votes mss ->
  exists res, aggregate_loop self acc votes = Return res /\
              Forall2 (enc_ok pk) res (fold_left vadd mss ms).
Proof.
  induction votes as [|v votes IH]; intros mss acc ms Hacc Hv.
  - inversion Hv; subst. exists acc. split; [reflexivity | exact Hacc].
  - inversion Hv as [|? ms' ? mss' [Hw Hlen] Hrest]; subst.
    destruct (deserialize_ok v ms' Hw) as (es & Hes & Hesok).
    destruct (add_vectors_ok es acc ms Hacc 0%nat ms' Hesok (eq_sym Hlen))
      as (res & Hres & Hresok).
    cbn [aggregate_loop]. rewrite Hes. cbn [bind]. rewrite Hres. cbn [bind].
    cbn [fold_left]. apply IH; [exact Hresok|].
    eapply Forall2_impl; [|exact Hrest].
    intros w' m' [Hw' Hl']. split; [exact Hw'|].
    rewrite length_vadd by (symmetry; exact Hlen). exact Hl'.
Qed.

Lemma decrypt_all_ok es ms :
  Forall2 (enc_ok pk) es ms ->
  Forall (fun m => 0 <= m <= max_int pk) ms ->
  mapM (decrypt sk) es = Return ms.
Proof.
  induction 1 as [|e m es ms (Hpk & Hexp & Henc) _ IH]; intros Hb; [reflexivity|].
  inversion Hb as [|? ? Hm Hms]; subst. cbn [mapM].
  rewrite (decrypt_spec sk e m Hkey Hpk Hexp Henc Hm).
  cbn [bind]. rewrite (IH Hms). reflexivity.
Qed.

Lemma decrypt_tally_ok v ms :
  Forall2 (wire_ok (n pk)) v ms ->
  Forall (fun m => 0 <= m <= max_int pk) ms ->
  decrypt_tally self v = Return ms.
Proof.
  intros Hv Hb. unfold decrypt_tally. rewrite Hpriv.
  destruct (deserialize_ok v ms Hv) as (es & Hes & Hok). rewrite Hes. cbn [bind].
  apply decrypt_all_ok; assumption.
Qed.

Lemma cast_ballots_ok rnds k choices :
  (forall i j, Z.coprime (rnds i j) (n pk)) ->
  1 <= max_int pk ->
  Forall (fun c => 1 <= c <= k) choices ->
  forall i, exists votes,
    cast_ballots self rnds i choices k = Return votes /\
    Forall2 (fun v c => Forall2 (wire_ok (n pk)) v (one_hot k c)) votes choices.
Proof.
  intros Hrnd Hmax H. induction H as [|c choices Hc _ IH]; intros i; cbn [cast_ballots].
  - exists []. split; [reflexivity | constructor].
  - destruct (encrypt_vote_ok (rnds i) c k (Hrnd i) Hmax Hc) as (v & Hv & Hok).
    destruct (IH (S i)) as (vs & Hvs & Hoks).
    rewrite Hv. cbn [bind]. rewrite Hvs. cbn [bind].
    exists (v :: vs). split; [reflexivity|]. constructor; assumption.
Qed.

(** Aggregating and decrypting ballots that were cast for [choices]. *)
Lemma aggregate_decrypt_ok rnd k choices votes :
  (forall i, Z.coprime (rnd i) (n pk)) ->
  choices <> [] ->
  Z.of_nat (List.length choices) <= max_int pk ->
  Forall2 (fun v c => Forall2 (wire_ok (n pk)) v (one_hot k c)) votes choices ->
  exists agg,
    aggregate_votes self rnd votes = Return agg /\
    decrypt_tally self agg = Return (tally k choices).
Proof.
  intros Hrnd Hne Hmax Hv.
  destruct Hv as [|v c votes choices Hfirst Hrest]; [contradiction|].
  unfold aggregate_votes.
  destruct (deserialize_ok v (one_hot k c) Hfirst) as (es & Hes & Hok).
  rewrite Hes. cbn [bind].
  destruct (aggregate_loop_ok votes (map (one_hot k) choices) es (one_hot k c) Hok)
    as (res & Hres & Hresok).
  { clear - Hrest. induction Hrest as [|v' c' votes choices Hv' _ IH]; cbn [map];
      constructor; [|exact IH].
    split; [exact Hv'|]. rewrite !one_hot_tally, !length_tally. reflexivity. }
  rewrite Hres. cbn [bind]. eexists. split; [reflexivity|].
  rewrite one_hot_tally, fold_vadd_tally in Hresok. cbn [app] in Hresok.
  apply decrypt_tally_ok.
  - apply serialize_ok; assumption.
  - eapply Forall_impl; [|apply tally_bounds]. cbv beta. intros m Hm. lia.
Qed.

End Service.

(** C4 (amended): for distinct primes p and q, ballots cast for candidates
    of [1..k] with [encrypt_vote], at least one and at most [max_int] of
    them, and every random draw of the obfuscation being prime to the
    modulus: [aggregate_votes] followed by [decrypt_tally] returns the
    number of ballots per candidate. *)
Theorem homomorphic_tally_correct p q key_size k choices rnds rnd :
  Z.prime p -> Z.prime q -> p <> q ->
  choices <> [] ->
  Forall (fun c => 1 <= c <= k) choices ->
  Z.of_nat (List.length choices) <= p * q / 3 - 1 ->
  (forall i j, Z.coprime (rnds i j) (p * q)) ->
  (forall j, Z.coprime (rnd j) (p * q)) ->
  exists self votes agg,
    Py.bind (Encryption.load_public_key (Encryption.init key_size)
                                        (Encryption.mk_wire_pk (p * q)))
            (fun s => Encryption.load_private_key s (Encryption.mk_wire_sk p q))
    = Py.Return self
    /\ cast_ballots self rnds 0 choices k = Py.Return votes
    /\ Encryption.aggregate_votes self rnd votes = Py.Return agg
    /\ Encryption.decrypt_tally self agg = Py.Return (tally k choices).
Proof.
  intros Hp Hq Hpq Hne Hch Hmax Hrnds Hrnd.
  pose proof (Z.prime_ge_2 p Hp). pose proof (Z.prime_ge_2 q Hq).
  destruct (new_private_key_primes p q Hp Hq Hpq) as (sk & Hsk & Hskpk & Hok).
  set (self := Encryption.mk_service key_size (Some (Paillier.mk_public_key (p * q))) (Some sk)).
  assert (Hpub : Encryption.public_key self = Some (Paillier.sk_public_key sk))
    by (rewrite Hskpk; reflexivity).
  assert (Hn : Paillier.n (Paillier.sk_public_key sk) = p * q)
    by (rewrite Hskpk; reflexivity).
  assert (Hlen : 1 <= Z.of_nat (List.length choices)).
  { destruct choices; [contradiction | cbn [List.length]; lia]. }
  assert (Hmax1 : Z.of_nat (List.length choices) <= Paillier.max_int (Paillier.sk_public_key sk))
    by (unfold Paillier.max_int; rewrite Hn; exact Hmax).
  destruct (cast_ballots_ok sk self Hpub Hok rnds k choices) with (i := 0%nat)
    as (votes & Hvotes & Hvok).
  { intros i j. rewrite Hn. apply Hrnds. }
  { lia. }
  { exact Hch. }
  destruct (aggregate_decrypt_ok sk self Hpub eq_refl Hok rnd k choices votes)
    as (agg & Hagg & Hdec).
  { intros j. rewrite Hn. apply Hrnd. }
  { exact Hne. }
  { exact Hmax1. }
  { exact Hvok. }
  exists self, votes, agg. split; [|auto].
  unfold Encryption.load_public_key, Encryption._deserialize_public_key.
  cbn [Encryption.wn]. destruct (Z.leb_spec (p * q) 0); [nia|]. cbn [Py.bind].
  unfold Encryption.load_private_key, Encryption._deserialize_private_key.
  cbn [Encryption.wp Encryption.wq Encryption.key_size Encryption.public_key Encryption.init].
  rewrite Hsk. reflexivity.
Qed.

Lemma prime_5 : Z.prime 5.
Proof.
  split; [lia|]. intros d Hd [c Hc].
  assert (Hcases : d = 2 \/ d = 3 \/ d = 4) by lia.
  destruct Hcases as [-> | [-> | ->]]; lia.
Qed.

Lemma prime_7 : Z.prime 7.
Proof.
  split; [lia|]. intros d Hd [c Hc].
  assert (Hcases : d = 2 \/ d = 3 \/ d = 4 \/ d = 5 \/ d = 6) by lia.
  destruct Hcases as [-> | [-> | [-> | [-> | ->]]]]; lia.
Qed.

(** The key of the small election (n = 35), three candidates, ballots for
    candidates 1, 1, 2, 1, 3: the decrypted aggregate is [3; 1; 1]. *)
Lemma homomorphic_tally_correct_witness :
  exists self votes agg,
    Py.bind (Encryption.load_public_key (Encryption.init 2048) (Encryption.mk_wire_pk 35))
            (fun s => Encryption.load_private_key s (Encryption.mk_wire_sk 5 7))
    = Py.Return self
    /\ cast_ballots self (fun _ _ => 2) 0 [1; 1; 2; 1; 3] 3 = Py.Return votes
    /\ Encryption.aggregate_votes self (fun _ => 3) votes = Py.Return agg
    /\ Encryption.decrypt_tally self agg = Py.Return [3; 1; 1].
Proof.
  apply (homomorphic_tally_correct 5 7 2048 3 [1; 1; 2; 1; 3] (fun _ _ => 2) (fun _ => 3)
           prime_5 prime_7).
  - lia.
  - discriminate.
  - repeat constructor; lia.
  - vm_compute. discriminate.
  - intros i j. reflexivity.
  - intros j. reflexivity.
Defined.

(** C4, as stated, fails: [get_random_lt_n] draws from [1, n), and a draw
    that shares a factor with n is not excluded.  Under the key n = 35 with
    every draw equal to 5, the ballots for candidates 1, 1, 2, 1, 3 are
    encrypted and aggregated without error and decrypt to [3; 8; 8], not to
    the tally [3; 1; 1]. *)
Lemma homomorphic_tally_shared_factor_counterexample :
  ~ (forall p q key_size k choices rnds rnd,
       Z.prime p -> Z.prime q -> p <> q ->
       choices <> [] ->
       Forall (fun c => 1 <= c <= k) choices ->
       Z.of_nat (List.length choices) <= p * q / 3 - 1 ->
       (forall i j, 1 <= rnds i j < p * q) ->
       (forall j, 1 <= rnd j < p * q) ->
       exists self votes agg,
         Py.bind (Encryption.load_public_key (Encryption.init key_size)
                                             (Encryption.mk_wire_pk (p * q)))
                 (fun s => Encryption.load_private_key s (Encryption.mk_wire_sk p q))
         = Py.Return self
         /\ cast_ballots self rnds 0 choices k = Py.Return votes
         /\ Encryption.aggregate_votes self rnd votes = Py.Return agg
         /\ Encryption.decrypt_tally self agg = Py.Return (tally k choices)).
Proof.
  intros claim.
  destruct (claim 5 7 2048 3 [1; 1; 2; 1; 3] (fun _ _ => 5) (fun _ => 5) prime_5 prime_7)
    as (self & votes & agg & Hself & Hvotes & Hagg & Hdec).
  - lia.
  - discriminate.
  - repeat constructor; lia.
  - vm_compute. discriminate.
  - intros i j. lia.
  - intros j. lia.
  - vm_compute in Hself. injection Hself as <-.
    vm_compute in Hvotes. injection Hvotes as <-.
    vm_compute in Hagg. injection Hagg as <-.
    vm_compute in Hdec. discriminate Hdec.
Qed.

(** ** Secret sharing on the sample secret *)

(** Shares 5, 4 and 3 of the secret "abc" under the 3-of-5 instance give
    back the SHA-256 digest of "abc", in base64. *)
Example reconstruct_secret_abc :
  ThresholdCrypto.reconstruct_secret ThresholdCrypto.threshold_crypto_service
    (firstn 3 (rev Scenario.shares_of_abc))
  = ThresholdCrypto.encode_secret_int (ThresholdCrypto.secret_hash "abc").
Proof. vm_compute. reflexivity. Qed.

(** ** [encrypt_vote]: the candidate index *)

Section EncryptVoteIndex.
Import Py Encryption.





End EncryptVoteIndex.

(** ** [aggregate_votes]: ballots of different lengths *)

Section AggregateLengths.
Import Py Encryption.

Lemma add_vectors_length vote : forall acc i res,
  add_vectors i acc vote = Return res -> List.length res = List.length acc.
Proof.
  induction acc as [|a acc IH]; intros i res H; cbn [add_vectors] in H.
  - injection H as <-. reflexivity.
  - destruct (list_item vote i) as [b| |]; cbn [bind] in H; try discriminate H.
    destruct (Paillier.add_encrypted a b) as [c| |]; cbn [bind] in H; try discriminate H.
    destruct (add_vectors (S i) acc vote) as [cs| |] eqn:E; cbn [bind] in H;
      try discriminate H.
    injection H as <-. cbn [List.length]. f_equal. exact (IH _ _ E).
Qed.

Lemma add_vectors_firstn vote L : forall acc i,
  (i + List.length acc <= L)%nat ->
  add_vectors i acc (firstn L vote) = add_vectors i acc vote.
Proof.
  induction acc as [|a acc IH]; intros i Hi; cbn [add_vectors]; [reflexivity|].
  cbn [List.length] in Hi. unfold list_item. rewrite nth_error_firstn.
  destruct (Nat.ltb_spec i L); [|lia].
  rewrite (IH (S i)) by lia. reflexivity.
Qed.

Lemma add_vectors_short vote : forall acc i,
  (i <= List.length vote < i + List.length acc)%nat ->
  forall res, add_vectors i acc vote <> Return res.
Proof.
  induction acc as [|a acc IH]; intros i Hi res H; cbn [List.length] in Hi; [lia|].
  cbn [add_vectors] in H. unfold list_item in H.
  destruct (nth_error vote i) as [b|] eqn:Eb; cbn [bind] in H; [|discriminate H].
  assert (i < List.length vote)%nat by (apply nth_error_Some; congruence).
  destruct (Paillier.add_encrypted a b) as [c| |]; cbn [bind] in H; try discriminate H.
  destruct (add_vectors (S i) acc vote) as [cs| |] eqn:E; cbn [bind] in H;
    try discriminate H.
  apply (IH (S i)) in E; [exact E | lia].
Qed.

Lemma deserialize_firstn self L v :
  _deserialize_encrypted_vector self (firstn L v)
  = bind (_deserialize_encrypted_vector self v) (fun es => Return (firstn L es)).
Proof.
  unfold _deserialize_encrypted_vector. destruct (public_key self); [|reflexivity].
  cbn [bind]. rewrite firstn_map. reflexivity.
Qed.

Lemma aggregate_loop_firstn self : forall rest acc,
  aggregate_loop self acc (map (firstn (List.length acc)) rest)
  = aggregate_loop self acc rest.
Proof.
  induction rest as [|v rest IH]; intros acc; cbn [map aggregate_loop]; [reflexivity|].
  rewrite deserialize_firstn.
  destruct (_deserialize_encrypted_vector self v) as [es| |]; cbn [bind]; try reflexivity.
  rewrite add_vectors_firstn by lia.
  destruct (add_vectors 0 acc es) as [t| |] eqn:E; cbn [bind]; try reflexivity.
  rewrite <- (add_vectors_length _ _ _ _ E). apply IH.
Qed.


Lemma aggregate_loop_short self pk : forall rest acc v,
  public_key self = Some pk ->
  In v rest -> (List.length v < List.length acc)%nat ->
  forall res, aggregate_loop self acc rest <> Return res.
Proof.
  induction rest as [|u rest IH]; intros acc v Hpub Hin Hlen res H; [contradiction|].
  cbn [aggregate_loop] in H. unfold _deserialize_encrypted_vector in H.
  rewrite Hpub in H. cbn [bind] in H.
  destruct (add_vectors 0 acc _) as [t| |] eqn:E; cbn [bind] in H; try discriminate H.
  destruct Hin as [-> | Hin].
  - revert E. apply add_vectors_short. rewrite length_map. lia.
  - apply add_vectors_length in E.
    revert H. apply (IH t v Hpub Hin). lia.
Qed.



End AggregateLengths.

(** ** [HomomorphicEncryptionService.partial_decrypt] *)

Section ServicePartialDecrypt.
Import Py Encryption.

Lemma serialize_fresh_encodes pk rnd :
  2 <= Paillier.n pk ->
  (forall i, Z.coprime (rnd i) (Paillier.n pk)) ->
  forall agg ms i,
    Forall2 (fun w m => encodes (Paillier.n pk) (ciphertext w) m) agg ms ->
    Forall2 (encodes (Paillier.n pk))
      (map ciphertext
         (serialize_from rnd i
            (map (fun item => Paillier.mk_encrypted pk (ciphertext item) (exponent item) false)
                 agg)))
      ms.
Proof.
  intros Hn Hrnd agg ms i H. revert i.
  induction H as [|w m agg ms Hw _ IH]; intros i; cbn [map serialize_from]; constructor.
  - cbn [ciphertext]. unfold Paillier.ciphertext_secure.
    cbn [Paillier.is_obfuscated fst]. unfold Paillier.obfuscate.
    cbn [Paillier.raw_ciphertext Paillier.public_key].
    apply encodes_obfuscate; [exact Hn | exact Hw | apply Hrnd].
  - apply IH.
Qed.


End ServicePartialDecrypt.

Lemma coprime_2_35 : Z.coprime 2 35.
Proof. reflexivity. Qed.


(** ** Keys *)

Section KeyRoundTrip.
Import Py Paillier.


End KeyRoundTrip.


(** ** [decrypt_tally] under another key *)

Section ForeignKey.
Import Py Encryption.


End ForeignKey.


(** ** [split_secret]: the shares it hands out *)

Section SplitSecret.
Import Py ThresholdCrypto.

Lemma eval_from_range cs x prime : forall i result,
  0 < prime -> 0 <= result < prime ->
  0 <= eval_from i cs x prime result < prime.
Proof.
  induction cs as [|c cs IH]; intros i result Hp Hr; cbn [eval_from]; [exact Hr|].
  apply IH; [exact Hp|]. apply Z.mod_pos_bound. exact Hp.
Qed.

Lemma In_range1 n i : In i (range1 n) <-> 1 <= i <= n.
Proof.
  unfold range1. rewrite in_map_iff. split.
  - intros (k & <- & Hk). apply in_seq in Hk. lia.
  - intros Hi. exists (Z.to_nat i). split; [lia|]. apply in_seq. lia.
Qed.


End SplitSecret.


(** ** [start_tallying] *)

Section StartTallying.
Import Py Database Tallying.

(** What holds when [start_tallying] returns. *)
Lemma start_tallying_returns tc env w election_id r :
  snd (start_tallying tc env w election_id) = Return r ->
  exists election agg,
    first (by_election election_id) (elections (db w)) = Some election /\
    (e_status election = "active" \/ e_status election = "ended") /\
    first (session_of election_id) (tallying_sessions (db w)) = None /\
    untallied (db w) election_id <> [] /\
    Encryption.aggregate_votes (encryption w) (rnd env)
      (map v_encrypted_vote (untallied (db w) election_id)) = Return agg /\
    fst (start_tallying tc env w election_id)
    = mk_world (start_tallying_writes tc env (db w) election_id agg
                  (Z.of_nat (List.length (untallied (db w) election_id))))
               (encryption w) /\
    constraints_ok (db (fst (start_tallying tc env w election_id))) = true /\
    r = mk_start_response (uuid4 env 0) "aggregating"
          (Z.of_nat (List.length (untallied (db w) election_id)))
          (ThresholdCrypto.threshold tc).
Proof.
  unfold start_tallying. fold (untallied (db w) election_id).
  destruct (first (by_election election_id) _) as [election|] eqn:He; [|discriminate].
  destruct (String.eqb (e_status election) "active") eqn:Ea;
    destruct (String.eqb (e_status election) "ended") eqn:Ee;
    cbn [orb negb]; try discriminate.
  all: destruct (first (session_of election_id) _) as [s|] eqn:Hs; [discriminate|].
  all: destruct (untallied (db w) election_id) as [|v0 votes] eqn:Hv; [discriminate|].
  all: destruct (Encryption.aggregate_votes _ _ _) as [agg| |] eqn:Hagg; cbn [reraise];
    try discriminate.
  all: unfold commit; destruct (constraints_ok _) eqn:Hok; [|discriminate].
  all: cbn [fst snd]; intros H; injection H as <-.
  all: exists election, agg.
  all: split; [reflexivity|].
  all: split; [first [left; apply String.eqb_eq; assumption
                     | right; apply String.eqb_eq; assumption]|].
  all: split; [reflexivity|].
  all: split; [discriminate|].
  all: split; [reflexivity|].
  all: split; [reflexivity|].
  all: split; [cbn [db]; exact Hok | reflexivity].
Qed.

Lemma by_election_set_status election_id s e :
  by_election election_id (set_e_status s e) = by_election election_id e.
Proof. reflexivity. Qed.


End StartTallying.


(** ** After [finalize_tally] *)

Section AfterFinalize.
Import Py Database Tallying.

(** The rows that a returning [finalize_tally] has read. *)
Lemma finalize_tally_reads env w election_id r :
  snd (finalize_tally env w election_id) = Return r ->
  exists session election v,
    first (session_of election_id) (tallying_sessions (db w)) = Some session /\
    s_required_trustees session <= s_completed_trustees session /\
    first (by_election election_id) (elections (db w)) = Some election /\
    Encryption.decrypt_tally (encryption w) (s_aggregated_ciphertext session) = Return v /\
    fr_final_tally r = fst (tally_from 0 (e_candidates election) v [] 0) /\
    fr_total_votes_tallied r = snd (tally_from 0 (e_candidates election) v [] 0) /\
    encryption (fst (finalize_tally env w election_id)) = encryption w.
Proof.
  unfold finalize_tally.
  destruct (first (session_of election_id) _) as [session|] eqn:Hs; [|discriminate].
  destruct (Z.ltb_spec (s_completed_trustees session) (s_required_trustees session))
    as [|Hge]; [discriminate|].
  match goal with
  | |- context [if ?c then _ else _] => destruct c; [discriminate|]
  end.
  unfold Encryption.combine_partial_decryptions.
  match goal with
  | |- context [if ?c then _ else _] => destruct c; [discriminate|]
  end.
  destruct (Encryption.decrypt_tally _ _) as [v| |] eqn:Hv; cbn [reraise]; try discriminate.
  destruct (first (by_election election_id) _) as [election|] eqn:He; [|discriminate].
  destruct (tally_from 0 (e_candidates election) v [] 0) as [ft tv] eqn:Et.
  unfold commit. destruct (constraints_ok _); [|discriminate].
  cbn [fst snd]. intros Hr. injection Hr as <-.
  exists session, election, v. cbn [fr_final_tally fr_total_votes_tallied encryption].
  rewrite Et. repeat split; try reflexivity; assumption.
Qed.

Lemma session_of_complete election_id now s :
  session_of election_id (complete_session now s) = session_of election_id s.
Proof. reflexivity. Qed.



End AfterFinalize.



(** ** [can_finalize] *)

Section CanFinalize.
Import Py Database Tallying.


End CanFinalize.


(** ** The key share of a trustee *)

Section KeyShareContent.
Import Py Database Tallying.

Lemma constraints_ok_with_key_shares reshare d :
  constraints_ok (with_key_shares reshare d) = constraints_ok d.
Proof.
  unfold constraints_ok, with_key_shares, set_trustees.
  cbn [trustees elections encrypted_votes partial_decryptions election_results
       audit_logs tallying_sessions].
  rewrite !map_map. reflexivity.
Qed.

Lemma first_trustee_with_key_share reshare trustee_id l :
  first (trustee_of trustee_id) (map (fun t => set_t_key_share (reshare t) t) l)
  = option_map (fun t => set_t_key_share (reshare t) t) (first (trustee_of trustee_id) l).
Proof.
  unfold first. induction l as [|t l IH]; cbn [map find]; [reflexivity|].
  unfold trustee_of at 1. cbn [set_t_key_share t_trustee_id]. fold (trustee_of trustee_id t).
  destruct (trustee_of trustee_id t); [reflexivity | exact IH].
Qed.


End KeyShareContent.

(** ** The final tally *)

Section FinalTally.
Import Py Database Tallying.

Lemma dict_set_fresh {V} (d : dict V) k (v : V) :
  ~ In k (map fst d) -> dict_set d k v = d ++ [(k, v)].
Proof.
  induction d as [|[k' v'] d IH]; intros Hk; cbn [dict_set app]; [reflexivity|].
  cbn [map fst In] in Hk.
  destruct (String.eqb_spec k' k) as [->|_]; [exfalso; apply Hk; left; reflexivity|].
  rewrite IH; [reflexivity|]. intros Hin. apply Hk. right. exact Hin.
Qed.

Lemma tally_from_distinct v : forall candidates i final_tally total_votes,
  NoDup (map fst final_tally ++ map cand_name candidates) ->
  fst (tally_from i candidates v final_tally total_votes)
  = final_tally
    ++ map (fun jc => (cand_name (snd jc), nth (fst jc) v 0))
           (combine (seq i (List.length candidates)) candidates).
Proof.
  induction candidates as [|c candidates IH]; intros i final_tally total_votes Hnd;
    cbn [tally_from List.length seq combine map].
  - rewrite app_nil_r. reflexivity.
  - rewrite IH.
    + rewrite dict_set_fresh.
      * rewrite <- app_assoc. reflexivity.
      * cbn [map] in Hnd. intros Hin.
        apply NoDup_remove_2 in Hnd. apply Hnd. apply in_or_app. left. exact Hin.
    + rewrite dict_set_fresh.
      * rewrite map_app. cbn [map fst]. rewrite <- app_assoc. exact Hnd.
      * cbn [map] in Hnd. intros Hin.
        apply NoDup_remove_2 in Hnd. apply Hnd. apply in_or_app. left. exact Hin.
Qed.


End FinalTally.


(** ** After [reset_database] *)

Section AfterReset.
Import Py Database Tallying.

Lemma first_reset_elections election_id l :
  first (by_election election_id)
        (map (fun e => mk_election (e_election_id e) (e_title e) "active" 0
                                   (e_candidates e) (e_encryption_params e)) l)
  = option_map (fun e => mk_election (e_election_id e) (e_title e) "active" 0
                                     (e_candidates e) (e_encryption_params e))
               (first (by_election election_id) l).
Proof.
  unfold first. induction l as [|e l IH]; cbn [map find]; [reflexivity|].
  unfold by_election at 1. cbn [e_election_id]. fold (by_election election_id e).
  destruct (by_election election_id e); [reflexivity | exact IH].
Qed.


End AfterReset.

(** ** From the stored ballots to the published counts *)

Section Pipeline.
Import Py Database Tallying.

Lemma aggregate_loop_same_key s1 s2 :
  Encryption.public_key s1 = Encryption.public_key s2 ->
  forall votes acc, Encryption.aggregate_loop s1 acc votes = Encryption.aggregate_loop s2 acc votes.
Proof.
  intros Hk. induction votes as [|v votes IH]; intros acc; cbn [Encryption.aggregate_loop];
    [reflexivity|].
  unfold Encryption._deserialize_encrypted_vector. rewrite Hk.
  destruct (Encryption.public_key s2); [|reflexivity]. cbn [bind].
  destruct (Encryption.add_vectors 0 acc _); cbn [bind]; [apply IH | reflexivity | reflexivity].
Qed.

Lemma aggregate_votes_same_key s1 s2 rnd votes :
  Encryption.public_key s1 = Encryption.public_key s2 ->
  Encryption.aggregate_votes s1 rnd votes = Encryption.aggregate_votes s2 rnd votes.
Proof.
  intros Hk. pose proof (aggregate_loop_same_key s1 s2 Hk) as Hloop.
  unfold Encryption.aggregate_votes. destruct votes as [|v votes]; [reflexivity|].
  unfold Encryption._deserialize_encrypted_vector. rewrite Hk.
  destruct (Encryption.public_key s2); [|reflexivity]. cbn [bind].
  rewrite Hloop. reflexivity.
Qed.

(** Where a [partial_decrypt] request can leave the world. *)
Lemma partial_decrypt_cases env w election_id trustee_id :
  fst (partial_decrypt env w election_id trustee_id) = w
  \/ (exists enc1,
        load_election_key w election_id = Return enc1 /\
        fst (partial_decrypt env w election_id trustee_id) = mk_world (db w) enc1)
  \/ (exists session presult enc1,
        first (session_of election_id) (tallying_sessions (db w)) = Some session /\
        load_election_key w election_id = Return enc1 /\
        fst (partial_decrypt env w election_id trustee_id)
        = mk_world (partial_decrypt_writes env (db w) session election_id trustee_id presult)
                   enc1).
Proof.
  unfold partial_decrypt.
  destruct (first (session_of election_id) _) as [session|] eqn:Hs; [|left; reflexivity].
  destruct (negb (open_for_decryption session)); [left; reflexivity|].
  destruct (first (partial_of election_id trustee_id) _); [left; reflexivity|].
  destruct (first (trustee_of trustee_id) _) as [trustee|]; [|left; reflexivity].
  destruct (t_key_share_encrypted trustee); [|left; reflexivity].
  destruct (load_election_key w election_id) as [enc1| |] eqn:Hl; try (left; reflexivity).
  destruct (Encryption.partial_decrypt enc1 _ _ _) as [presult| |];
    try (right; left; exists enc1; split; reflexivity).
  unfold commit. destruct (constraints_ok _);
    [|right; left; exists enc1; split; reflexivity].
  right. right. exists session, presult, enc1. repeat split; reflexivity.
Qed.

Section Ready.

Variables p q : Z.
Variable sk : Paillier.PaillierPrivateKey.
Variable election_id : uuid.
Variable candidates : list Candidate.
Variable params : EncryptionParams.
Variable agg : Encryption.wire_vector.
Variable required : Z.

Hypothesis Hsk :
  Paillier.new_private_key (Paillier.mk_public_key (p * q)) p q = Return sk.
Hypothesis Hparams : ep_private_key params = Some (Encryption.mk_wire_sk p q).

Local Abbreviation ready :=
  (tally_ready election_id (Paillier.mk_public_key (p * q)) sk candidates params agg required).

Lemma load_election_key_ready w :
  ready w ->
  load_election_key w election_id
  = Return (Encryption.mk_service (Encryption.key_size (encryption w))
              (Some (Paillier.mk_public_key (p * q))) (Some sk)).
Proof.
  intros (Hpub & (e & He & _ & Hp) & _).
  unfold load_election_key. rewrite He, Hp, Hparams.
  unfold Encryption.load_private_key, Encryption._deserialize_private_key.
  cbn [Encryption.wp Encryption.wq]. rewrite Hsk. cbn [bind]. rewrite Hpub. reflexivity.
Qed.

Lemma partial_decrypt_keeps_ready env w trustee_id :
  ready w -> ready (fst (partial_decrypt env w election_id trustee_id)).
Proof.
  intros Hw. pose proof (load_election_key_ready w Hw) as Hload.
  destruct Hw as (Hpub & (e & He & Hc & Hp) & (s & Hs & Ha & Hr & Hk)).
  destruct (partial_decrypt_cases env w election_id trustee_id)
    as [-> | [(enc1 & Hl & ->) | (session & presult & enc1 & Hs' & Hl & ->)]].
  - split; [exact Hpub|]. split; [exists e; auto|]. exists s. auto.
  - rewrite Hload in Hl. injection Hl as <-.
    split; [reflexivity|]. split; [exists e; auto|].
    exists s. cbn [db encryption Encryption.private_key]. auto.
  - rewrite Hload in Hl. injection Hl as <-.
    rewrite Hs in Hs'. injection Hs' as <-.
    split; [reflexivity|]. split.
    + exists e. cbn [db]. auto.
    + exists (bump_session s). cbn [db encryption Encryption.private_key]. split.
      * unfold partial_decrypt_writes.
        cbn [tallying_sessions set_audit_logs set_tallying_sessions set_partial_decryptions].
        rewrite first_update_first by (intros; apply session_of_bump).
        rewrite Hs. reflexivity.
      * cbn [bump_session s_aggregated_ciphertext s_required_trustees]. auto.
Qed.

Lemma partial_decrypts_keep_ready steps : forall w,
  ready w -> ready (partial_decrypts_by election_id steps w).
Proof.
  induction steps as [|[env trustee_id] steps IH]; intros w Hw; [exact Hw|].
  unfold partial_decrypts_by. cbn [fold_left fst snd].
  apply IH. apply partial_decrypt_keeps_ready. exact Hw.
Qed.

End Ready.

(** *** Counting *)

Lemma map_nth_seq {A} (d : A) (l : list A) :
  map (fun j => nth j l d) (seq 0 (List.length l)) = l.
Proof.
  induction l as [|a l IH]; [reflexivity|].
  cbn [List.length seq map nth]. f_equal.
  rewrite <- seq_shift, map_map. exact IH.
Qed.

Lemma sum_indicator (c : Z) (l : list Z) :
  NoDup l -> In c l ->
  fold_right Z.add 0 (map (fun j => Z.of_nat (if Z.eq_dec c j then 1 else 0)%nat) l) = 1.
Proof.
  induction l as [|a l IH]; intros Hnd Hin; [contradiction|].
  apply NoDup_cons_iff in Hnd. destruct Hnd as [Ha Hnd].
  cbn [map fold_right]. destruct (Z.eq_dec c a) as [->|Hne].
  - assert (Hz : fold_right Z.add 0
                   (map (fun j => Z.of_nat (if Z.eq_dec a j then 1 else 0)%nat) l) = 0).
    { clear IH Hin Hnd. induction l as [|b l IH]; [reflexivity|].
      cbn [map fold_right]. destruct (Z.eq_dec a b) as [->|_].
      - exfalso. apply Ha. left. reflexivity.
      - rewrite IH; [reflexivity|]. intros Hin. apply Ha. right. exact Hin. }
    rewrite Hz. reflexivity.
  - destruct Hin as [->|Hin]; [contradiction|]. rewrite (IH Hnd Hin). reflexivity.
Qed.

Lemma sum_add_pointwise {A} (f g : A -> Z) (l : list A) :
  fold_right Z.add 0 (map (fun j => f j + g j) l)
  = fold_right Z.add 0 (map f l) + fold_right Z.add 0 (map g l).
Proof. induction l as [|a l IH]; cbn [map fold_right]; lia. Qed.

Lemma candidate_ids_NoDup k : NoDup (candidate_ids k).
Proof.
  unfold candidate_ids. apply Injective_map_NoDup; [|apply seq_NoDup].
  intros a b Hab. lia.
Qed.

Lemma In_candidate_ids k c : In c (candidate_ids k) <-> 1 <= c <= k.
Proof.
  unfold candidate_ids. rewrite in_map_iff. split.
  - intros (i & <- & Hi). apply in_seq in Hi. lia.
  - intros Hc. exists (Z.to_nat c). split; [lia|]. apply in_seq. lia.
Qed.

Lemma sum_tally k choices :
  Forall (fun c => 1 <= c <= k) choices ->
  fold_right Z.add 0 (tally k choices) = Z.of_nat (List.length choices).
Proof.
  unfold tally. induction 1 as [|c choices Hc _ IH].
  - cbn [count_occ]. induction (candidate_ids k); [reflexivity | cbn [map fold_right]; lia].
  - cbn [count_occ List.length].
    rewrite (map_ext _ (fun j => Z.of_nat (if Z.eq_dec c j then 1 else 0)%nat
                                 + Z.of_nat (count_occ Z.eq_dec choices j))).
    + rewrite sum_add_pointwise, IH.
      rewrite sum_indicator; [lia | apply candidate_ids_NoDup | apply In_candidate_ids; exact Hc].
    + intros j. destruct (Z.eq_dec c j); lia.
Qed.

Lemma nth_tally k choices j :
  (j < Z.to_nat k)%nat ->
  nth j (tally k choices) 0 = Z.of_nat (count_occ Z.eq_dec choices (Z.of_nat (S j))).
Proof.
  intros Hj. unfold tally, candidate_ids. rewrite map_map.
  rewrite (nth_indep _ 0 (Z.of_nat (count_occ Z.eq_dec choices (Z.of_nat 0))))
    by (rewrite length_map, length_seq; exact Hj).
  rewrite (map_nth (fun i => Z.of_nat (count_occ Z.eq_dec choices (Z.of_nat i)))).
  rewrite seq_nth by exact Hj. reflexivity.
Qed.


End Pipeline.


(** ** [publish_to_blockchain] *)

Section Publish.
Import Py Database Endpoints.

Lemma constraints_ok_trustees d :
  constraints_ok d = true -> nodupb (map t_trustee_id (trustees d)) = true.
Proof.
  unfold constraints_ok. intros H.
  repeat (apply andb_prop in H; destruct H as [H ?]). assumption.
Qed.

(** What holds when [publish_to_blockchain] answers with a body. *)
Lemma publish_to_blockchain_ok env d election_id body :
  snd (publish_to_blockchain env d election_id) = Ok body ->
  exists result,
    first (fun r => String.eqb (r_election_id r) election_id) (election_results d)
    = Some result /\
    r_blockchain_tx_hash result = None /\
    let tx_hash :=
      tx_hash_of election_id (r_verification_hash result) (Tallying.utcnow env 0) in
    fst (publish_to_blockchain env d election_id)
    = set_audit_logs
        (set_election_results d
           (update_first (fun r => String.eqb (r_election_id r) election_id)
              (set_r_published tx_hash (Tallying.utcnow env 1)) (election_results d)))
        (audit_logs d ++
         [mk_log (Tallying.uuid4 env 0) election_id "publish_blockchain" "system"
                 (PublishDetails tx_hash (r_verification_hash result))
                 "success" (Tallying.utcnow env 2)]) /\
    body = mk_publish_response true "Results published to blockchain" tx_hash
             (r_verification_hash result) (Some (Tallying.utcnow env 1)).
Proof.
  unfold publish_to_blockchain.
  destruct (first _ (election_results d)) as [result|] eqn:Hr; [|discriminate].
  destruct (r_blockchain_tx_hash result) eqn:Htx; [discriminate|].
  unfold commit. destruct (constraints_ok _); [|discriminate].
  cbn [fst snd]. intros H. injection H as <-.
  exists result. repeat split; reflexivity || assumption.
Qed.

Lemma first_update_other {A B} (f f0 : A -> bool) (g : A -> A) (h : A -> B) (l : list A) :
  (forall r, f (g r) = f r) -> (forall r, h (g r) = h r) ->
  option_map h (first f (update_first f0 g l)) = option_map h (first f l).
Proof.
  intros Hf Hh. unfold first.
  induction l as [|r l IH]; cbn [update_first find]; [reflexivity|].
  destruct (f0 r).
  - cbn [find]. rewrite Hf. destruct (f r); cbn [option_map]; [rewrite Hh|]; reflexivity.
  - cbn [find]. destruct (f r); [reflexivity | exact IH].
Qed.

Lemma verify_results_as_map d election_id :
  Routers.verify_results d election_id
  = option_map
      (fun result =>
         let computed :=
           sha256_hexdigest
             (encode (Tallying.hash_str (r_election_id result) (r_final_tally result)
                        (r_total_votes_tallied result) (isoformat (r_created_at result)))) in
         Routers.mk_verification (String.eqb computed (r_verification_hash result))
                                 (r_verification_hash result) computed)
      (first (fun r => String.eqb (r_election_id r) election_id) (election_results d)).
Proof.
  unfold Routers.verify_results. destruct (first _ _); reflexivity.
Qed.


End Publish.


(** ** [register_trustee] *)

Section Register.
Import Py Database Endpoints.


End Register.


(** ** The field prime of [ThresholdCryptoService] *)

Section Primality.

Lemma no_divisor_from_spec N : forall fuel d,
  0 < d -> no_divisor_from fuel d N = true ->
  forall e, d <= e < d + Z.of_nat fuel -> N mod e <> 0.
Proof.
  induction fuel as [|fuel IH]; intros d Hd H e He; [lia|].
  cbn [no_divisor_from] in H.
  destruct (Z.eqb_spec (N mod d) 0) as [|Hne]; [discriminate H|].
  destruct (Z.eq_dec e d) as [->|Hed]; [exact Hne|].
  apply (IH (d + 1)); [lia | exact H | lia].
Qed.

(** Trial division is sound. *)
Lemma trial_division_prime N : trial_division N = true -> Z.prime N.
Proof.
  unfold trial_division. intros H. apply andb_prop in H. destruct H as [H1 H2].
  apply Z.ltb_lt in H1. split; [exact H1|].
  intros n Hn [m Hm].
  pose proof (Z.sqrt_spec N ltac:(lia)) as Hs. cbv zeta in Hs. unfold Z.succ in Hs.
  pose proof (Z.sqrt_nonneg N) as Hs0.
  assert (Hm1 : 1 < m) by nia.
  assert (Hsmall : exists e, 2 <= e <= Z.sqrt N /\ (e | N)).
  { destruct (Z.le_gt_cases n m).
    - exists n. split; [|exists m; exact Hm]. split; [lia|].
      apply Z.sqrt_le_square; nia.
    - exists m. split; [|exists n; lia]. split; [lia|].
      apply Z.sqrt_le_square; nia. }
  destruct Hsmall as (e & He & Hdiv).
  apply (no_divisor_from_spec N _ 2 ltac:(lia) H2 e); [lia|].
  apply Z.mod_divide; [lia | exact Hdiv].
Qed.

Lemma prime_divisor_bounded : forall (k : nat) (n : Z),
  1 < n <= Z.of_nat k -> exists r, Z.prime r /\ (r | n).
Proof.
  induction k as [|k IH]; intros n Hn; [lia|].
  destruct (prime_dec n) as [Hp | Hnp].
  - exists n. split; [apply prime_alt; exact Hp | apply Z.divide_refl].
  - destruct (not_prime_divide n ltac:(lia) Hnp) as (d & Hd & Hdiv).
    destruct (IH d ltac:(lia)) as (r & Hr & Hrd).
    exists r. split; [exact Hr | eapply Z.divide_trans; eassumption].
Qed.

Lemma prime_divisor n : 1 < n -> exists r, Z.prime r /\ (r | n).
Proof. intros Hn. apply (prime_divisor_bounded (Z.to_nat n)). lia. Qed.

(** A composite number has a prime factor below its square root. *)
Lemma small_prime_factor N :
  1 < N -> ~ Z.prime N -> exists r, Z.prime r /\ (r | N) /\ r * r <= N.
Proof.
  intros HN Hnp.
  destruct (not_prime_divide N HN) as (n & Hn & [m Hm]).
  { intros Hp. apply Hnp. apply prime_alt. exact Hp. }
  assert (Hm1 : 1 < m) by nia.
  destruct (Z.le_gt_cases n m).
  - destruct (prime_divisor n ltac:(lia)) as (r & Hr & Hrn).
    exists r. split; [exact Hr|]. split.
    + eapply Z.divide_trans; [exact Hrn|]. exists m. exact Hm.
    + pose proof (Z.prime_ge_2 r Hr). pose proof (Z.divide_pos_le r n ltac:(lia) Hrn). nia.
  - destruct (prime_divisor m Hm1) as (r & Hr & Hrm).
    exists r. split; [exact Hr|]. split.
    + eapply Z.divide_trans; [exact Hrm|]. exists n. lia.
    + pose proof (Z.prime_ge_2 r Hr). pose proof (Z.divide_pos_le r m ltac:(lia) Hrm). nia.
Qed.

(** The exponents that send [b] to 1 are closed under gcd. *)
Lemma pow_one_gcd_bounded r b : 1 < r -> forall (k : nat) (n m : Z),
  0 <= n < Z.of_nat k -> 0 <= m ->
  b ^ m mod r = 1 -> b ^ n mod r = 1 -> b ^ Z.gcd m n mod r = 1.
Proof.
  intros Hr. induction k as [|k IH]; intros n m Hn Hm Hbm Hbn; [lia|].
  destruct (Z.eq_dec n 0) as [->|Hn0].
  - rewrite Z.gcd_0_r, Z.abs_eq by exact Hm. exact Hbm.
  - pose proof (Z.mod_pos_bound m n ltac:(lia)) as Hmod.
    assert (Hrem : b ^ (m mod n) mod r = 1).
    { assert (Hq : 0 <= m / n) by (apply Z.div_pos; lia).
      rewrite (Z.div_mod m n Hn0) in Hbm at 1.
      rewrite Z.pow_add_r in Hbm by nia.
      rewrite Z.pow_mul_r in Hbm by lia.
      rewrite <- Z.mul_mod_idemp_l in Hbm by lia.
      rewrite (cong_one_pow r (b ^ n) (m / n)) in Hbm;
        [| lia | exact Hq | rewrite Hbn; symmetry; apply Z.mod_1_l; exact Hr].
      rewrite Z.mul_mod_idemp_l in Hbm by lia. rewrite Z.mul_1_l in Hbm. exact Hbm. }
    pose proof (IH (m mod n) n ltac:(lia) ltac:(lia) Hbn Hrem) as Hg.
    rewrite Z.gcd_comm, Z.gcd_mod, Z.gcd_comm in Hg by exact Hn0. exact Hg.
Qed.

Lemma pow_one_gcd r b m n :
  1 < r -> 0 <= m -> 0 <= n ->
  b ^ m mod r = 1 -> b ^ n mod r = 1 -> b ^ Z.gcd m n mod r = 1.
Proof.
  intros Hr Hm Hn. apply (pow_one_gcd_bounded r b Hr (S (Z.to_nat n))); lia.
Qed.

(** An element of prime order [q] modulo the prime [r]: [q] divides [r - 1]. *)
Lemma prime_order_divides r q b :
  Z.prime r -> Z.prime q ->
  b ^ q mod r = 1 -> b mod r <> 1 -> (q | r - 1).
Proof.
  intros Hr Hq Hbq Hb1.
  pose proof (Z.prime_ge_2 r Hr). pose proof (Z.prime_ge_2 q Hq).
  assert (Hnd : ~ (r | b)).
  { intros [c Hc]. subst b.
    replace q with (Z.succ (q - 1)) in Hbq by lia.
    rewrite Z.pow_succ_r in Hbq by lia.
    replace (c * r * (c * r) ^ (q - 1)) with ((c * (c * r) ^ (q - 1)) * r) in Hbq by ring.
    rewrite Z.mod_mul in Hbq by lia. discriminate Hbq. }
  pose proof (fermat_little r Hr b Hnd) as Hf.
  pose proof (pow_one_gcd r b q (r - 1) ltac:(lia) ltac:(lia) ltac:(lia) Hbq Hf) as Hg.
  destruct (Z.divide_prime_r (Z.gcd q (r - 1)) q Hq (Z.gcd_divide_l _ _))
    as [E | [E | [E | E]]].
  - pose proof (Z.gcd_nonneg q (r - 1)). lia.
  - pose proof (Z.gcd_nonneg q (r - 1)). lia.
  - rewrite E, Z.pow_1_r in Hg. contradiction.
  - rewrite <- E. apply Z.gcd_divide_r.
Qed.

Lemma ascending_lower lo l : ascending lo l = true -> Forall (fun q => lo < q) l.
Proof.
  revert lo. induction l as [|q l IH]; intros lo H; [constructor|].
  cbn [ascending] in H. apply andb_prop in H. destruct H as [H1 H2].
  apply Z.ltb_lt in H1. constructor; [exact H1|].
  eapply Forall_impl; [|exact (IH q H2)]. cbv beta. intros x Hx. lia.
Qed.

Lemma Zprod_pos l : Forall Z.prime l -> 0 < Zprod l.
Proof.
  induction 1 as [|q l Hq _ IH]; [reflexivity|].
  cbn [Zprod fold_right]. fold (Zprod l). pose proof (Z.prime_ge_2 q Hq). nia.
Qed.

(** Distinct primes that all divide [m]: so does their product. *)
Lemma Zprod_divides m : forall l lo,
  Forall Z.prime l -> ascending lo l = true -> Forall (fun q => (q | m)) l ->
  (Zprod l | m).
Proof.
  induction l as [|q l IH]; intros lo Hp Ha Hd.
  - exists m. cbn. ring.
  - inversion Hp as [|? ? Hq Hpl]; subst. inversion Hd as [|? ? Hqm Hdl]; subst.
    cbn [ascending] in Ha. apply andb_prop in Ha. destruct Ha as [_ Ha].
    destruct (IH q Hpl Ha Hdl) as [c Hc].
    cbn [Zprod fold_right]. fold (Zprod l).
    assert (Hco : Z.gcd q (Zprod l) = 1).
    { apply Z.coprime_prime_l; [exact Hq|].
      apply (Zprod_coprime q Hq). intros x Hx Hqx.
      pose proof (proj1 (Forall_forall _ _) Hpl x Hx) as Hxp.
      pose proof (proj1 (Forall_forall _ _) (ascending_lower q l Ha) x Hx) as Hlt.
      cbv beta in Hlt.
      pose proof (Z.divide_prime_prime q x Hq Hxp Hqx). lia. }
    assert (Hqc : (q | c)).
    { apply (Z.gauss q (Zprod l) c); [|exact Hco].
      rewrite Z.mul_comm, <- Hc. exact Hqm. }
    destruct Hqc as [d Hd']. exists d. rewrite Hc, Hd'. ring.
Qed.

(** Pocklington's criterion is sound. *)
Lemma pocklington_prime N a qs :
  pocklington_check N a qs = true -> Forall Z.prime qs -> Z.prime N.
Proof.
  unfold pocklington_check. intros H Hqs.
  apply andb_prop in H. destruct H as [H Hbig].
  apply andb_prop in H. destruct H as [H Hasc].
  apply andb_prop in H. destruct H as [H Hall].
  apply andb_prop in H. destruct H as [HN Hfer].
  apply Z.ltb_lt in HN, Hbig. apply Z.eqb_eq in Hfer.
  rewrite Zpow_mod_correct in Hfer by lia.
  destruct (prime_dec N) as [Hp | Hnp]; [apply prime_alt; exact Hp|].
  exfalso.
  destruct (small_prime_factor N HN) as (r & Hr & HrN & Hrr).
  { intros Hp. apply Hnp. apply prime_alt. exact Hp. }
  pose proof (Z.prime_ge_2 r Hr) as Hr2.
  assert (Hdiv : Forall (fun q => (q | r - 1)) qs).
  { apply Forall_forall. intros q Hq.
    pose proof (proj1 (Forall_forall _ _) Hqs q Hq) as Hqp.
    pose proof (Z.prime_ge_2 q Hqp) as Hq2.
    pose proof (proj1 (forallb_forall _ _) Hall q Hq) as Hc. cbv beta in Hc.
    apply andb_prop in Hc. destruct Hc as [Hmod Hgcd].
    apply Z.eqb_eq in Hmod, Hgcd.
    rewrite Zpow_mod_correct in Hgcd by lia.
    pose proof (Z_div_exact_full_2 (N - 1) q ltac:(lia) Hmod) as Hex.
    assert (Hquot : 0 <= (N - 1) / q) by (apply Z.div_pos; lia).
    apply (prime_order_divides r q (a ^ ((N - 1) / q)) Hr Hqp).
    - rewrite <- Z.pow_mul_r by lia.
      replace ((N - 1) / q * q) with (N - 1) by lia.
      rewrite <- (Z.mod_mod_divide _ N r HrN), Hfer. apply Z.mod_1_l. lia.
    - intros Hb1.
      assert (Hd1 : (r | a ^ ((N - 1) / q) mod N - 1)).
      { apply cong_divide; [lia|].
        rewrite (Z.mod_mod_divide _ N r HrN), Hb1. symmetry. apply Z.mod_1_l. lia. }
      pose proof (Z.gcd_greatest _ _ r Hd1 HrN) as Hg. rewrite Hgcd in Hg.
      apply Z.divide_1_r in Hg. lia. }
  pose proof (Zprod_divides (r - 1) qs 1 Hqs Hasc Hdiv) as HF.
  pose proof (Zprod_pos qs Hqs) as HFpos.
  pose proof (Z.divide_pos_le (Zprod qs) (r - 1) ltac:(lia) HF) as Hle.
  nia.
Qed.

Ltac by_trial := apply trial_division_prime; vm_compute; reflexivity.
Ltac by_pocklington a qs primes :=
  apply (pocklington_prime _ a qs); [vm_compute; reflexivity | exact primes].

Lemma prime_197 : Z.prime 197. Proof. by_trial. Qed.
Lemma prime_3677 : Z.prime 3677. Proof. by_trial. Qed.
Lemma prime_78283 : Z.prime 78283. Proof. by_trial. Qed.
Lemma prime_704251 : Z.prime 704251. Proof. by_trial. Qed.

Lemma prime_66417393611 : Z.prime 66417393611.
Proof.
  by_pocklington 2 [197; 3677]
    (Forall_cons _ prime_197 (Forall_cons _ prime_3677 (Forall_nil _))).
Qed.

Lemma prime_11290956913871 : Z.prime 11290956913871.
Proof.
  by_pocklington 2 [66417393611] (Forall_cons _ prime_66417393611 (Forall_nil _)).
Qed.

Lemma prime_46076956964474543 : Z.prime 46076956964474543.
Proof.
  by_pocklington 2 [78283; 704251]
    (Forall_cons _ prime_78283 (Forall_cons _ prime_704251 (Forall_nil _))).
Qed.

Lemma prime_774023187263532362759620327192479577272145303 :
  Z.prime 774023187263532362759620327192479577272145303.
Proof.
  by_pocklington 2 [11290956913871; 46076956964474543]
    (Forall_cons _ prime_11290956913871
       (Forall_cons _ prime_46076956964474543 (Forall_nil _))).
Qed.

Lemma prime_835945042244614951780389953367877943453916927241 :
  Z.prime 835945042244614951780389953367877943453916927241.
Proof.
  by_pocklington 2 [774023187263532362759620327192479577272145303]
    (Forall_cons _ prime_774023187263532362759620327192479577272145303 (Forall_nil _)).
Qed.

Lemma large_prime_is_prime : Z.prime ThresholdCrypto._generate_large_prime.
Proof.
  by_pocklington 2 [835945042244614951780389953367877943453916927241]
    (Forall_cons _ prime_835945042244614951780389953367877943453916927241
       (Forall_nil _)).
Qed.


End Primality.

(** ** Polynomials and their roots modulo a prime *)

Section Polynomials.

Lemma poly_padd cs : forall ds x, poly (padd cs ds) x = poly cs x + poly ds x.
Proof.
  induction cs as [|c cs IH]; intros [|d ds] x; cbn [padd poly]; try lia.
  rewrite IH. ring.
Qed.

Lemma poly_pscale k cs x : poly (pscale k cs) x = k * poly cs x.
Proof.
  induction cs as [|c cs IH]; cbn [pscale map poly]; [lia|].
  fold (pscale k cs). rewrite IH. ring.
Qed.

Lemma poly_plin a cs x : poly (plin a cs) x = (x - a) * poly cs x.
Proof. unfold plin. rewrite poly_padd, poly_pscale. cbn [poly]. ring. Qed.

Lemma length_padd cs : forall ds,
  List.length (padd cs ds) = Nat.max (List.length cs) (List.length ds).
Proof.
  induction cs as [|c cs IH]; intros [|d ds]; cbn [padd List.length Nat.max]; try reflexivity.
  rewrite IH. reflexivity.
Qed.

Lemma length_pscale k cs : List.length (pscale k cs) = List.length cs.
Proof. apply length_map. Qed.

Lemma length_plin a cs : List.length (plin a cs) = S (List.length cs).
Proof. unfold plin. rewrite length_padd, length_pscale. cbn [List.length]. lia. Qed.

Lemma pquot_cons a c rest : rest <> [] -> pquot a (c :: rest) = poly rest a :: pquot a rest.
Proof. destruct rest; [contradiction | reflexivity]. Qed.

(** [P(x) - P(a) = (x - a) Q(x)] *)
Lemma poly_pquot a cs x : poly cs x - poly cs a = (x - a) * poly (pquot a cs) x.
Proof.
  induction cs as [|c rest IH]; [cbn [pquot poly]; ring|].
  destruct rest as [|c' rest']; [cbn [pquot poly]; ring|].
  rewrite pquot_cons by discriminate.
  set (r := c' :: rest') in *. cbn [poly].
  replace (poly r x) with (poly r a + (x - a) * poly (pquot a r) x) by lia. ring.
Qed.

Lemma length_pquot a cs : List.length (pquot a cs) = Nat.pred (List.length cs).
Proof.
  induction cs as [|c rest IH]; [reflexivity|].
  destruct rest as [|c' rest']; [reflexivity|].
  rewrite pquot_cons by discriminate.
  set (r := c' :: rest') in *. cbn [List.length]. rewrite IH.
  unfold r. reflexivity.
Qed.

Variable p : Z.
Hypothesis Hp : Z.prime p.

Let p_ge_2 : 2 <= p.
Proof. apply Z.prime_ge_2. exact Hp. Qed.

(** A polynomial with more roots modulo [p], pairwise different modulo
    [p], than its degree allows vanishes modulo [p] everywhere. *)
Lemma poly_roots : forall xs cs,
  (List.length cs <= List.length xs)%nat ->
  NoDup (map (fun x => x mod p) xs) ->
  (forall x, In x xs -> (p | poly cs x)) ->
  forall x, (p | poly cs x).
Proof.
  induction xs as [|a xs IH]; intros cs Hlen Hnd Hroots x.
  - destruct cs; [apply Z.divide_0_r | cbn [List.length] in Hlen; lia].
  - cbn [map] in Hnd. apply NoDup_cons_iff in Hnd. destruct Hnd as [Ha Hnd].
    assert (Hq : forall z, (p | poly (pquot a cs) z)).
    { apply IH; [|exact Hnd|].
      - rewrite length_pquot. cbn [List.length] in Hlen. lia.
      - intros z Hz.
        assert (Hd : (p | (z - a) * poly (pquot a cs) z)).
        { rewrite <- poly_pquot. apply Z.divide_sub_r; apply Hroots;
            [right; exact Hz | left; reflexivity]. }
        apply Z.divide_prime_mul in Hd; [|exact Hp]. destruct Hd as [Hd | Hd]; [|exact Hd].
        exfalso. apply Ha. apply cong_divide in Hd; [|lia].
        rewrite <- Hd. apply in_map_iff. exists z. split; [reflexivity | exact Hz]. }
    replace (poly cs x) with (poly cs a + (x - a) * poly (pquot a cs) x)
      by (pose proof (poly_pquot a cs x); lia).
    apply Z.divide_add_r; [apply Hroots; left; reflexivity|].
    apply Z.divide_mul_r. apply Hq.
Qed.

End Polynomials.

(** ** [_evaluate_polynomial] and [_lagrange_interpolation] *)

Section Interpolation.
Import Py ThresholdCrypto.

Lemma eval_from_poly p cs x : p <> 0 -> forall i r,
  0 <= i ->
  eval_from i cs x p (r mod p) = (r + x ^ i * poly cs x) mod p.
Proof.
  intros Hp. induction cs as [|c cs IH]; intros i r Hi; cbn [eval_from poly].
  - f_equal. ring.
  - unfold powmod. rewrite Zpow_mod_correct by exact Hp.
    assert (E : (r mod p + c * (x ^ i mod p)) mod p = (r + c * x ^ i) mod p).
    { rewrite Z.add_mod_idemp_l by exact Hp. rewrite <- Z.add_mod_idemp_r by exact Hp.
      rewrite Z.mul_mod_idemp_r by exact Hp. rewrite Z.add_mod_idemp_r by exact Hp.
      reflexivity. }
    rewrite E, IH by lia. f_equal.
    rewrite Z.pow_add_r, Z.pow_1_r by lia. ring.
Qed.

Lemma evaluate_polynomial_poly p cs x :
  p <> 0 -> _evaluate_polynomial cs x p = poly cs x mod p.
Proof.
  intros Hp. unfold _evaluate_polynomial.
  replace (eval_from 0 cs x p 0) with (eval_from 0 cs x p (0 mod p))
    by (rewrite Z.mod_0_l by exact Hp; reflexivity).
  rewrite eval_from_poly by (exact Hp || lia).
  f_equal. rewrite Z.pow_0_r. ring.
Qed.

Variable p : Z.
Hypothesis Hp : Z.prime p.

Let p_ge_2 : 2 <= p.
Proof. apply Z.prime_ge_2. exact Hp. Qed.

Lemma basis_from_spec xi x : forall points j i num den,
  basis_from j i xi points x p (num mod p) (den mod p)
  = ((num * skip_prod j i (map fst points) x) mod p,
     (den * skip_prod j i (map fst points) xi) mod p).
Proof.
  induction points as [|[xj yj] points IH]; intros j i num den;
    cbn [basis_from map fst skip_prod].
  - rewrite !Z.mul_1_r. reflexivity.
  - destruct (Nat.eqb i j); [apply IH|].
    rewrite !Z.mul_mod_idemp_l by lia. rewrite IH. f_equal; f_equal; ring.
Qed.

Lemma lagrange_from_spec points x : forall todo i r,
  lagrange_from i todo points x p (r mod p)
  = (r + lagrange_sum p (map fst points) i todo x) mod p.
Proof.
  induction todo as [|[xi yi] todo IH]; intros i r; cbn [lagrange_from lagrange_sum].
  - f_equal. ring.
  - replace (basis_from 0 i xi points x p 1 1)
      with (basis_from 0 i xi points x p (1 mod p) (1 mod p))
      by (rewrite Z.mod_1_l by lia; reflexivity).
    rewrite basis_from_spec, !Z.mul_1_l.
    fold (lagrange_weight p (map fst points) i xi).
    set (w := lagrange_weight p (map fst points) i xi).
    set (N := skip_prod 0 i (map fst points) x).
    assert (E : (r mod p + yi * ((N mod p * w) mod p)) mod p = (r + yi * w * N) mod p).
    { rewrite Z.add_mod_idemp_l by lia. rewrite <- Z.add_mod_idemp_r by lia.
      rewrite Z.mul_mod_idemp_r by lia.
      replace (yi * (N mod p * w)) with (N mod p * (yi * w)) by ring.
      rewrite Z.mul_mod_idemp_l by lia. rewrite Z.add_mod_idemp_r by lia.
      f_equal. ring. }
    rewrite E, IH. f_equal. ring.
Qed.

Lemma poly_skip_coeffs x : forall xs j i,
  poly (skip_coeffs j i xs) x = skip_prod j i xs x.
Proof.
  induction xs as [|xj xs IH]; intros j i; cbn [skip_coeffs skip_prod poly]; [ring|].
  destruct (Nat.eqb i j); [apply IH|]. rewrite poly_plin, IH. reflexivity.
Qed.

Lemma length_skip_coeffs_past : forall xs j i,
  (i < j)%nat -> List.length (skip_coeffs j i xs) = S (List.length xs).
Proof.
  induction xs as [|xj xs IH]; intros j i Hij; cbn [skip_coeffs List.length]; [reflexivity|].
  destruct (Nat.eqb_spec i j); [lia|]. rewrite length_plin, IH by lia. reflexivity.
Qed.

Lemma length_skip_coeffs : forall xs j i,
  (j <= i < j + List.length xs)%nat -> List.length (skip_coeffs j i xs) = List.length xs.
Proof.
  induction xs as [|xj xs IH]; intros j i Hij; cbn [skip_coeffs List.length] in *; [lia|].
  destruct (Nat.eqb_spec i j).
  - apply length_skip_coeffs_past. lia.
  - rewrite length_plin, IH by lia. reflexivity.
Qed.

Lemma poly_lagrange_coeffs xs x : forall todo i,
  poly (lagrange_coeffs p xs i todo) x = lagrange_sum p xs i todo x.
Proof.
  induction todo as [|[xi yi] todo IH]; intros i; cbn [lagrange_coeffs lagrange_sum poly];
    [reflexivity|].
  rewrite poly_padd, poly_pscale, poly_skip_coeffs, IH. reflexivity.
Qed.

Lemma length_lagrange_coeffs xs : forall todo i,
  (i + List.length todo <= List.length xs)%nat ->
  (List.length (lagrange_coeffs p xs i todo) <= List.length xs)%nat.
Proof.
  induction todo as [|[xi yi] todo IH]; intros i Hi; cbn [lagrange_coeffs List.length] in *;
    [lia|].
  rewrite length_padd, length_pscale, length_skip_coeffs by lia.
  specialize (IH (S i)). lia.
Qed.

(** At the abscissa of another point the product is 0. *)
Lemma skip_prod_root : forall xs j i m x,
  nth_error xs m = Some x -> (j + m)%nat <> i -> skip_prod j i xs x = 0.
Proof.
  induction xs as [|a xs IH]; intros j i m x Hm Hne; [destruct m; discriminate Hm|].
  cbn [skip_prod]. destruct m as [|m]; cbn [nth_error] in Hm.
  - injection Hm as ->. destruct (Nat.eqb_spec i j); [lia | ring].
  - assert (E : skip_prod (S j) i xs x = 0) by (apply (IH (S j) i m); [exact Hm | lia]).
    rewrite E. destruct (Nat.eqb i j); ring.
Qed.

(** At an abscissa that differs modulo [p] from those of the other points
    the product is a unit. *)
Lemma skip_prod_unit : forall xs j i x,
  (forall m xm, nth_error xs m = Some xm -> (j + m)%nat <> i -> xm mod p <> x mod p) ->
  ~ (p | skip_prod j i xs x).
Proof.
  induction xs as [|a xs IH]; intros j i x Hother; cbn [skip_prod].
  - intros Hd. apply Z.divide_1_r in Hd. lia.
  - assert (Hrest : ~ (p | skip_prod (S j) i xs x)).
    { apply IH. intros m xm Hm Hne. apply (Hother (S m) xm); [exact Hm | lia]. }
    destruct (Nat.eqb_spec i j) as [E|E]; [exact Hrest|].
    intros Hd. apply Z.divide_prime_mul in Hd; [|exact Hp].
    destruct Hd as [Hd | Hd]; [|exact (Hrest Hd)].
    apply cong_divide in Hd; [|lia].
    apply (Hother 0%nat a); [reflexivity | lia | symmetry; exact Hd].
Qed.

Lemma lagrange_sum_later xs x k :
  nth_error xs k = Some x ->
  forall todo i, (k < i)%nat -> lagrange_sum p xs i todo x = 0.
Proof.
  intros Hk. induction todo as [|[xi yi] todo IH]; intros i Hi; cbn [lagrange_sum];
    [reflexivity|].
  rewrite (skip_prod_root xs 0 i k x) by (exact Hk || lia).
  rewrite IH by lia. ring.
Qed.

(** The interpolating polynomial takes the value [yk] at [xk], modulo [p]. *)
Lemma lagrange_sum_node xs :
  NoDup (map (fun x => x mod p) xs) ->
  forall todo i m xk yk,
    (forall m xi yi, nth_error todo m = Some (xi, yi) -> nth_error xs (i + m) = Some xi) ->
    nth_error todo m = Some (xk, yk) ->
    lagrange_sum p xs i todo xk mod p = yk mod p.
Proof.
  intros Hnd. induction todo as [|[xi yi] todo IH]; intros i m xk yk Hsuf Hm;
    [destruct m; discriminate Hm|].
  cbn [lagrange_sum]. destruct m as [|m]; cbn [nth_error] in Hm.
  - injection Hm as -> ->.
    assert (Hi : nth_error xs i = Some xk).
    { rewrite <- (Nat.add_0_r i). apply (Hsuf 0%nat xk yk). reflexivity. }
    rewrite (lagrange_sum_later xs xk i Hi) by lia. rewrite Z.add_0_r.
    set (D := skip_prod 0 i xs xk).
    assert (HD : ~ (p | D)).
    { apply skip_prod_unit. intros m xm Hxm Hne Heq. apply Hne. cbn [Nat.add].
      apply (proj1 (NoDup_nth_error _) Hnd).
      - apply nth_error_Some. rewrite (map_nth_error _ _ _ Hxm). discriminate.
      - rewrite (map_nth_error _ _ _ Hxm), (map_nth_error _ _ _ Hi). f_equal. exact Heq. }
    unfold lagrange_weight. fold D. unfold powmod.
    rewrite Zpow_mod_correct by lia. rewrite <- Zpower_mod by lia.
    rewrite <- Z.mul_assoc, <- Z.mul_mod_idemp_r by lia.
    rewrite Z.mul_mod_idemp_l by lia.
    replace (D ^ (p - 2) * D) with (D ^ (p - 1))
      by (replace (p - 1) with (Z.succ (p - 2)) by lia; rewrite Z.pow_succ_r by lia; ring).
    rewrite (fermat_little p Hp D HD). rewrite Z.mul_1_r. reflexivity.
  - rewrite (skip_prod_root xs 0 i (i + S m) xk)
      by (first [apply (Hsuf (S m) xk yk); exact Hm | lia]).
    rewrite Z.mul_0_r, Z.add_0_l.
    apply (IH (S i) m xk yk); [|exact Hm].
    intros m' xi' yi' Hm'. replace (S i + m')%nat with (i + S m')%nat by lia.
    apply (Hsuf (S m') xi' yi'). exact Hm'.
Qed.

(** Interpolation through points of a polynomial with no more coefficients
    than there are points, at abscissas pairwise different modulo [p],
    evaluates that polynomial. *)
Lemma lagrange_interpolation_poly cs points x :
  (List.length cs <= List.length points)%nat ->
  NoDup (map (fun pt => fst pt mod p) points) ->
  (forall xk yk, In (xk, yk) points -> yk mod p = poly cs xk mod p) ->
  _lagrange_interpolation points x p = poly cs x mod p.
Proof.
  intros Hlen Hnd Hval. unfold _lagrange_interpolation.
  replace (lagrange_from 0 points points x p 0)
    with (lagrange_from 0 points points x p (0 mod p))
    by (rewrite Z.mod_0_l by lia; reflexivity).
  rewrite lagrange_from_spec, Z.add_0_l.
  set (xs := map fst points).
  assert (Hnd' : NoDup (map (fun x => x mod p) xs)).
  { unfold xs. rewrite map_map. exact Hnd. }
  apply cong_divide; [lia|].
  pose (D := padd (lagrange_coeffs p xs 0 points) (pscale (-1) cs)).
  assert (HD : forall z, poly D z = lagrange_sum p xs 0 points z - poly cs z).
  { intros z. unfold D. rewrite poly_padd, poly_pscale, poly_lagrange_coeffs. ring. }
  rewrite <- HD. apply (poly_roots p Hp xs); [|exact Hnd'|].
  - unfold D. rewrite length_padd, length_pscale.
    pose proof (length_lagrange_coeffs xs points 0%nat) as Hl.
    unfold xs in *. rewrite length_map in *. specialize (Hl (Nat.le_refl _)). lia.
  - intros xk Hxk. unfold xs in Hxk. apply in_map_iff in Hxk.
    destruct Hxk as ([xk' yk] & Hfst & Hin). cbn [fst] in Hfst. subst xk'.
    destruct (In_nth_error _ _ Hin) as [m Hm].
    rewrite HD. apply cong_divide; [lia|].
    rewrite (lagrange_sum_node xs Hnd' points 0%nat m xk yk).
    + apply Hval. exact Hin.
    + intros m' xi yi Hm'. cbn [Nat.add]. unfold xs.
      rewrite (map_nth_error _ _ _ Hm'). reflexivity.
    + exact Hm.
Qed.

End Interpolation.

(** ** [reconstruct_secret] after [split_secret] *)

Section RoundTrip.
Import Py ThresholdCrypto.


End RoundTrip.

